(** * scTriangulate: pruning, the invalid-cluster list and the Shapley inputs

    A shallow embedding of [sctriangulate/prune.py] and of the methods of
    [sctriangulate/main_class.py] that drive it ([add_to_invalid],
    [clear_invalid], [add_new_metrics], [compute_shapley], [_prefixing],
    [pruning]), prepare its input ([_check_adata], [_add_to_uns],
    [run_assign]) or read its output ([get_cluster]), followed by the
    properties the specification states about them and by further
    properties of the same code.

    Conventions of the embedding.
    - A Python call that may raise returns a [Py.result]; the exception
      classes are the ones the interpreter raises at that place.
    - [adata.obs] (a pandas DataFrame) is a list of rows in table order.  A
      row carries its index label (the barcode), its string-valued cells and
      its numeric cells by column name, and the integer column ['ori'].  A
      column that is not in the table is absent from every row; reading it
      raises [KeyError].  Metric values are only copied, never computed
      with, and are carried as rationals.  The column ['ori'] that the
      pruning functions write has a field of its own: the tables are taken
      to have no annotation and no other column of that name.
    - pandas lists the entries of [value_counts] by decreasing count and
      fixes no order among equal counts.  [Pd.value_counts] lists equal
      counts by first appearance; the post-pass, the one place where that
      order shows, is also given for any listing
      ([Prune.singleton_cleanup_from]).
    - numpy's true division of two integers yields a double.  The program only
      compares such quotients of observation counts with the literals [0.6]
      and [0.05].  A quotient of two counts that differs from 3/5 or 1/20
      does so by at least 1/(20 * size), far more than the rounding error of
      a double for any count below 2^50, and the literals round to the
      doubles nearest 3/5 and 1/20; so these comparisons are the comparisons
      of the exact rationals, which is how they are written here.  Division
      by zero yields numpy's infinities and NaN.
    - scikit-learn's scaling, PCA and nearest-neighbour classifier are
      floating-point library code: the classifier is a parameter.  *)

From Stdlib Require Import ZArith QArith String Ascii List Lia.
From stdpp Require Import gmap strings list sorting pretty.

Local Open Scope string_scope.
Local Open Scope list_scope.

(** ** Python: exceptions, results, names and calls *)

Module Py.

Inductive exn : Type :=
| NameError (name : string)
| TypeError (msg : string)
| KeyError (key : string)
| IndexError
| AttributeError (attr : string)
| ValueError (msg : string)
| ZeroDivisionError.

Inductive result (A : Type) : Type :=
| Ok (a : A)
| Raise (e : exn).
Arguments Ok {A} a.
Arguments Raise {A} e.

Definition bind {A B : Type} (m : result A) (k : A -> result B) : result B :=
  match m with
  | Ok a => k a
  | Raise e => Raise e
  end.

Definition of_option {A : Type} (o : option A) (e : exn) : result A :=
  match o with
  | Some a => Ok a
  | None => Raise e
  end.

Fixpoint mapM {A B : Type} (f : A -> result B) (l : list A) : result (list B) :=
  match l with
  | [] => Ok []
  | x :: l' =>
      bind (f x) (fun y => bind (mapM f l') (fun ys => Ok (y :: ys)))
  end.

(** A loop that threads a value through the elements of a list and stops at
    the first exception. *)
Fixpoint foldM {A S : Type} (f : S -> A -> result S) (s : S) (l : list A)
    : result S :=
  match l with
  | [] => Ok s
  | x :: l' => bind (f s x) (fun s' => foldM f s' l')
  end.

(** [s.replace(old,new)] for a one-character [old]. *)
Fixpoint str_replace (old : ascii) (new : string) (s : string) : string :=
  match s with
  | EmptyString => EmptyString
  | String c s' =>
      if Ascii.eqb c old then new +:+ str_replace old new s'
      else String c (str_replace old new s')
  end.

(** [s.split(sep)] for a one-character separator. *)
Fixpoint split (sep : ascii) (s : string) : list string :=
  match s with
  | EmptyString => [EmptyString]
  | String c s' =>
      if Ascii.eqb c sep then EmptyString :: split sep s'
      else match split sep s' with
           | [] => [String c EmptyString]
           | w :: ws => String c w :: ws
           end
  end.

(** [l[i]] on a list: [IndexError] past the end. *)
Definition index {A : Type} (l : list A) (i : nat) : result A :=
  of_option (l !! i) IndexError.

(** [list(set(l))]: the distinct elements, in an order the language does not
    fix. *)
Definition list_set (l : list string) : list string :=
  elements (list_to_set l : gset string).

(** [l.remove(x)]: drops the first occurrence, [ValueError] when there is
    none. *)
Fixpoint list_remove (x : string) (l : list string) : result (list string) :=
  match l with
  | [] => Raise (ValueError "list.remove(x): x not in list")
  | y :: l' =>
      if decide (y = x) then Ok l'
      else bind (list_remove x l') (fun r => Ok (y :: r))
  end.

(** A function object as far as a call is concerned: the names of its
    parameters, none of which has a default in [prune.py]. *)
Record funobj : Type := { params : list string }.

(** Binding the arguments of a call with [npos] positional arguments and the
    keyword arguments [kwargs]. *)
Definition bind_arguments (fname : string) (f : funobj) (npos : nat)
    (kwargs : list string) : result unit :=
  if (length (params f) <? npos)%nat then
    Raise (TypeError (fname +:+ "() takes too many positional arguments"))
  else
    match list_find (fun k => k ∉ params f) kwargs with
    | Some (_, k) =>
        Raise (TypeError (fname +:+ "() got an unexpected keyword argument '"
                                +:+ k +:+ "'"))
    | None =>
        match list_find (fun k => k ∈ take npos (params f)) kwargs with
        | Some (_, k) =>
            Raise (TypeError (fname +:+ "() got multiple values for argument '"
                                    +:+ k +:+ "'"))
        | None =>
            if decide (drop npos (params f) ⊆ kwargs) then Ok tt
            else Raise (TypeError (fname +:+ "() missing required arguments"))
        end
    end.

End Py.

Import Py.

Notation "'let!' x ':=' e 'in' k" := (Py.bind e (fun x => k))
  (at level 10, x pattern, e at level 100, k at level 200, only parsing).

(** ** numpy: true division of integers and comparison with a literal *)

Module Np.

Inductive float : Type :=
| Finite (q : Q)
| PosInf
| NegInf
| NaN.

Definition true_divide (a b : Z) : float :=
  if (b =? 0)%Z then
    if (a =? 0)%Z then NaN else if (0 <? a)%Z then PosInf else NegInf
  else Finite (inject_Z a / inject_Z b).

(** [x >= c] and [x < c] for a finite literal [c]. *)
Definition ge (x : float) (c : Q) : bool :=
  match x with
  | Finite q => Qle_bool c q
  | PosInf => true
  | NegInf | NaN => false
  end.

Definition lt (x : float) (c : Q) : bool :=
  match x with
  | Finite q => negb (Qle_bool c q)
  | NegInf => true
  | PosInf | NaN => false
  end.

End Np.

(** ** pandas: the observation table and the operations the program uses *)

Module Pd.

(** One row of [adata.obs]. *)
Record obs_row : Type := mk_row {
  barcode : string;            (* the index label *)
  cols : gmap string string;   (* the string-valued cells, by column name *)
  nums : gmap string Q;        (* the numeric cells, by column name *)
  ori : nat                    (* the column 'ori' *)
}.

Definition set_cell (k v : string) (r : obs_row) : obs_row :=
  {| barcode := barcode r; cols := <[k := v]> (cols r); nums := nums r;
     ori := ori r |}.

Definition del_cell (k : string) (r : obs_row) : obs_row :=
  {| barcode := barcode r; cols := delete k (cols r); nums := nums r;
     ori := ori r |}.

Definition set_num (k : string) (v : option Q) (r : obs_row) : obs_row :=
  {| barcode := barcode r; cols := cols r;
     nums := match v with
             | Some q => <[k := q]> (nums r)
             | None => delete k (nums r)
             end;
     ori := ori r |}.

Definition set_ori (i : nat) (r : obs_row) : obs_row :=
  {| barcode := barcode r; cols := cols r; nums := nums r; ori := i |}.

(** [df[k]] read as a column of strings. *)
Definition cell (k : string) (r : obs_row) : result string :=
  of_option (cols r !! k) (KeyError k).

Definition column (k : string) (df : list obs_row) : result (list string) :=
  mapM (cell k) df.

(** [df[ks].values]: one row of numbers per row of the table. *)
Definition num_cell (r : obs_row) (k : string) : result Q :=
  of_option (nums r !! k) (KeyError k).

Definition values (ks : list string) (df : list obs_row)
    : result (list (list Q)) :=
  mapM (fun r => mapM (num_cell r) ks) df.

(** [df['ori'] = np.arange(df.shape[0])]: the column ['ori'] is the field
    [ori] of the rows. *)
Definition assign_ori (df : list obs_row) : list obs_row := imap set_ori df.

(** [df[k] = values], where a missing value (NaN) leaves the cell empty. *)
Definition assign_column (k : string) (values : list (option string))
    (df : list obs_row) : result (list obs_row) :=
  if decide (length values = length df) then
    Ok (zip_with (fun r v => match v with
                             | Some v => set_cell k v r
                             | None => del_cell k r
                             end) df values)
  else Raise (ValueError "Length of values does not match length of index").

(** [Series.unique()]: the distinct values in order of first appearance. *)
Fixpoint unique (l : list string) : list string :=
  match l with
  | [] => []
  | x :: l' => x :: filter (fun y => y ≠ x) (unique l')
  end.

Definition count_of (x : string) (l : list string) : nat :=
  length (filter (fun y => y = x) l).

(** [Series.value_counts()]: one entry per distinct value with its number of
    occurrences, by decreasing count.  Among equal counts pandas promises no
    order; this listing takes them in order of first appearance. *)
Fixpoint insert_desc (x : string * nat) (l : list (string * nat))
    : list (string * nat) :=
  match l with
  | [] => [x]
  | y :: l' => if (y.2 <=? x.2)%nat then x :: y :: l' else y :: insert_desc x l'
  end.

Definition sort_desc (l : list (string * nat)) : list (string * nat) :=
  foldr insert_desc [] l.

Definition value_counts (l : list string) : list (string * nat) :=
  sort_desc (map (fun k => (k, count_of k l)) (unique l)).

(** [vc.loc[k]], [vc.sum()] and [vc.max()] on such a Series. *)
Fixpoint assoc (k : string) (vc : list (string * nat)) : option nat :=
  match vc with
  | [] => None
  | (k', n) :: vc' => if decide (k' = k) then Some n else assoc k vc'
  end.

Definition loc (vc : list (string * nat)) (k : string) : result nat :=
  of_option (assoc k vc) (KeyError k).

Definition vc_sum (vc : list (string * nat)) : nat :=
  foldr (fun p acc => (p.2 + acc)%nat) 0%nat vc.

Definition vc_max (vc : list (string * nat)) : nat :=
  foldr (fun p acc => Nat.max p.2 acc) 0%nat vc.

(** [df.sort_values(by='ori')]. *)
Fixpoint insert_ori (x : obs_row) (l : list obs_row) : list obs_row :=
  match l with
  | [] => [x]
  | y :: l' => if (ori x <=? ori y)%nat then x :: y :: l' else y :: insert_ori x l'
  end.

Definition sort_values_ori (df : list obs_row) : list obs_row :=
  foldr insert_ori [] df.

(** [df.groupby(by=k)]: the groups in increasing order of their key, each
    with its rows in table order. *)
Fixpoint insert_key (x : string) (l : list string) : list string :=
  match l with
  | [] => [x]
  | y :: l' => if String.leb x y then x :: y :: l' else y :: insert_key x l'
  end.

Definition sort_keys (l : list string) : list string := foldr insert_key [] l.

Definition groupby (k : string) (df : list obs_row)
    : result (list (string * list obs_row)) :=
  let! keys := column k df in
  Ok (map (fun key => (key, filter (fun r => cols r !! k = Some key) df))
          (sort_keys (unique keys))).

End Pd.

Import Pd.

(** ** The ScTriangulate object and module namespaces *)

Module Obj.

(** The attributes of a [ScTriangulate] instance that pruning, the invalid
    list and [compute_shapley] read or write. *)
Record ScTriangulate : Type := mk_sctri {
  dir : string;
  adata_obs : list obs_row;                  (* self.adata.obs *)
  query : list string;
  reference : string;
  size_dict : gmap string (gmap string Z);   (* labeling -> cluster -> size *)
  invalid : option (list string);            (* None: no such attribute *)
  invaild : option (list string);            (* None: no such attribute *)
  total_metrics : list string;               (* the one list object bound to
                                                both self.metrics and
                                                self.total_metrics *)
  add_metrics : list string;                 (* keys of self.add_metrics, in
                                                insertion order *)
  uns_marker_genes : bool                    (* 'marker_genes' in self.uns *)
}.

(** What a global name of a module can be bound to. *)
Inductive pyval : Type :=
| PyModule
| PyFunction (f : funobj)
| PyAnnData (obs : list obs_row).

Definition load_global (globals : gmap string pyval) (name : string)
    : result pyval :=
  of_option (globals !! name) (NameError name).

(** The global names of [prune.py] once the module is imported: its imports
    and its four functions. *)
Definition prune_globals : gmap string pyval :=
  list_to_map
    [ ("sys", PyModule); ("os", PyModule); ("math", PyModule);
      ("copy", PyModule); ("pd", PyModule); ("np", PyModule);
      ("plt", PyModule); ("sns", PyModule);
      ("rankdata", PyFunction {| params := ["a"; "method"; "axis"] |});
      ("issparse", PyFunction {| params := ["x"] |});
      ("mp", PyModule); ("logging", PyModule); ("sc", PyModule);
      ("ad", PyModule);
      ("reassign_pruning", PyFunction {| params := ["sctri"] |});
      ("inclusiveness", PyFunction {| params := ["obs"; "r"; "c"] |});
      ("run_reference_pruning",
        PyFunction {| params := ["chunk"; "reference"; "size_dict"; "obs"] |});
      ("reference_pruning",
        PyFunction {| params := ["obs"; "reference"; "size_dict"] |}) ].

End Obj.

Import Obj.

(** ** prune.py *)

Module Prune.

(** [size_dict[name.split('@')[0]][name.split('@')[1]]]. *)
Definition size_of (size_dict : gmap string (gmap string Z)) (name : string)
    : result Z :=
  let parts := split "@" name in
  let! key := index parts 0 in
  let! sizes := of_option (size_dict !! key) (KeyError key) in
  let! cluster := index parts 1 in
  of_option (sizes !! cluster) (KeyError cluster).

(** [10 if obs.shape[0] < 50000 else 30]. *)
Definition abs_thresh (n : nat) : Z :=
  if (Z.of_nat n <? 50000)%Z then 10%Z else 30%Z.

(** The post-pass both strategies end with (lines 114-119 and 172-177): every
    row whose pruned label occurs once in [subset] takes the most abundant
    pruned label of [subset].  The assignment through
    [subset.loc[:,'pruned'].iloc[i]] writes into the column of [subset]. *)
Definition most_abundant_cluster (vc2 : list (string * nat)) : result string :=
  let! first := index (filter (fun p => p.2 = vc_max vc2) vc2) 0 in
  Ok first.1.

Definition exclude_clusters (vc2 : list (string * nat)) : list string :=
  map fst (filter (fun p => p.2 = 1%nat) vc2).

Definition singleton_cleanup (subset : list obs_row) : result (list obs_row) :=
  let! pruned := column "pruned" subset in
  let vc2 := value_counts pruned in
  let! most_abundant := most_abundant_cluster vc2 in
  let exclude := exclude_clusters vc2 in
  Ok (map (fun r => match cols r !! "pruned" with
                    | Some p => if decide (p ∈ exclude)
                                then set_cell "pruned" most_abundant r
                                else r
                    | None => r
                    end) subset).

(** The same post-pass from the column of pruned labels on, for any listing
    [vc2] of its value counts: what [vc2.loc[vc2==vc2.max()].index[0]] and
    [vc2.loc[vc2==1].index] are depends on [vc2] alone. *)
Definition singleton_cleanup_from (vc2 : list (string * nat))
    (subset : list obs_row) : result (list obs_row) :=
  let! most_abundant := most_abundant_cluster vc2 in
  let exclude := exclude_clusters vc2 in
  Ok (map (fun r => match cols r !! "pruned" with
                    | Some p => if decide (p ∈ exclude)
                                then set_cell "pruned" most_abundant r
                                else r
                    | None => r
                    end) subset).

(** [inclusiveness(obs,r,c)] with [r = {r_key: r_cluster}] and
    [c = {c_key: c_cluster}]. *)
Definition inclusiveness (obs : list obs_row) (r c : string * string)
    : result (Q * Q) :=
  let r_key := r.1 in
  let r_cluster := r.2 in
  let c_key := c.1 in
  let c_cluster := c.2 in
  let! _ := column r_key obs in
  let! _ := column c_key obs in
  let r_set : gset string :=
    list_to_set (map barcode (filter (fun x => cols x !! r_key = Some r_cluster) obs)) in
  let c_set : gset string :=
    list_to_set (map barcode (filter (fun x => cols x !! c_key = Some c_cluster) obs)) in
  let rc_i := r_set ∩ c_set in
  if decide (size r_set = 0%nat) then Raise ZeroDivisionError
  else if decide (size c_set = 0%nat) then Raise ZeroDivisionError
  else Ok (inject_Z (Z.of_nat (size rc_i)) / inject_Z (Z.of_nat (size r_set)),
           inject_Z (Z.of_nat (size rc_i)) / inject_Z (Z.of_nat (size c_set)))%Q.

(** The body of the loop of [run_reference_pruning] (lines 155-168) for one
    raw cluster of the chunk: the label it is mapped to.  [floor] is the
    local [abs_thresh], [total] is [vc.sum()]. *)
Definition proportion_to_ref (count_cluster total : nat) : Np.float :=
  Np.true_divide (Z.of_nat count_cluster) (Z.of_nat total).

Definition proportion_to_self (count_cluster : nat) (size : Z) : Np.float :=
  Np.true_divide (Z.of_nat count_cluster) size.

Definition mapping_choice (floor : Z) (chunk0 reference cluster : string)
    (count_cluster total : nat) (size : Z) : string :=
  if Np.ge (proportion_to_self count_cluster size) 0.6 then cluster
  else if Np.ge (proportion_to_ref count_cluster total) 0.05 then cluster
  else if Np.lt (proportion_to_ref count_cluster total) 0.05
          && (floor <? Z.of_nat count_cluster)%Z
       then cluster
  else reference +:+ "@" +:+ chunk0.

Definition mapping_target (floor : Z) (chunk0 reference : string)
    (size_dict : gmap string (gmap string Z)) (obs : list obs_row)
    (vc : list (string * nat)) (cluster : string) : result string :=
  let parts := split "@" cluster in
  let! c_key := index parts 0 in
  let! c_cluster := index parts 1 in
  let! _ := inclusiveness obs (reference, chunk0) (c_key, c_cluster) in
  let! count_cluster := loc vc cluster in
  let! size := size_of size_dict cluster in
  Ok (mapping_choice floor chunk0 reference cluster count_cluster (vc_sum vc) size).

(** The loop itself, filling [mapping]. *)
Fixpoint build_mapping (floor : Z) (chunk0 reference : string)
    (size_dict : gmap string (gmap string Z)) (obs : list obs_row)
    (vc : list (string * nat)) (overlap_clusters : list string)
    (mapping : gmap string string) : result (gmap string string) :=
  match overlap_clusters with
  | [] => Ok mapping
  | cluster :: rest =>
      let! target := mapping_target floor chunk0 reference size_dict obs vc cluster in
      build_mapping floor chunk0 reference size_dict obs vc rest
                    (<[cluster := target]> mapping)
  end.

(** Lines 149-168 of [run_reference_pruning]: the mapping of the chunk, with
    the floor left open. *)
Definition reference_mapping (floor : Z) (chunk : string * list obs_row)
    (reference : string) (size_dict : gmap string (gmap string Z))
    (obs : list obs_row) : result (gmap string string) :=
  let subset := chunk.2 in
  let! raws := column "raw" subset in
  let vc := value_counts raws in
  let overlap_clusters := map fst vc in
  build_mapping floor chunk.1 reference size_dict obs vc overlap_clusters ∅.

Definition run_reference_pruning (chunk : string * list obs_row)
    (reference : string) (size_dict : gmap string (gmap string Z))
    (obs : list obs_row) : result (list obs_row) :=
  let subset := chunk.2 in
  let! raws := column "raw" subset in
  let! mapping :=
    reference_mapping (abs_thresh (length obs)) chunk reference size_dict obs in
  let! subset := assign_column "pruned" (map (fun x => mapping !! x) raws) subset in
  singleton_cleanup subset.

(** [reference_pruning(obs,reference,size_dict)].  The pool has
    [min(len(chunk_list), cpu_count())] workers, and a pool of no worker is
    refused.  The results are read in the order of submission. *)
Definition reference_pruning (obs : list obs_row) (reference : string)
    (size_dict : gmap string (gmap string Z)) : result (list obs_row) :=
  let obs := assign_ori obs in
  let! chunk_list := groupby reference obs in
  if decide (length chunk_list = 0%nat) then
    Raise (ValueError "Number of processes must be at least 1")
  else
    let! pruned_chunks :=
      mapM (fun chunk => run_reference_pruning chunk reference size_dict obs)
           chunk_list in
    let modified_obs := concat pruned_chunks in
    Ok (sort_values_ori modified_obs).

Section Reassign.

(** Lines 44-102 of [reassign_pruning]: the marker-gene pool, scikit-learn's
    scaling and PCA, the centroids of the valid clusters and the
    distance-weighted nearest-neighbour classifier fitted to them.  Given the
    valid and the invalid observations it yields the predicted label of each
    invalid observation, or the exception the library raises. *)
Variable knn_predict : list obs_row -> list obs_row -> result (list string).

(** Lines 31-36: the loop over [vc.index] that extends [invalid]. *)
Fixpoint mark_invalid (size_dict : gmap string (gmap string Z)) (floor : Z)
    (vc : list (string * nat)) (vc_index : list string)
    (invalid : list string) : result (list string) :=
  match vc_index with
  | [] => Ok invalid
  | key_cluster :: rest =>
      let! size := size_of size_dict key_cluster in
      let! n := loc vc key_cluster in
      if (Z.of_nat n <? floor)%Z then
        mark_invalid size_dict floor vc rest (invalid ++ [key_cluster])
      else if negb (Qle_bool (0.05 * inject_Z size) (inject_Z (Z.of_nat n))) then
        mark_invalid size_dict floor vc rest (invalid ++ [key_cluster])
      else mark_invalid size_dict floor vc rest invalid
  end.

(** Lines 28-38: the invalid list of a run, from the table and the list
    supplied by the object. *)
Definition reassign_invalid (size_dict : gmap string (gmap string Z))
    (obs : list obs_row) (invalid : list string) : result (list string) :=
  let abs_thresh := abs_thresh (length obs) in
  let! raws := column "raw" obs in
  let vc := value_counts raws in
  let! invalid := mark_invalid size_dict abs_thresh vc (map fst vc) invalid in
  Ok (list_set invalid).

(** [obs['raw'].isin(invalid)] on one row. *)
Definition raw_isin (invalid : list string) (r : obs_row) : bool :=
  match cols r !! "raw" with
  | Some x => bool_decide (x ∈ invalid)
  | None => false
  end.

(** [adata_train.obs['pruned'] = adata_train.obs['raw']] on one row. *)
Definition copy_raw_to_pruned (r : obs_row) : obs_row :=
  match cols r !! "raw" with
  | Some x => set_cell "pruned" x r
  | None => del_cell "pruned" r
  end.

(** [reassign_pruning(sctri)], run with the global names [globals] of its
    module. *)
Definition reassign_pruning (globals : gmap string pyval) (sctri : ScTriangulate)
    : result (list obs_row * list string) :=
  let! adata := load_global globals "adata" in
  let! obs := match adata with
              | PyAnnData obs => Ok obs
              | _ => Raise (AttributeError "obs")
              end in
  let! invalid := of_option (invalid sctri) (AttributeError "invalid") in
  let size_dict := size_dict sctri in
  let! _ := if uns_marker_genes sctri then Ok tt
            else Raise (KeyError "marker_genes") in
  let reference := reference sctri in
  let obs := assign_ori obs in
  let! invalid := reassign_invalid size_dict obs invalid in
  let valid_obs := filter (fun r => raw_isin invalid r = false) obs in
  let invalid_obs := filter (fun r => raw_isin invalid r = true) obs in
  let! result := knn_predict valid_obs invalid_obs in
  let! test_obs := assign_column "pruned" (map Some result) invalid_obs in
  let train_obs := map copy_raw_to_pruned valid_obs in
  let modified_obs := sort_values_ori (train_obs ++ test_obs) in
  let! groups := groupby reference modified_obs in
  let! bucket := mapM (fun g => singleton_cleanup g.2) groups in
  if decide (length bucket = 0%nat) then
    Raise (ValueError "No objects to concatenate")
  else Ok (sort_values_ori (concat bucket), invalid).

End Reassign.

End Prune.

(** ** main_class.py *)

Module MainClass.

Definition set_obs (obs : list obs_row) (s : ScTriangulate) : ScTriangulate :=
  {| dir := dir s; adata_obs := obs; query := query s; reference := reference s;
     size_dict := size_dict s; invalid := invalid s; invaild := invaild s;
     total_metrics := total_metrics s; add_metrics := add_metrics s;
     uns_marker_genes := uns_marker_genes s |}.

Definition set_invalid (v : option (list string)) (s : ScTriangulate)
    : ScTriangulate :=
  {| dir := dir s; adata_obs := adata_obs s; query := query s;
     reference := reference s; size_dict := size_dict s; invalid := v;
     invaild := invaild s; total_metrics := total_metrics s;
     add_metrics := add_metrics s; uns_marker_genes := uns_marker_genes s |}.

Definition set_invaild (v : option (list string)) (s : ScTriangulate)
    : ScTriangulate :=
  {| dir := dir s; adata_obs := adata_obs s; query := query s;
     reference := reference s; size_dict := size_dict s; invalid := invalid s;
     invaild := v; total_metrics := total_metrics s;
     add_metrics := add_metrics s; uns_marker_genes := uns_marker_genes s |}.

Definition set_metrics (total added : list string) (s : ScTriangulate)
    : ScTriangulate :=
  {| dir := dir s; adata_obs := adata_obs s; query := query s;
     reference := reference s; size_dict := size_dict s; invalid := invalid s;
     invaild := invaild s; total_metrics := total; add_metrics := added;
     uns_marker_genes := uns_marker_genes s |}.

(** [add_to_invalid(self,invalid)]: [extend] the stored list, creating it
    when the attribute is missing, then store [list(set(...))]. *)
Definition add_to_invalid (self : ScTriangulate) (new : list string)
    : ScTriangulate :=
  let extended := match invalid self with
                  | Some l => l ++ new
                  | None => [] ++ new
                  end in
  let tmp := list_set extended in
  set_invalid (Some tmp) self.

(** [clear_invalid(self)]: [del self.invalid] and then the assignment
    [self.invaild = []]. *)
Definition clear_invalid (self : ScTriangulate) : result ScTriangulate :=
  match invalid self with
  | None => Raise (AttributeError "invalid")
  | Some _ => Ok (set_invaild (Some []) (set_invalid None self))
  end.

(** [self.add_metrics[metric] = func] for the keys of the argument in turn: a
    key already present keeps its place. *)
Definition dict_update_keys (keys new : list string) : list string :=
  foldl (fun acc k => if decide (k ∈ acc) then acc else acc ++ [k]) keys new.

(** [add_new_metrics(self,add_metrics)], by the names the dictionary holds. *)
Definition add_new_metrics (self : ScTriangulate) (names : list string)
    : ScTriangulate :=
  let added := dict_update_keys (add_metrics self) names in
  set_metrics (total_metrics self ++ added) added self.

(** The metric registry [__init__] sets up, by the names of its
    [add_metrics] argument: the four default metrics, then
    [add_new_metrics]. *)
Definition default_metrics : list string :=
  ["reassign"; "tfidf10"; "SCCAF"; "doublet"].

Definition init_metrics (self : ScTriangulate) (names : list string)
    : ScTriangulate :=
  add_new_metrics (set_metrics default_metrics [] self) names.

(** [np.array_split(np.arange(n), cores)] as the chunks of a list: the first
    [n mod cores] chunks hold one element more. *)
Fixpoint split_sizes {A : Type} (sizes : list nat) (l : list A) : list (list A) :=
  match sizes with
  | [] => []
  | k :: sizes' => take k l :: split_sizes sizes' (drop k l)
  end.

Definition array_split {A : Type} (l : list A) (cores : nat) : list (list A) :=
  let n := length l in
  split_sizes (replicate (n mod cores) (S (n / cores))
               ++ replicate (cores - n mod cores) (n / cores)) l.

(** The first lines of either branch of [compute_shapley]: the names
    [score_colname] and, for an annotation [key], the columns
    [practical_colname] read into the layer of [key]. *)
Definition score_colname (self : ScTriangulate) : result (list string) :=
  list_remove "doublet" (total_metrics self).

Definition practical_colname (score_colname : list string) (key : string)
    : list string :=
  map (fun name => name +:+ "@" +:+ key) score_colname.

(** The tensors [compute_shapley] hands to [run_shapley].  [data] has one
    layer per annotation of [query], one row per cell and one column per name
    of [score_colname]; the sequential branch passes the whole of it, the
    parallel branch its slices [data[:,sub_index,:]] along the cell axis, one
    per core ([cores] is [mp.cpu_count()], at least 1). *)
Definition run_shapley_inputs (cores : nat) (parallel : bool)
    (self : ScTriangulate) : result (list (list (list (list Q)))) :=
  if parallel then
    let! score_colname := score_colname self in
    let! data :=
      mapM (fun key => values (practical_colname score_colname key) (adata_obs self))
           (query self) in
    let sub_indices := array_split (seq 0 (length (adata_obs self))) cores in
    Ok (map (fun sub_index =>
               map (fun layer =>
                      omap (fun i => layer !! i) sub_index) data)
            sub_indices)
  else
    let! score_colname := score_colname self in
    let! data :=
      mapM (fun key => values (practical_colname score_colname key) (adata_obs self))
           (query self) in
    Ok [data].

(** [_prefixing(self,col)]. *)
Definition _prefixing (self : ScTriangulate) (col : string)
    : result ScTriangulate :=
  let! col1 := column col (adata_obs self) in
  let! col2 := column (reference self) (adata_obs self) in
  let prefixed :=
    zip_with (fun c2 c1 => reference self +:+ "@" +:+ c2 +:+ "|" +:+ c1)
             col2 col1 in
  let! obs := assign_column "prefixed" (map Some prefixed) (adata_obs self) in
  Ok (set_obs obs self).

Definition tab : string := String (ascii_of_nat 9) "".
Definition newline : string := String (ascii_of_nat 10) "".

(** The strings [pruning] writes to [celltype.txt], one per call of
    [f.write], in order. *)
Definition celltype_sheet (self : ScTriangulate) : result (list string) :=
  let obs := adata_obs self in
  let! groups := groupby (reference self) obs in
  let! lines :=
    mapM (fun g =>
            let! pruned := column "pruned" g.2 in
            Ok (map (fun reassign =>
                       (reference self +:+ "@" +:+ g.1) +:+ tab +:+ reassign
                       +:+ newline)
                    (unique pruned)))
         groups in
  Ok (("reference" +:+ tab +:+ "cell_cluster" +:+ tab +:+ "choice" +:+ newline)
      :: concat lines).

(** Calling the global function [fname] of a module with [npos] positional
    and the keyword arguments [kwargs]: the name is looked up, must be bound
    to a function, and the arguments are bound to its parameters. *)
Definition call (globals : gmap string pyval) (fname : string) (npos : nat)
    (kwargs : list string) : result unit :=
  let! f := load_global globals fname in
  match f with
  | PyFunction f => bind_arguments fname f npos kwargs
  | _ => Raise (TypeError "object is not callable")
  end.

Section Pruning.

Variable knn_predict : list obs_row -> list obs_row -> result (list string).

(** [rank_pruning] is defined in neither source file: its result, the pruned
    table and the [win_fraction] column of the goodness table by cluster, is
    left open. *)
Variable rank_pruning : ScTriangulate -> result (list obs_row * gmap string Q).

(** [pruning(self,method,...,parallel)]: the new state of the object and the
    contents of [celltype.txt].  [main_class.py] takes the functions of
    [prune.py] by [from .prune import *], and they run with the global names
    of their own module. *)
Definition pruning (self : ScTriangulate) (method : string) (parallel : bool)
    : result (ScTriangulate * list string) :=
  let! self :=
    if parallel then
      if decide (method = "reference") then
        let! _ := call prune_globals "reference_pruning" 3 [] in
        let! obs := Prune.reference_pruning (adata_obs self) (reference self)
                                            (size_dict self) in
        Ok (set_obs obs self)
      else if decide (method = "reassign") then
        let! _ := call prune_globals "reassign_pruning" 1
                       ["abs_thresh"; "remove1"; "reference"] in
        let! r := Prune.reassign_pruning knn_predict prune_globals self in
        Ok (set_invalid (Some r.2) (set_obs r.1 self))
      else if decide (method = "rank") then
        let! r := rank_pruning self in
        let obs := r.1 in
        let df := r.2 in
        let! _ := column "pruned" obs in
        Ok (set_obs (map (fun row => set_num "confidence"
                                       (cols row !! "pruned" ≫= fun p => df !! p)
                                       row) obs) self)
      else Ok self
    else Ok self in
  let! self := _prefixing self "pruned" in
  let! sheet := celltype_sheet self in
  Ok (self, sheet).

End Pruning.

(** The fields of one line of the sheet: the line without its final newline,
    cut at the tabs. *)
Fixpoint chomp (s : string) : string :=
  match s with
  | EmptyString => EmptyString
  | String c s' =>
      match s' with
      | EmptyString => if Ascii.eqb c (ascii_of_nat 10) then EmptyString else s
      | _ => String c (chomp s')
      end
  end.

Definition fields (line : string) : list string :=
  split (ascii_of_nat 9) (chomp line).

(** [_check_adata(self)], steps 1 and 2.  [all_keys] is [self.query], with
    [self.reference] appended to a copy when it is not among them. *)
Definition invalid_chars : list ascii := ["/"; "@"; "$"; " "]%char.

Definition all_keys (self : ScTriangulate) : list string :=
  if decide (reference self ∈ query self) then query self
  else query self ++ [reference self].

(** [obs[key] = obs[key].astype('str')] and the conversion to a categorical
    column, on a column of strings. *)
Definition astype_str (obs : list obs_row) (key : string)
    : result (list obs_row) :=
  let! vs := column key obs in
  assign_column key (map Some vs) obs.

(** [obs[key] = obs[key].str.replace(ichar,'_')]: a one-character pattern is
    replaced literally. *)
Definition replace_in_column (key : string) (obs : list obs_row) (ichar : ascii)
    : result (list obs_row) :=
  let! vs := column key obs in
  assign_column key (map (fun v => Some (str_replace ichar "_" v)) vs) obs.

(** Lines 119-139: the table once the cluster names are rewritten, before
    the columns are renamed. *)
Definition _check_adata_obs (self : ScTriangulate) : result (list obs_row) :=
  let! obs := foldM astype_str (adata_obs self) (all_keys self) in
  foldM (fun obs key => foldM (replace_in_column key) obs invalid_chars)
        obs (all_keys self).

(** [df.rename(columns={old:new},inplace=True)] on the column index: every
    label [old] becomes [new], and a missing [old] is ignored. *)
Definition rename_column (old new : string) (columns : list string)
    : list string :=
  map (fun c => if decide (c = old) then new else c) columns.

(** Lines 141-143: the column index after the loop that renames the keys. *)
Definition rename_key (columns : list string) (key : string) : list string :=
  foldl (fun columns ichar => rename_column key (str_replace ichar "_" key) columns)
        columns invalid_chars.

Definition _check_adata_columns (self : ScTriangulate) (columns : list string)
    : list string :=
  foldl rename_key columns (all_keys self).

(** [_add_to_uns(self,name,key,collect)] on [self.uns], a dictionary of
    dictionaries: the new [self.uns] and the exception that leaves the
    method, if any.  The handler also catches the [KeyError] of
    [collect[name]], which is evaluated before [self.uns[name]]. *)
Section Uns.

Variable V : Type.

Definition _add_to_uns (uns : gmap string (gmap string V)) (name key : string)
    (collect : gmap string V) : gmap string (gmap string V) * option exn :=
  let try :=
    let! v := of_option (collect !! name) (KeyError name) in
    let! d := of_option (uns !! name) (KeyError name) in
    Ok (<[name := <[key := v]> d]> uns) in
  match try with
  | Ok uns' => (uns', None)
  | Raise (KeyError _) =>
      let uns := <[name := ∅]> uns in
      match of_option (collect !! name) (KeyError name) with
      | Ok v => (<[name := <[key := v]> ∅]> uns, None)
      | Raise e => (uns, Some e)
      end
  | Raise e => (uns, Some e)
  end.

End Uns.

(** One line of [celltype.txt] as [pd.read_csv] hands it to [get_cluster]:
    the column ['choice'] is the one the user fills in, and is empty (NaN)
    where it was left blank. *)
Record sheet_row : Type := mk_sheet_row {
  sheet_reference : string;
  sheet_cell_cluster : string;
  sheet_choice : option string
}.

(** The dictionary [mapping] that the loops of [get_cluster] fill.
    [groupby] yields the groups in increasing order of their key, each with
    its lines in the order of the sheet, and drops the lines whose key is
    empty. *)
Definition get_cluster_mapping (sheet : list sheet_row) : gmap string string :=
  foldl (fun mapping ref =>
           let sub_df := filter (fun row => sheet_reference row = ref) sheet in
           foldl (fun mapping cho =>
                    let subsub_df :=
                      filter (fun row => sheet_choice row = Some cho) sub_df in
                    let tmp_list := map sheet_cell_cluster subsub_df in
                    let composite_name :=
                      ref +:+ "|" +:+ String.concat "+" tmp_list in
                    foldl (fun mapping item =>
                             let original_name := ref +:+ "|" +:+ item in
                             <[original_name := composite_name]> mapping)
                          mapping tmp_list)
                 mapping (sort_keys (unique (omap sheet_choice sub_df))))
        ∅ (sort_keys (unique (map sheet_reference sheet))).

(** [get_cluster(self)], from the sheet it reads: a cell whose ['prefixed']
    is no key of [mapping] gets an empty ['user_choice']. *)
Definition get_cluster (self : ScTriangulate) (sheet : list sheet_row)
    : result ScTriangulate :=
  let mapping := get_cluster_mapping sheet in
  let! prefixed := column "prefixed" (adata_obs self) in
  let! obs := assign_column "user_choice" (map (fun p => mapping !! p) prefixed)
                            (adata_obs self) in
  Ok (set_obs obs self).

(** [run_assign(obs)]: the column ['raw'] holds, for each cell, the
    annotation named in ['final_annotation'] and the cell's cluster in that
    annotation. *)
Definition run_assign (obs : list obs_row) : result (list obs_row) :=
  let! assign :=
    mapM (fun r =>
            let! name := cell "final_annotation" r in
            let! cluster := cell name r in
            Ok (name +:+ "@" +:+ cluster)) obs in
  assign_column "raw" (map Some assign) obs.

End MainClass.

(** * Properties *)

(** ** Vocabulary of the statements *)

(** [r'] is the row [r] up to its cell ['pruned']. *)
Definition same_row (r r' : obs_row) : Prop :=
  barcode r' = barcode r /\ ori r' = ori r /\ nums r' = nums r
  /\ forall k, k ≠ "pruned" -> cols r' !! k = cols r !! k.

(** [r'] is the row [r] after the singleton post-pass of a group whose
    pruned labels are [pruned] and whose most abundant label is [most]. *)
Definition cleaned (pruned : list string) (most : string) (r r' : obs_row) : Prop :=
  exists p, cols r !! "pruned" = Some p
    /\ (count_of p pruned = 1%nat -> r' = set_cell "pruned" most r)
    /\ (count_of p pruned <> 1%nat -> r' = r).

(** The number of the raw clusters [clusters] a mapping sends to the label
    [parent]. *)
Definition folded_back (mapping : gmap string string) (parent : string)
    (clusters : list string) : nat :=
  length (filter (fun c => mapping !! c = Some parent) clusters).

(** A raw cluster of [n] observations and SizeIndex size [size] is too small
    for the floor [floor]: below the floor, or below 5% of its size. *)
Definition too_small (floor : Z) (size : Z) (n : nat) : Prop :=
  (Z.of_nat n < floor)%Z \/ (inject_Z (Z.of_nat n) < 0.05 * inject_Z size)%Q.

(** A label is plain when it holds neither a tab nor a newline. *)
Fixpoint plain (s : string) : bool :=
  match s with
  | EmptyString => true
  | String c s' =>
      negb (Ascii.eqb c (ascii_of_nat 9)) && negb (Ascii.eqb c (ascii_of_nat 10))
      && plain s'
  end.

Definition plain_cell (v : option string) : bool :=
  match v with
  | Some s => plain s
  | None => true
  end.

(** The group keys and the pruned labels of a table are plain. *)
Definition plain_table (reference : string) (obs : list obs_row) : bool :=
  forallb (fun r => plain_cell (cols r !! reference)
                    && plain_cell (cols r !! "pruned")) obs.

(** The labels in column [col] of the rows of [obs] whose cell [reference] is
    [g], in table order. *)
Definition group_labels (col reference g : string) (obs : list obs_row)
    : list string :=
  omap (fun r => cols r !! col)
       (filter (fun r => cols r !! reference = Some g) obs).

(** [vc2] is a listing that [value_counts] may return for the labels [l]:
    one entry for each distinct label with the number of its occurrences,
    by decreasing count, the entries of equal count in any order. *)
Definition is_value_counts (vc2 : list (string * nat)) (l : list string) : Prop :=
  vc2 ≡ₚ map (fun k => (k, count_of k l)) (unique l)
  /\ Sorted (fun a b : string * nat => (b.2 <= a.2)%nat) vc2.

(** A raw label [key@cluster...] that [run_reference_pruning] can look up:
    it has two parts at least, [size_dict] knows the size of [cluster] in
    the annotation [key], and some cell of the table carries [cluster] in
    its column [key]. *)
Definition known_cluster (size_dict : gmap string (gmap string Z))
    (obs : list obs_row) (label : string) : Prop :=
  exists key cluster rest sizes size vs,
    Py.split "@" label = key :: cluster :: rest
    /\ size_dict !! key = Some sizes /\ sizes !! cluster = Some size
    /\ column key obs = Ok vs /\ cluster ∈ vs.

(** The exceptions a failed lookup raises. *)
Definition lookup_exn (e : exn) : Prop :=
  (exists k, e = KeyError k) \/ e = IndexError \/ e = ZeroDivisionError.

(** The character [c] occurs in [s]. *)
Fixpoint has_char (c : ascii) (s : string) : bool :=
  match s with
  | EmptyString => false
  | String a s' => Ascii.eqb a c || has_char c s'
  end.

(** A name as [_check_adata] leaves the cluster names: each of the four
    characters replaced in turn. *)
Definition sanitize (v : string) : string :=
  foldl (fun s ichar => Py.str_replace ichar "_" s) v MainClass.invalid_chars.

Definition clean (v : string) : Prop :=
  forall c, c ∈ MainClass.invalid_chars -> has_char c v = false.

(** The cell of column [key] rewritten by [f], the row otherwise kept. *)
Definition rewritten (key : string) (f : string -> string) (r r' : obs_row) : Prop :=
  exists v, cols r !! key = Some v /\ r' = set_cell key (f v) r.

(** A row after the cluster names of the columns [keys] are rewritten. *)
Definition cluster_names_rewritten (keys : list string) (r r' : obs_row) : Prop :=
  barcode r' = barcode r /\ ori r' = ori r /\ nums r' = nums r
  /\ forall k,
       (k ∈ keys ->
        exists v, cols r !! k = Some v /\ cols r' !! k = Some (sanitize v))
       /\ (k ∉ keys -> cols r' !! k = cols r !! k).

(** The key under which [get_cluster] files a line of the sheet, and the
    name it gives to the clusters of the reference cluster [ref] that the
    user marked with the choice [cho]. *)
Definition original_name (row : MainClass.sheet_row) : string :=
  MainClass.sheet_reference row +:+ "|" +:+ MainClass.sheet_cell_cluster row.

Definition composite_name (sheet : list MainClass.sheet_row) (ref cho : string)
    : string :=
  ref +:+ "|"
  +:+ String.concat "+"
        (map MainClass.sheet_cell_cluster
             (filter (fun row => MainClass.sheet_reference row = ref
                                 /\ MainClass.sheet_choice row = Some cho) sheet)).

(** The assignments [mapping[original_name] = composite_name] of
    [get_cluster], in the order its loops make them. *)
Definition mapping_entries (sheet : list MainClass.sheet_row)
    : list (string * string) :=
  concat
    (map (fun ref =>
            let sub_df :=
              filter (fun row => MainClass.sheet_reference row = ref) sheet in
            concat
              (map (fun cho =>
                      let tmp_list :=
                        map MainClass.sheet_cell_cluster
                            (filter (fun row => MainClass.sheet_choice row = Some cho)
                                    sub_df) in
                      map (fun item =>
                             (ref +:+ "|" +:+ item,
                              ref +:+ "|" +:+ String.concat "+" tmp_list))
                          tmp_list)
                   (sort_keys (unique (omap MainClass.sheet_choice sub_df)))))
         (sort_keys (unique (map MainClass.sheet_reference sheet)))).

(** ** Example data *)

Module Examples.

(** The value a call returned, [d] if it raised. *)
Definition value_or {A : Type} (d : A) (r : result A) : A :=
  match r with
  | Ok a => a
  | Raise _ => d
  end.

(** A row with the annotations [A] (the reference) and [L], and its raw
    label. *)
Definition row (b a l raw : string) : obs_row :=
  mk_row b (list_to_map [("A", a); ("L", l); ("raw", raw)]) ∅ 0.

(** Six cells, two reference groups. *)
Definition obs6 : list obs_row :=
  [ row "c1" "x" "1" "L@1"; row "c2" "y" "1" "L@1"; row "c3" "x" "2" "L@2";
    row "c4" "x" "2" "A@x"; row "c5" "y" "1" "A@y"; row "c6" "x" "2" "L@2" ].

Definition sizes6 : gmap string (gmap string Z) :=
  list_to_map [ ("A", list_to_map [("x", 4%Z); ("y", 2%Z)]);
                ("L", list_to_map [("1", 3%Z); ("2", 3%Z)]) ].

(** Thirty-one cells: the group [x] holds 21 cells of raw cluster [A@x] and
    one of [L@1], the group [y] the other nine cells of [L@1]. *)
Definition obs31 : list obs_row :=
  map (fun i => row ("x" +:+ pretty i) "x" "2" "A@x") (seq 1 21)
  ++ [ row "x22" "x" "1" "L@1" ]
  ++ map (fun i => row ("y" +:+ pretty i) "y" "1" "L@1") (seq 1 9).

Definition sizes31 : gmap string (gmap string Z) :=
  list_to_map [ ("A", list_to_map [("x", 22%Z); ("y", 9%Z)]);
                ("L", list_to_map [("1", 10%Z); ("2", 21%Z)]) ].

Definition chunk_x : string * list obs_row :=
  ("x", filter (fun r => cols r !! "A" = Some "x") (assign_ori obs31)).

Definition sctri (obs : list obs_row) (sizes : gmap string (gmap string Z))
    : ScTriangulate :=
  mk_sctri "out" obs ["A"; "L"] "A" sizes (Some []) None
           ["reassign"; "tfidf10"; "SCCAF"; "doublet"; "tfidf5"] ["tfidf5"] true.

(** A stand-in for the classifier: every invalid cell gets the raw label of
    the first valid cell. *)
Definition knn_first (valid test : list obs_row) : result (list string) :=
  match valid with
  | [] => Raise (ValueError "Expected n_neighbors > 0")
  | r :: _ => let! x := cell "raw" r in Ok (map (fun _ => x) test)
  end.

Definition no_rank_pruning (self : ScTriangulate)
    : result (list obs_row * gmap string Q) :=
  Raise (NameError "rank_pruning").

(** Five cells of one group with their pruned labels: [a] and [b] tie, [c]
    is alone. *)
Definition group5 : list obs_row :=
  map (fun p => set_cell "pruned" p.2 (row p.1 "x" "1" "L@1"))
      [ ("g1", "a"); ("g2", "b"); ("g3", "b"); ("g4", "c"); ("g5", "a") ].

(** A listing of the value counts of these labels that holds [b] before
    [a]. *)
Definition listing5 : list (string * nat) :=
  [ ("b", 2%nat); ("a", 2%nat); ("c", 1%nat) ].

(** An object whose caller registered a metric of its own under the name
    ['doublet'], with one cell and its metric columns for the annotation
    [A]. *)
Definition doublet_twice : ScTriangulate :=
  MainClass.init_metrics
    (mk_sctri "out"
       [ mk_row "c1" (list_to_map [("A", "x")])
                (list_to_map [ ("reassign@A", 1%Q); ("tfidf10@A", 2%Q);
                               ("SCCAF@A", 3%Q); ("doublet@A", 4%Q) ]) 0 ]
       ["A"] "A" ∅ (Some []) None [] [] false)
    ["doublet"].

(** An object with the default metric registry and two cells carrying the
    metric columns of the annotation [A]. *)
Definition scored : ScTriangulate :=
  mk_sctri "out"
    [ mk_row "c1" (list_to_map [("A", "x")])
             (list_to_map [ ("reassign@A", 1%Q); ("tfidf10@A", 2%Q);
                            ("SCCAF@A", 3%Q); ("doublet@A", 4%Q);
                            ("tfidf5@A", 5%Q) ]) 0;
      mk_row "c2" (list_to_map [("A", "y")])
             (list_to_map [ ("reassign@A", 6%Q); ("tfidf10@A", 7%Q);
                            ("SCCAF@A", 8%Q); ("doublet@A", 9%Q);
                            ("tfidf5@A", 10%Q) ]) 0 ]
    ["A"] "A" ∅ (Some []) None
    ["reassign"; "tfidf10"; "SCCAF"; "doublet"; "tfidf5"] ["tfidf5"] false.

(** The thirty-one cells with the cluster [L@1] supplied as invalid. *)
Definition sctri_invalid : ScTriangulate :=
  MainClass.set_invalid (Some ["L@1"]) (sctri obs31 sizes31).

(** Two cells with the annotation each of them adopts. *)
Definition assigned : list obs_row :=
  [ mk_row "c1" (list_to_map [("A", "x"); ("L", "1"); ("final_annotation", "A")]) ∅ 0;
    mk_row "c2" (list_to_map [("A", "y"); ("L", "1"); ("final_annotation", "L")]) ∅ 1 ].

(** An object as [__init__] receives it, with cluster names that hold a
    blank, a slash and an ['@'], and a column that is no annotation. *)
Definition unchecked : ScTriangulate :=
  mk_sctri "out"
    [ mk_row "c1" (list_to_map [("A", "T cell/CD4"); ("L", "1@a"); ("note", "a b")])
             ∅ 0 ]
    ["A"; "L"] "A" ∅ (Some []) None [] [] false.

(** An object whose first annotation has a blank in its name. *)
Definition spaced : ScTriangulate :=
  mk_sctri "out" [] ["cell type"; "L"] "cell type" ∅ (Some []) None [] [] false.

(** A sheet as a user returns it: the two clusters of [A@x] merged under
    the choice [1], one cluster of [A@y] chosen and one left blank; and two
    cells with their ['prefixed'] names. *)
Definition chosen_sheet : list MainClass.sheet_row :=
  [ MainClass.mk_sheet_row "A@x" "L@2" (Some "1");
    MainClass.mk_sheet_row "A@x" "A@x" (Some "1");
    MainClass.mk_sheet_row "A@y" "L@1" (Some "2");
    MainClass.mk_sheet_row "A@y" "A@y" None ].

Definition prefixed_cells : ScTriangulate :=
  mk_sctri "out"
    [ mk_row "c1" (list_to_map [("A", "x"); ("prefixed", "A@x|L@2")]) ∅ 0;
      mk_row "c2" (list_to_map [("A", "y"); ("prefixed", "A@y|A@y")]) ∅ 1 ]
    ["A"; "L"] "A" ∅ (Some []) None [] [] false.

(** Twenty cells, ten in each of two reference clusters, every raw cluster
    as large as its SizeIndex size and none alone in its group. *)
Definition obs20 : list obs_row :=
  map (fun i => row ("x" +:+ pretty i) "x" "1" "A@x") (seq 1 10)
  ++ map (fun i => row ("y" +:+ pretty i) "y" "1" "A@y") (seq 1 10).

Definition sizes20 : gmap string (gmap string Z) :=
  list_to_map [ ("A", list_to_map [("x", 10%Z); ("y", 10%Z)]);
                ("L", list_to_map [("1", 20%Z)]) ].

(** A classifier that, like scikit-learn's [predict], refuses an empty test
    set. *)
Definition knn_strict (valid test : list obs_row) : result (list string) :=
  match test with
  | [] => Raise (ValueError "Found array with 0 sample(s) while a minimum of 1 is required")
  | _ => knn_first valid test
  end.

End Examples.


(** ** The result monad *)

Lemma bind_Ok {A B : Type} (m : result A) (k : A -> result B) (b : B) :
  Py.bind m k = Ok b -> exists a, m = Ok a /\ k a = Ok b.
Proof. destruct m as [a|e]; simpl; [eauto | discriminate]. Qed.

Ltac inv_bind H :=
  let a := fresh "a" in
  let Ha := fresh "Ha" in
  apply bind_Ok in H; destruct H as (a & Ha & H).

Tactic Notation "bind_inv" hyp(H) "as" ident(a) ident(Ha) :=
  apply bind_Ok in H; destruct H as (a & Ha & H).

Lemma of_option_Ok {A : Type} (o : option A) (e : exn) (a : A) :
  of_option o e = Ok a <-> o = Some a.
Proof. destruct o; simpl; split; congruence. Qed.

Lemma mapM_Ok {A B : Type} (f : A -> result B) (l : list A) (ys : list B) :
  mapM f l = Ok ys <-> Forall2 (fun x y => f x = Ok y) l ys.
Proof.
  revert ys. induction l as [|x l IH]; intros ys; simpl.
  - split; [intros [= <-]; constructor | intros H; inversion H; reflexivity].
  - split.
    + intros H. inv_bind H. inv_bind H. injection H as <-.
      constructor; [assumption | by apply IH].
    + intros H. inversion H as [|? y ? ys' Hy Hys]; subst.
      rewrite Hy. simpl. apply IH in Hys. rewrite Hys. reflexivity.
Qed.

Lemma mapM_total {A B : Type} (f : A -> result B) (l : list A) :
  Forall (fun x => exists y, f x = Ok y) l -> exists ys, mapM f l = Ok ys.
Proof.
  induction 1 as [|x l [y Hy] _ [ys Hys]]; simpl; [eauto |].
  rewrite Hy, Hys. simpl. eauto.
Qed.

(** ** Columns of the table *)

Lemma column_Ok (k : string) (df : list obs_row) (vs : list string) :
  column k df = Ok vs <-> Forall2 (fun r v => cols r !! k = Some v) df vs.
Proof.
  unfold column. rewrite mapM_Ok.
  split; intros H; (eapply Forall2_impl; [exact H |]);
    intros r v; unfold cell; apply of_option_Ok.
Qed.

Lemma column_map (k : string) (df : list obs_row) (vs : list string) :
  column k df = Ok vs -> map (fun r => cols r !! k) df = map Some vs.
Proof.
  rewrite column_Ok. induction 1 as [|r v df vs Hr _ IH]; simpl; congruence.
Qed.

Lemma column_length (k : string) (df : list obs_row) (vs : list string) :
  column k df = Ok vs -> length vs = length df.
Proof. rewrite column_Ok. intros H. symmetry. by eapply Forall2_length. Qed.


(** ** [unique] and [value_counts] *)

Lemma elem_of_unique (x : string) (l : list string) : x ∈ unique l <-> x ∈ l.
Proof.
  induction l as [|y l IH]; simpl; [reflexivity |].
  rewrite !elem_of_cons, list_elem_of_filter, IH.
  destruct (decide (x = y)) as [-> | Hne]; [split; auto |].
  split; [intros [? | [_ ?]]; auto | intros [? | ?]; [congruence | auto]].
Qed.

Lemma NoDup_unique (l : list string) : NoDup (unique l).
Proof.
  induction l as [|y l IH]; simpl; constructor.
  - rewrite list_elem_of_filter. intros [Hne _]. by apply Hne.
  - by apply NoDup_filter.
Qed.

Lemma count_of_cons (x y : string) (l : list string) :
  count_of x (y :: l) = if decide (y = x) then S (count_of x l) else count_of x l.
Proof.
  unfold count_of. rewrite filter_cons. destruct (decide (y = x)); reflexivity.
Qed.

Lemma count_of_pos (x : string) (l : list string) :
  x ∈ l <-> (0 < count_of x l)%nat.
Proof.
  induction l as [|y l IH].
  { rewrite elem_of_nil. unfold count_of. rewrite filter_nil. simpl. lia. }
  rewrite count_of_cons, elem_of_cons, IH.
  destruct (decide (y = x)); [split; [lia | auto] |].
  split; [intros [?|?]; [congruence | assumption] | auto].
Qed.


Lemma insert_desc_perm (x : string * nat) (l : list (string * nat)) :
  insert_desc x l ≡ₚ x :: l.
Proof.
  induction l as [|y l IH]; simpl; [reflexivity |].
  destruct (y.2 <=? x.2)%nat; [reflexivity |].
  rewrite IH. apply Permutation_swap.
Qed.

Lemma sort_desc_perm (l : list (string * nat)) : sort_desc l ≡ₚ l.
Proof.
  induction l as [|x l IH]; simpl; [reflexivity |].
  rewrite insert_desc_perm. by constructor.
Qed.

(** The sort is stable: entries of equal count keep their order. *)
Lemma filter_insert_desc (c : nat) (x : string * nat) (l : list (string * nat)) :
  filter (fun p => p.2 = c) (insert_desc x l) = filter (fun p => p.2 = c) (x :: l).
Proof.
  induction l as [|y l IH]; simpl; [reflexivity |].
  destruct (y.2 <=? x.2)%nat eqn:E; [reflexivity |].
  apply Nat.leb_gt in E.
  rewrite (filter_cons _ y), IH, !filter_cons.
  destruct (decide (y.2 = c)), (decide (x.2 = c)); try reflexivity; lia.
Qed.

Lemma filter_sort_desc (c : nat) (l : list (string * nat)) :
  filter (fun p => p.2 = c) (sort_desc l) = filter (fun p => p.2 = c) l.
Proof.
  induction l as [|x l IH]; simpl; [reflexivity |].
  rewrite filter_insert_desc, !filter_cons, IH. reflexivity.
Qed.

Lemma vc_max_insert_desc (x : string * nat) (l : list (string * nat)) :
  vc_max (insert_desc x l) = Nat.max x.2 (vc_max l).
Proof.
  induction l as [|y l IH]; simpl; [reflexivity |].
  destruct (y.2 <=? x.2)%nat; simpl; [reflexivity |].
  rewrite IH. lia.
Qed.

Lemma vc_max_sort_desc (l : list (string * nat)) : vc_max (sort_desc l) = vc_max l.
Proof.
  induction l as [|x l IH]; simpl; [reflexivity |].
  rewrite vc_max_insert_desc, IH. reflexivity.
Qed.

Lemma vc_sum_insert_desc (x : string * nat) (l : list (string * nat)) :
  vc_sum (insert_desc x l) = (x.2 + vc_sum l)%nat.
Proof.
  induction l as [|y l IH]; simpl; [reflexivity |].
  destruct (y.2 <=? x.2)%nat; simpl; [reflexivity |].
  rewrite IH. lia.
Qed.

Lemma vc_sum_sort_desc (l : list (string * nat)) : vc_sum (sort_desc l) = vc_sum l.
Proof.
  induction l as [|x l IH]; simpl; [reflexivity |].
  rewrite vc_sum_insert_desc, IH. reflexivity.
Qed.

Lemma vc_max_ge (l : list (string * nat)) (p : string * nat) :
  p ∈ l -> (p.2 <= vc_max l)%nat.
Proof.
  induction l as [|y l IH]; [by rewrite elem_of_nil |].
  rewrite elem_of_cons. simpl. intros [-> | H]; [lia |].
  specialize (IH H). lia.
Qed.

Lemma vc_max_attained (l : list (string * nat)) :
  l <> [] -> exists p, p ∈ l /\ p.2 = vc_max l.
Proof.
  induction l as [|y l IH]; [congruence |]. intros _. simpl.
  destruct l as [|z l].
  - exists y. split; [left | simpl; lia].
  - destruct IH as (p & Hp & Hmax); [congruence |].
    destruct (Nat.max_spec y.2 (vc_max (z :: l))) as [[_ E] | [_ E]]; rewrite E.
    + exists p. split; [by right | assumption].
    + exists y. split; [left | reflexivity].
Qed.

(** The index of [value_counts l] holds the values of [l], once each. *)
Lemma value_counts_index (l : list string) :
  map fst (value_counts l) ≡ₚ unique l.
Proof.
  unfold value_counts. rewrite sort_desc_perm, map_map. simpl.
  by rewrite map_id.
Qed.

Lemma elem_of_value_counts_index (x : string) (l : list string) :
  x ∈ map fst (value_counts l) <-> x ∈ l.
Proof. by rewrite value_counts_index, elem_of_unique. Qed.

Lemma NoDup_value_counts_index (l : list string) :
  NoDup (map fst (value_counts l)).
Proof. rewrite value_counts_index. apply NoDup_unique. Qed.

Lemma elem_of_value_counts (k : string) (n : nat) (l : list string) :
  (k, n) ∈ value_counts l <-> k ∈ l /\ n = count_of k l.
Proof.
  unfold value_counts. rewrite sort_desc_perm, list_elem_of_fmap.
  split.
  - intros (k' & [= -> ->] & Hk). by rewrite <- elem_of_unique.
  - intros [Hk ->]. exists k. by rewrite elem_of_unique.
Qed.

Lemma assoc_Some (k : string) (n : nat) (vc : list (string * nat)) :
  NoDup (map fst vc) -> assoc k vc = Some n <-> (k, n) ∈ vc.
Proof.
  induction vc as [|[k' n'] vc IH]; simpl; intros Hnd.
  - rewrite elem_of_nil. split; [discriminate | tauto].
  - apply NoDup_cons in Hnd as [Hk' Hnd]. rewrite elem_of_cons.
    destruct (decide (k' = k)) as [-> | Hne].
    + split; [intros [= ->]; by left |].
      intros [[= ->] | Hin]; [reflexivity |].
      exfalso. apply Hk'. apply list_elem_of_fmap. by exists (k, n).
    + rewrite IH by assumption. split; [by right |].
      intros [[= -> ->] | Hin]; [congruence | assumption].
Qed.

(** [vc.loc[k]] is the number of occurrences of [k]. *)
Lemma loc_value_counts (k : string) (n : nat) (l : list string) :
  loc (value_counts l) k = Ok n <-> k ∈ l /\ n = count_of k l.
Proof.
  unfold loc. rewrite of_option_Ok, assoc_Some by apply NoDup_value_counts_index.
  apply elem_of_value_counts.
Qed.

Lemma vc_sum_cons (p : string * nat) (l : list (string * nat)) :
  vc_sum (p :: l) = (p.2 + vc_sum l)%nat.
Proof. reflexivity. Qed.

Lemma vc_sum_split (f : string -> nat) (x : string) (ks : list string) :
  NoDup ks ->
  vc_sum (map (fun k => (k, f k)) ks)
  = ((if decide (x ∈ ks) then f x else 0)
     + vc_sum (map (fun k => (k, f k)) (filter (fun k => k ≠ x) ks)))%nat.
Proof.
  induction ks as [|a ks IH]; intros Hnd.
  { rewrite filter_nil. simpl. destruct (decide (x ∈ [])) as [H|]; [|reflexivity].
    by apply elem_of_nil in H. }
  apply NoDup_cons in Hnd as [Ha Hnd]. specialize (IH Hnd).
  rewrite filter_cons, map_cons, vc_sum_cons, IH. simpl.
  destruct (decide (a = x)) as [-> | Hne].
  - destruct (decide (x ∈ ks)); [contradiction |].
    destruct (decide (x ∈ x :: ks)) as [_ | Hn]; [| exfalso; apply Hn; left].
    destruct (decide (x ≠ x)); [congruence | lia].
  - destruct (decide (a ≠ x)); [| contradiction].
    rewrite map_cons, vc_sum_cons. simpl.
    destruct (decide (x ∈ ks)) as [Hin | Hin].
    + destruct (decide (x ∈ a :: ks)) as [_ | Hn]; [lia | exfalso; apply Hn; by right].
    + destruct (decide (x ∈ a :: ks)) as [Hy | _]; [| lia].
      apply elem_of_cons in Hy as [-> | Hy]; [congruence | contradiction].
Qed.

Lemma vc_sum_ext (f g : string -> nat) (ks : list string) :
  (forall k, k ∈ ks -> f k = g k) ->
  vc_sum (map (fun k => (k, f k)) ks) = vc_sum (map (fun k => (k, g k)) ks).
Proof.
  induction ks as [|a ks IH]; intros H; [reflexivity |].
  rewrite !map_cons, !vc_sum_cons. simpl. rewrite (H a) by left.
  f_equal. apply IH. intros k Hk. apply H. by right.
Qed.

(** [vc.sum()] is the number of rows counted. *)
Lemma vc_sum_value_counts (l : list string) : vc_sum (value_counts l) = length l.
Proof.
  unfold value_counts. rewrite vc_sum_sort_desc.
  induction l as [|x l IH]; [reflexivity |].
  cbn [unique]. rewrite map_cons, vc_sum_cons. simpl.
  rewrite (vc_sum_split (fun k => count_of k l) x) in IH by apply NoDup_unique.
  rewrite (vc_sum_ext (fun k => count_of k (x :: l)) (fun k => count_of k l)).
  2:{ intros k Hk. apply list_elem_of_filter in Hk as [Hne _].
      rewrite count_of_cons. destruct (decide (x = k)); congruence. }
  rewrite count_of_cons. destruct (decide (x = x)); [| congruence].
  destruct (decide (x ∈ unique l)) as [Hin | Hin]; [lia |].
  rewrite elem_of_unique, count_of_pos in Hin. lia.
Qed.

(** ** Sorting on ['ori'] *)

Lemma insert_ori_perm (x : obs_row) (l : list obs_row) : insert_ori x l ≡ₚ x :: l.
Proof.
  induction l as [|y l IH]; simpl; [reflexivity |].
  destruct (ori x <=? ori y)%nat; [reflexivity |].
  rewrite IH. apply Permutation_swap.
Qed.

Lemma sort_values_ori_perm (l : list obs_row) : sort_values_ori l ≡ₚ l.
Proof.
  induction l as [|x l IH]; simpl; [reflexivity |].
  rewrite insert_ori_perm. by constructor.
Qed.

Lemma insert_ori_sorted (x : obs_row) (l : list obs_row) :
  Sorted le (map ori l) -> Sorted le (map ori (insert_ori x l)).
Proof.
  induction l as [|y l IH]; simpl; intros Hs.
  - repeat constructor.
  - destruct (ori x <=? ori y)%nat eqn:E.
    + apply Nat.leb_le in E. simpl. constructor; [assumption | by constructor].
    + apply Nat.leb_gt in E. simpl. inversion Hs as [|? ? Hs' Hhd]; subst.
      constructor; [by apply IH |].
      destruct l as [|z l]; simpl.
      * constructor. lia.
      * destruct (ori x <=? ori z)%nat; simpl; constructor; [lia |].
        by inversion Hhd.
Qed.

Lemma sort_values_ori_sorted (l : list obs_row) :
  Sorted le (map ori (sort_values_ori l)).
Proof.
  induction l as [|x l IH]; simpl; [constructor | by apply insert_ori_sorted].
Qed.

(** Rows whose ['ori'] values are all different have one sorted arrangement. *)
Lemma perm_same_keys_eq (l1 l2 : list obs_row) :
  l1 ≡ₚ l2 -> NoDup (map ori l2) -> map ori l1 = map ori l2 -> l1 = l2.
Proof.
  revert l1. induction l2 as [|b l2 IH]; intros l1 Hp Hnd Hk.
  - by apply Permutation_nil_r in Hp.
  - destruct l1 as [|a l1]; [discriminate |].
    simpl in Hk. injection Hk as Hab Hk.
    apply NoDup_cons in Hnd as [Hb Hnd].
    assert (a = b) as ->.
    { assert (a ∈ b :: l2) as Ha by (rewrite <- Hp; left).
      apply elem_of_cons in Ha as [-> | Ha]; [reflexivity |].
      exfalso. apply Hb. rewrite <- Hab. apply list_elem_of_fmap. by exists a. }
    f_equal. apply IH; [by apply Permutation_cons_inv in Hp | assumption..].
Qed.

Lemma sorted_ori_unique (l1 l2 : list obs_row) :
  l1 ≡ₚ l2 -> NoDup (map ori l2) ->
  Sorted le (map ori l1) -> Sorted le (map ori l2) -> l1 = l2.
Proof.
  intros Hp Hnd H1 H2. apply perm_same_keys_eq; [assumption..|].
  apply (Sorted_unique le); [assumption.. |].
  by apply fmap_Permutation.
Qed.

(** Sorting any rearrangement of a table whose ['ori'] column increases
    strictly gives the table back. *)
Lemma sort_values_ori_restores (l0 out : list obs_row) :
  out ≡ₚ l0 -> NoDup (map ori l0) -> Sorted le (map ori l0) ->
  sort_values_ori out = l0.
Proof.
  intros Hp Hnd Hs. apply sorted_ori_unique; [| assumption | | assumption].
  - by rewrite sort_values_ori_perm.
  - apply sort_values_ori_sorted.
Qed.

Lemma restore_order (R : obs_row -> obs_row -> Prop) (l0 l1 out : list obs_row) :
  (forall r r', R r r' -> ori r' = ori r) ->
  NoDup (map ori l0) -> Sorted le (map ori l0) ->
  l1 ≡ₚ l0 -> Forall2 R l1 out ->
  Forall2 R l0 (sort_values_ori out).
Proof.
  intros Hori Hnd Hs Hp HR.
  apply Forall2_flip in HR.
  destruct (Permutation_Forall2 (symmetry (sort_values_ori_perm out)) HR)
    as (l2 & Hp2 & HR2).
  apply Forall2_flip in HR2.
  assert (map ori l2 = map ori (sort_values_ori out)) as Hk.
  { clear -HR2 Hori. induction HR2 as [|r r' l l' Hr _ IH]; simpl; [reflexivity |].
    rewrite IH, (Hori _ _ Hr). reflexivity. }
  assert (l2 = l0) as <-; [| assumption].
  apply sorted_ori_unique; [| assumption | | assumption].
  - by rewrite <- Hp2.
  - rewrite Hk. apply sort_values_ori_sorted.
Qed.

(** ** Grouping *)

Lemma insert_key_perm (x : string) (l : list string) : insert_key x l ≡ₚ x :: l.
Proof.
  induction l as [|y l IH]; simpl; [reflexivity |].
  destruct (String.leb x y); [reflexivity |].
  rewrite IH. apply Permutation_swap.
Qed.

Lemma sort_keys_perm (l : list string) : sort_keys l ≡ₚ l.
Proof.
  induction l as [|x l IH]; simpl; [reflexivity |].
  rewrite insert_key_perm. by constructor.
Qed.

Lemma concat_groups_cons (k key0 : string) (r : obs_row) (df : list obs_row)
    (ks : list string) :
  cols r !! k = Some key0 -> NoDup ks -> key0 ∈ ks ->
  concat (map (fun key => filter (fun x => cols x !! k = Some key) (r :: df)) ks)
  ≡ₚ r :: concat (map (fun key => filter (fun x => cols x !! k = Some key) df) ks).
Proof.
  intros Hr. induction ks as [|a ks IH]; intros Hnd Hin.
  { by apply elem_of_nil in Hin. }
  apply NoDup_cons in Hnd as [Ha Hnd]. rewrite !map_cons, !concat_cons, filter_cons.
  destruct (decide (a = key0)) as [-> | Hne].
  - destruct (decide (cols r !! k = Some key0)); [| contradiction].
    simpl. constructor. apply Permutation_app_head.
    assert (map (fun key => filter (fun x => cols x !! k = Some key) (r :: df)) ks
            = map (fun key => filter (fun x => cols x !! k = Some key) df) ks) as ->;
      [| reflexivity].
    apply map_ext_in. intros key Hkey. rewrite filter_cons.
    destruct (decide (cols r !! k = Some key)) as [E |]; [| reflexivity].
    rewrite Hr in E. injection E as <-. apply list_elem_of_In in Hkey. contradiction.
  - destruct (decide (cols r !! k = Some a)) as [E |]; [congruence |].
    apply elem_of_cons in Hin as [-> | Hin]; [congruence |].
    rewrite (IH Hnd Hin). symmetry. apply Permutation_middle.
Qed.

Lemma concat_groups_perm (k : string) (df : list obs_row) (ks : list string) :
  NoDup ks ->
  (forall r, r ∈ df -> exists key, cols r !! k = Some key /\ key ∈ ks) ->
  concat (map (fun key => filter (fun x => cols x !! k = Some key) df) ks) ≡ₚ df.
Proof.
  intros Hnd. induction df as [|r df IH]; intros Hall.
  - clear. induction ks as [|a ks IH]; [reflexivity |].
    rewrite map_cons, concat_cons, filter_nil. exact IH.
  - destruct (Hall r) as (key0 & Hr & Hin); [left |].
    rewrite (concat_groups_cons k key0) by assumption.
    constructor. apply IH. intros r' Hr'. apply Hall. by right.
Qed.

(** The groups of [groupby]: one per value of the column, each holding the
    rows with that value in table order, and together all the rows. *)
Lemma groupby_Ok (k : string) (df : list obs_row)
    (groups : list (string * list obs_row)) :
  groupby k df = Ok groups ->
  exists keys,
    column k df = Ok keys
    /\ groups = map (fun key => (key, filter (fun r => cols r !! k = Some key) df))
                    (sort_keys (unique keys))
    /\ concat (map snd groups) ≡ₚ df.
Proof.
  unfold groupby. intros H. inv_bind H. injection H as <-.
  exists a. split; [assumption |]. split; [reflexivity |].
  rewrite map_map. simpl. apply concat_groups_perm.
  - rewrite sort_keys_perm. apply NoDup_unique.
  - intros r Hr. apply column_Ok in Ha.
    destruct (proj1 (list_elem_of_lookup _ _) Hr) as [i Hi].
    destruct (Forall2_lookup_l _ _ _ _ _ Ha Hi) as (key & Hkey & Hc).
    exists key. split; [assumption |].
    rewrite sort_keys_perm, elem_of_unique. by eapply list_elem_of_lookup_2.
Qed.

Lemma groupby_group (k : string) (df : list obs_row)
    (groups : list (string * list obs_row)) (g : string * list obs_row) :
  groupby k df = Ok groups -> g ∈ groups ->
  g.2 = filter (fun r => cols r !! k = Some g.1) df /\ g.2 <> [].
Proof.
  intros H Hg. destruct (groupby_Ok _ _ _ H) as (keys & Hk & -> & _).
  apply list_elem_of_fmap in Hg as (key & -> & Hkey). simpl.
  split; [reflexivity |].
  rewrite sort_keys_perm, elem_of_unique in Hkey.
  apply column_Ok in Hk.
  destruct (proj1 (list_elem_of_lookup _ _) Hkey) as [i Hi].
  destruct (Forall2_lookup_r _ _ _ _ _ Hk Hi) as (r & Hr & Hc).
  intros E. assert (r ∈ filter (fun r => cols r !! k = Some key) df) as Hin.
  { apply list_elem_of_filter. split; [assumption | by eapply list_elem_of_lookup_2]. }
  rewrite E in Hin. by apply elem_of_nil in Hin.
Qed.

(** ** The singleton post-pass *)

Lemma filter_map_pairs (P : string * nat -> Prop) `{forall p, Decision (P p)}
    (g : string -> string * nat) (u : list string) :
  filter P (map g u) = map g (filter (fun k => P (g k)) u).
Proof.
  induction u as [|x u IH]; [reflexivity |].
  rewrite map_cons, !filter_cons, IH.
  destruct (decide (P (g x))); reflexivity.
Qed.

Lemma filter_filter_ne (Q : string -> Prop) `{forall x, Decision (Q x)}
    (x : string) (u : list string) :
  ~ Q x -> filter Q (filter (fun y => y ≠ x) u) = filter Q u.
Proof.
  intros Hx. induction u as [|y u IH]; [reflexivity |].
  rewrite !filter_cons. destruct (decide (y ≠ x)) as [Hne | Heq].
  - rewrite filter_cons, IH. reflexivity.
  - rewrite IH. destruct (decide (Q y)) as [Hy |]; [| reflexivity].
    exfalso. apply Heq. intros ->. contradiction.
Qed.

(** The first value of [unique l] with a property is the first element of [l]
    with it. *)
Lemma unique_first (Q : string -> Prop) `{forall x, Decision (Q x)}
    (l : list string) (m : string) :
  head (filter Q (unique l)) = Some m ->
  exists pre post, l = pre ++ m :: post /\ Q m /\ forall c, c ∈ pre -> ~ Q c.
Proof.
  induction l as [|x l IH]; [discriminate |].
  cbn [unique]. rewrite filter_cons. destruct (decide (Q x)) as [Hx | Hx].
  - intros [= <-]. exists [], l. split; [reflexivity |]. split; [assumption |].
    intros c Hc. by apply elem_of_nil in Hc.
  - rewrite filter_filter_ne by assumption. intros Hm.
    destruct (IH Hm) as (pre & post & -> & HQ & Hpre).
    exists (x :: pre), post. split; [reflexivity |]. split; [assumption |].
    intros c Hc. apply elem_of_cons in Hc as [-> | Hc]; [assumption | by apply Hpre].
Qed.

Lemma most_abundant_cluster_spec (l : list string) (m : string) :
  Prune.most_abundant_cluster (value_counts l) = Ok m ->
  m ∈ l
  /\ (forall c, (count_of c l <= count_of m l)%nat)
  /\ exists pre post, l = pre ++ m :: post
       /\ forall c, c ∈ pre -> (count_of c l < count_of m l)%nat.
Proof.
  unfold Prune.most_abundant_cluster. intros H. inv_bind H. injection H as <-.
  unfold index in Ha. apply of_option_Ok in Ha. rewrite <- head_lookup in Ha.
  set (M := vc_max (value_counts l)) in *.
  assert (forall c, (count_of c l <= M)%nat) as Hmax.
  { intros c. destruct (decide (c ∈ l)) as [Hc | Hc].
    - apply (vc_max_ge (value_counts l) (c, count_of c l)).
      by apply elem_of_value_counts.
    - rewrite count_of_pos in Hc. lia. }
  unfold value_counts in Ha. rewrite filter_sort_desc, filter_map_pairs in Ha.
  simpl in Ha.
  destruct (filter (fun k => count_of k l = M) (unique l)) as [|m' u] eqn:E;
    [discriminate |].
  simpl in Ha. injection Ha as <-. simpl.
  destruct (unique_first (fun k => count_of k l = M) l m') as (pre & post & Hl & Hm & Hpre).
  { by rewrite E. }
  split; [rewrite Hl; apply elem_of_app; right; left |].
  rewrite Hm. split; [assumption |].
  exists pre, post. split; [assumption |].
  intros c Hc. specialize (Hpre c Hc). specialize (Hmax c). simpl in Hpre. lia.
Qed.

Lemma most_abundant_cluster_total (l : list string) :
  l <> [] -> exists m, Prune.most_abundant_cluster (value_counts l) = Ok m.
Proof.
  intros Hl. unfold Prune.most_abundant_cluster.
  destruct (vc_max_attained (value_counts l)) as (p & Hp & Hmax).
  { intros E. destruct l as [|x l]; [congruence |].
    assert (x ∈ map fst (value_counts (x :: l))) as Hx
      by (apply elem_of_value_counts_index; left).
    rewrite E in Hx. by apply elem_of_nil in Hx. }
  destruct (filter (fun p => p.2 = vc_max (value_counts l)) (value_counts l))
    as [|q u] eqn:E.
  - exfalso. assert (p ∈ filter (fun p => p.2 = vc_max (value_counts l)) (value_counts l)) as Hin
      by (by apply list_elem_of_filter).
    rewrite E in Hin. by apply elem_of_nil in Hin.
  - simpl. eauto.
Qed.

Lemma elem_of_exclude_clusters (p : string) (l : list string) :
  p ∈ Prune.exclude_clusters (value_counts l) <-> count_of p l = 1%nat.
Proof.
  unfold Prune.exclude_clusters. rewrite list_elem_of_fmap. split.
  - intros ([k n] & -> & Hin). apply list_elem_of_filter in Hin as [Hn Hin].
    apply elem_of_value_counts in Hin as [_ ->]. exact Hn.
  - intros Hc. exists (p, 1%nat). split; [reflexivity |].
    apply list_elem_of_filter. split; [reflexivity |].
    apply elem_of_value_counts. split; [| by rewrite Hc].
    apply count_of_pos. lia.
Qed.

Lemma same_row_refl (r : obs_row) : same_row r r.
Proof. unfold same_row. auto. Qed.

Lemma same_row_trans (r1 r2 r3 : obs_row) :
  same_row r1 r2 -> same_row r2 r3 -> same_row r1 r3.
Proof.
  intros (Hb & Ho & Hn & Hc) (Hb' & Ho' & Hn' & Hc').
  repeat split; try congruence.
  intros k Hk. rewrite Hc', Hc by assumption. reflexivity.
Qed.

Lemma same_row_ori (r r' : obs_row) : same_row r r' -> ori r' = ori r.
Proof. by intros (_ & Ho & _). Qed.

Lemma same_row_set_cell (v : string) (r : obs_row) :
  same_row r (set_cell "pruned" v r).
Proof.
  repeat split. intros k Hk. simpl. by rewrite lookup_insert_ne.
Qed.

Lemma same_row_del_cell (r : obs_row) : same_row r (del_cell "pruned" r).
Proof.
  repeat split. intros k Hk. simpl. by rewrite lookup_delete_ne.
Qed.

Lemma Forall2_same_row_trans (l1 l2 l3 : list obs_row) :
  Forall2 same_row l1 l2 -> Forall2 same_row l2 l3 -> Forall2 same_row l1 l3.
Proof.
  intros H. revert l3. induction H as [|r1 r2 l1 l2 Hr _ IH]; intros l3 H3.
  - inversion H3. constructor.
  - inversion H3 as [|? r3 ? l3' Hr' Hl']; subst.
    constructor; [by eapply same_row_trans | by apply IH].
Qed.

Lemma cleaned_same_row (pruned : list string) (most : string) (r r' : obs_row) :
  cleaned pruned most r r' -> same_row r r'.
Proof.
  intros (p & _ & H1 & Hn). destruct (decide (count_of p pruned = 1%nat)) as [E | E].
  - rewrite (H1 E). apply same_row_set_cell.
  - rewrite (Hn E). apply same_row_refl.
Qed.

Lemma assign_column_pruned_same_row (values : list (option string))
    (df df' : list obs_row) :
  assign_column "pruned" values df = Ok df' -> Forall2 same_row df df'.
Proof.
  unfold assign_column. destruct (decide (length values = length df)) as [Hlen |];
    [| discriminate].
  intros [= <-]. revert values Hlen.
  induction df as [|r df IH]; intros [|v values] Hlen; try discriminate; simpl.
  - constructor.
  - constructor; [| apply IH; simpl in Hlen; lia].
    destruct v; [apply same_row_set_cell | apply same_row_del_cell].
Qed.

(** What the post-pass returns. *)
Lemma singleton_cleanup_Ok (subset out : list obs_row) :
  Prune.singleton_cleanup subset = Ok out ->
  exists pruned most,
    column "pruned" subset = Ok pruned
    /\ Prune.most_abundant_cluster (value_counts pruned) = Ok most
    /\ Forall2 (cleaned pruned most) subset out.
Proof.
  unfold Prune.singleton_cleanup. intros H. inv_bind H. inv_bind H.
  injection H as <-. rename a into pruned, a0 into most.
  exists pruned, most. split; [assumption |]. split; [assumption |].
  apply column_Ok in Ha. clear Ha0.
  assert (forall r, r ∈ subset -> exists p, cols r !! "pruned" = Some p) as Hall.
  { intros r Hr. destruct (proj1 (list_elem_of_lookup _ _) Hr) as [i Hi].
    destruct (Forall2_lookup_l _ _ _ _ _ Ha Hi) as (p & _ & Hp). eauto. }
  clear Ha. induction subset as [|r subset IH]; simpl; constructor.
  - destruct (Hall r) as [p Hp]; [left |]. exists p. split; [assumption |].
    rewrite Hp. destruct (decide (p ∈ Prune.exclude_clusters (value_counts pruned)))
      as [Hin | Hin]; rewrite elem_of_exclude_clusters in Hin;
      split; intros; congruence.
  - apply IH. intros r' Hr'. apply Hall. by right.
Qed.

Lemma singleton_cleanup_total (subset : list obs_row) (pruned : list string) :
  column "pruned" subset = Ok pruned -> subset <> [] ->
  exists out, Prune.singleton_cleanup subset = Ok out.
Proof.
  intros Hc Hne. unfold Prune.singleton_cleanup. rewrite Hc. simpl.
  destruct (most_abundant_cluster_total pruned) as [m Hm].
  { intros ->. apply column_length in Hc. destruct subset; [congruence | discriminate]. }
  rewrite Hm. simpl. eauto.
Qed.

Lemma singleton_cleanup_same_row (subset out : list obs_row) :
  Prune.singleton_cleanup subset = Ok out -> Forall2 same_row subset out.
Proof.
  intros H. destruct (singleton_cleanup_Ok _ _ H) as (pruned & most & _ & _ & Hc).
  eapply Forall2_impl; [exact Hc |]. intros r r'. apply cleaned_same_row.
Qed.

Lemma run_reference_pruning_same_row (chunk : string * list obs_row)
    (reference : string) (size_dict : gmap string (gmap string Z))
    (obs out : list obs_row) :
  Prune.run_reference_pruning chunk reference size_dict obs = Ok out ->
  Forall2 same_row chunk.2 out.
Proof.
  unfold Prune.run_reference_pruning. intros H. inv_bind H. inv_bind H. inv_bind H.
  eapply Forall2_same_row_trans.
  - eapply assign_column_pruned_same_row. eassumption.
  - by apply singleton_cleanup_same_row.
Qed.

(** ** The column ['ori'] and the order of the table *)

Lemma assign_ori_ori (obs : list obs_row) :
  map ori (assign_ori obs) = seq 0 (length obs).
Proof.
  unfold assign_ori. change (map ori) with (fmap (M := list) ori).
  rewrite fmap_imap.
  rewrite (imap_ext _ (fun j _ => j)) by reflexivity.
  rewrite (imap_seq_0 obs (fun j => j)). apply list_fmap_id.
Qed.

Lemma assign_ori_barcode (obs : list obs_row) :
  map barcode (assign_ori obs) = map barcode obs.
Proof.
  unfold assign_ori. change (map barcode) with (fmap (M := list) barcode).
  rewrite fmap_imap.
  rewrite (imap_ext _ (fun _ r => barcode r)) by reflexivity.
  apply imap_const.
Qed.

Lemma assign_ori_length (obs : list obs_row) : length (assign_ori obs) = length obs.
Proof. apply length_imap. Qed.

Lemma column_imap (k : string) (f : nat -> obs_row -> obs_row) (obs : list obs_row) :
  (forall i r, cols (f i r) = cols r) ->
  column k (imap f obs) = column k obs.
Proof.
  unfold column. revert f. induction obs as [|r obs IH]; intros f Hf; [reflexivity |].
  rewrite imap_cons. simpl. unfold cell at 1 3. rewrite Hf.
  rewrite IH; [reflexivity |]. intros i r'. apply Hf.
Qed.

Lemma assign_ori_column (k : string) (obs : list obs_row) :
  column k (assign_ori obs) = column k obs.
Proof. apply column_imap. reflexivity. Qed.

Lemma Sorted_le_seq (j n : nat) : Sorted le (seq j n).
Proof.
  revert j. induction n as [|n IH]; intros j; simpl; [constructor |].
  constructor; [apply IH |]. destruct n; simpl; constructor. lia.
Qed.

Lemma Forall2_concat {A B : Type} (R : A -> B -> Prop)
    (ls : list (list A)) (ks : list (list B)) :
  Forall2 (Forall2 R) ls ks -> Forall2 R (concat ls) (concat ks).
Proof.
  induction 1 as [|l k ls ks Hl _ IH]; simpl; [constructor |].
  by apply Forall2_app.
Qed.

Lemma Forall2_same_row_ori (l l' : list obs_row) :
  Forall2 same_row l l' -> map ori l' = map ori l.
Proof.
  induction 1 as [|r r' l l' Hr _ IH]; simpl; [reflexivity |].
  rewrite IH, (same_row_ori _ _ Hr). reflexivity.
Qed.

Lemma Forall2_same_row_barcode (l l' : list obs_row) :
  Forall2 same_row l l' -> map barcode l' = map barcode l.
Proof.
  induction 1 as [|r r' l l' Hr _ IH]; simpl; [reflexivity |].
  destruct Hr as (Hb & _). rewrite IH, Hb. reflexivity.
Qed.

(** Chunks that together hold the rows of a table with a strictly increasing
    ['ori'] column, processed row by row and concatenated in any order, sort
    back into the order of the table. *)
Lemma chunks_restore_order (l0 : list obs_row) (chunks outs : list (list obs_row)) :
  NoDup (map ori l0) -> Sorted le (map ori l0) ->
  concat chunks ≡ₚ l0 -> Forall2 (Forall2 same_row) chunks outs ->
  Forall2 same_row l0 (sort_values_ori (concat outs)).
Proof.
  intros Hnd Hs Hp HR.
  apply (restore_order same_row l0 (concat chunks));
    [apply same_row_ori | assumption.. | by apply Forall2_concat].
Qed.

Lemma assign_ori_NoDup (obs : list obs_row) : NoDup (map ori (assign_ori obs)).
Proof. rewrite assign_ori_ori. apply NoDup_seq. Qed.

Lemma assign_ori_Sorted (obs : list obs_row) : Sorted le (map ori (assign_ori obs)).
Proof. rewrite assign_ori_ori. apply Sorted_le_seq. Qed.

Lemma reference_pruning_same_row (obs : list obs_row) (reference : string)
    (size_dict : gmap string (gmap string Z)) (obs' : list obs_row) :
  Prune.reference_pruning obs reference size_dict = Ok obs' ->
  Forall2 same_row (assign_ori obs) obs'.
Proof.
  unfold Prune.reference_pruning. intros H. inv_bind H. rename a into chunk_list.
  destruct (decide (length chunk_list = 0%nat)); [discriminate |].
  inv_bind H. injection H as <-. rename a into pruned_chunks.
  destruct (groupby_Ok _ _ _ Ha) as (keys & _ & _ & Hp).
  apply (chunks_restore_order _ (map snd chunk_list));
    [apply assign_ori_NoDup | apply assign_ori_Sorted | assumption |].
  apply mapM_Ok in Ha0. apply Forall2_fmap_l.
  eapply Forall2_impl; [exact Ha0 |]. intros chunk out. simpl.
  apply run_reference_pruning_same_row.
Qed.

Lemma copy_raw_to_pruned_same_row (r : obs_row) :
  same_row r (Prune.copy_raw_to_pruned r).
Proof.
  unfold Prune.copy_raw_to_pruned.
  destruct (cols r !! "raw"); [apply same_row_set_cell | apply same_row_del_cell].
Qed.

Lemma valid_invalid_perm (invalid : list string) (obs : list obs_row) :
  filter (fun r => Prune.raw_isin invalid r = false) obs
  ++ filter (fun r => Prune.raw_isin invalid r = true) obs ≡ₚ obs.
Proof.
  rewrite <- (filter_app_complement (fun r => Prune.raw_isin invalid r = false) obs) at 3.
  apply Permutation_app_head.
  rewrite (list_filter_iff (fun r => Prune.raw_isin invalid r = true)
                           (fun r => ~ Prune.raw_isin invalid r = false));
    [reflexivity |].
  intros r. destruct (Prune.raw_isin invalid r); split; congruence.
Qed.

(** ** The stages of [reassign_pruning] *)

Lemma reassign_pruning_Ok
    (knn : list obs_row -> list obs_row -> result (list string))
    (globals : gmap string pyval) (sctri : ScTriangulate)
    (obs' : list obs_row) (inv : list string) :
  Prune.reassign_pruning knn globals sctri = Ok (obs', inv) ->
  exists obs inv0 predicted test_obs groups bucket,
    globals !! "adata" = Some (PyAnnData obs)
    /\ invalid sctri = Some inv0
    /\ Prune.reassign_invalid (size_dict sctri) (assign_ori obs) inv0 = Ok inv
    /\ knn (filter (fun r => Prune.raw_isin inv r = false) (assign_ori obs))
           (filter (fun r => Prune.raw_isin inv r = true) (assign_ori obs))
       = Ok predicted
    /\ assign_column "pruned" (map Some predicted)
         (filter (fun r => Prune.raw_isin inv r = true) (assign_ori obs))
       = Ok test_obs
    /\ groupby (reference sctri)
         (sort_values_ori
            (map Prune.copy_raw_to_pruned
                 (filter (fun r => Prune.raw_isin inv r = false) (assign_ori obs))
             ++ test_obs))
       = Ok groups
    /\ mapM (fun g => Prune.singleton_cleanup g.2) groups = Ok bucket
    /\ obs' = sort_values_ori (concat bucket).
Proof.
  unfold Prune.reassign_pruning. intros H.
  bind_inv H as adata Hadata. unfold load_global in Hadata.
  apply of_option_Ok in Hadata.
  bind_inv H as obs0 Hobs. destruct adata as [| |obs]; try discriminate.
  injection Hobs as <-.
  bind_inv H as inv0 Hinv0. apply of_option_Ok in Hinv0.
  bind_inv H as u Hu. clear u Hu.
  bind_inv H as inv1 Hinv1. bind_inv H as predicted Hknn.
  bind_inv H as test_obs Htest. bind_inv H as groups Hgroups.
  bind_inv H as bucket Hbucket.
  destruct (decide (length bucket = 0%nat)); [discriminate |].
  injection H as <- <-.
  exists obs, inv0, predicted, test_obs, groups, bucket. repeat split; assumption.
Qed.

Lemma reassign_pruning_same_row
    (knn : list obs_row -> list obs_row -> result (list string))
    (globals : gmap string pyval) (sctri : ScTriangulate)
    (obs obs' : list obs_row) (inv : list string) :
  globals !! "adata" = Some (PyAnnData obs) ->
  Prune.reassign_pruning knn globals sctri = Ok (obs', inv) ->
  Forall2 same_row (assign_ori obs) obs'.
Proof.
  intros Hg H.
  destruct (reassign_pruning_Ok _ _ _ _ _ H)
    as (obs1 & inv0 & predicted & test_obs & groups & bucket
        & Hg' & _ & _ & _ & Htest & Hgroups & Hbucket & ->).
  rewrite Hg in Hg'. injection Hg' as <-.
  set (obs0 := assign_ori obs) in *.
  set (valid_obs := filter (fun r => Prune.raw_isin inv r = false) obs0) in *.
  set (invalid_obs := filter (fun r => Prune.raw_isin inv r = true) obs0) in *.
  set (modified := sort_values_ori (map Prune.copy_raw_to_pruned valid_obs ++ test_obs)) in *.
  assert (Forall2 same_row obs0 modified) as Hmod.
  { apply (restore_order same_row obs0 (valid_obs ++ invalid_obs));
      [apply same_row_ori | apply assign_ori_NoDup | apply assign_ori_Sorted
       | apply valid_invalid_perm |].
    apply Forall2_app; [| by eapply assign_column_pruned_same_row].
    apply Forall2_fmap_r, Forall_Forall2_diag, Forall_forall.
    intros r _. apply copy_raw_to_pruned_same_row. }
  eapply Forall2_same_row_trans; [exact Hmod |].
  destruct (groupby_Ok _ _ _ Hgroups) as (keys & _ & _ & Hp).
  apply (chunks_restore_order _ (map snd groups)); [| | assumption |].
  - rewrite (Forall2_same_row_ori _ _ Hmod). apply assign_ori_NoDup.
  - rewrite (Forall2_same_row_ori _ _ Hmod). apply assign_ori_Sorted.
  - apply mapM_Ok in Hbucket. apply Forall2_fmap_l.
    eapply Forall2_impl; [exact Hbucket |]. intros g out. simpl.
    apply singleton_cleanup_same_row.
Qed.

(** C3.  The table a pruning returns lists the observations in the order of
    the input table, whichever way it was cut into chunks: whether [obs']
    is the sorted concatenation of the processed chunks of any partition of
    the table carrying its ['ori'] column, taken in any order, or the result
    of [reference_pruning], or the result of [reassign_pruning] run on the
    table, row [i] of [obs'] is row [i] of the input up to its pruned label,
    with [i] in ['ori']. *)
Theorem pruning_restores_order (obs obs' : list obs_row) :
  (exists chunks outs,
      concat chunks ≡ₚ assign_ori obs
      /\ Forall2 (Forall2 same_row) chunks outs
      /\ obs' = sort_values_ori (concat outs))
  \/ (exists reference size_dict,
         Prune.reference_pruning obs reference size_dict = Ok obs')
  \/ (exists knn globals sctri inv,
         globals !! "adata" = Some (PyAnnData obs)
         /\ Prune.reassign_pruning knn globals sctri = Ok (obs', inv)) ->
  Forall2 same_row (assign_ori obs) obs'
  /\ map barcode obs' = map barcode obs
  /\ map ori obs' = seq 0 (length obs).
Proof.
  intros H.
  assert (Forall2 same_row (assign_ori obs) obs') as HR.
  { destruct H as [(chunks & outs & Hp & HR & ->) | [(reference & size_dict & H)
                  | (knn & globals & sctri & inv & Hg & H)]].
    - apply (chunks_restore_order _ chunks);
        [apply assign_ori_NoDup | apply assign_ori_Sorted | assumption..].
    - by eapply reference_pruning_same_row.
    - by eapply reassign_pruning_same_row. }
  split; [assumption |]. split.
  - rewrite (Forall2_same_row_barcode _ _ HR). apply assign_ori_barcode.
  - rewrite (Forall2_same_row_ori _ _ HR). apply assign_ori_ori.
Qed.
(** ** The post-pass of a group *)

(** [Pd.value_counts] is one of the listings [value_counts] may return. *)
Lemma insert_desc_sorted (x : string * nat) (l : list (string * nat)) :
  Sorted (fun a b : string * nat => (b.2 <= a.2)%nat) l ->
  Sorted (fun a b : string * nat => (b.2 <= a.2)%nat) (insert_desc x l).
Proof.
  induction l as [|y l IH]; simpl; intros Hs.
  - repeat constructor.
  - destruct (y.2 <=? x.2)%nat eqn:E.
    + apply Nat.leb_le in E. constructor; [assumption |]. by constructor.
    + apply Nat.leb_gt in E. apply Sorted_inv in Hs as [Hs Hhd].
      constructor; [by apply IH |].
      destruct l as [|z l]; simpl.
      * constructor. simpl. lia.
      * apply HdRel_inv in Hhd.
        destruct (z.2 <=? x.2)%nat; constructor; simpl; lia.
Qed.

Lemma value_counts_listing (l : list string) :
  is_value_counts (value_counts l) l.
Proof.
  split; [apply sort_desc_perm |].
  unfold value_counts.
  induction (map (fun k => (k, count_of k l)) (unique l)) as [|x u IH]; simpl.
  - constructor.
  - by apply insert_desc_sorted.
Qed.

Lemma singleton_cleanup_from_value_counts (subset : list obs_row)
    (pruned : list string) :
  column "pruned" subset = Ok pruned ->
  Prune.singleton_cleanup subset
  = Prune.singleton_cleanup_from (value_counts pruned) subset.
Proof.
  intros Hc. unfold Prune.singleton_cleanup, Prune.singleton_cleanup_from.
  rewrite Hc. reflexivity.
Qed.

(** The entries of a listing. *)
Lemma elem_of_listing (vc2 : list (string * nat)) (l : list string)
    (k : string) (n : nat) :
  is_value_counts vc2 l -> (k, n) ∈ vc2 <-> k ∈ l /\ n = count_of k l.
Proof.
  intros [Hperm _]. rewrite Hperm, list_elem_of_fmap. split.
  - intros (k' & [= -> ->] & Hk). by rewrite <- elem_of_unique.
  - intros [Hk ->]. exists k. by rewrite elem_of_unique.
Qed.

Lemma head_filter_first {A : Type} (P : A -> Prop) `{forall x, Decision (P x)}
    (l : list A) (x : A) :
  head (filter P l) = Some x ->
  exists pre post, l = pre ++ x :: post /\ P x /\ forall y, y ∈ pre -> ~ P y.
Proof.
  induction l as [|y l IH]; [discriminate |].
  rewrite filter_cons. destruct (decide (P y)) as [Hy | Hy].
  - intros [= <-]. exists [], l. split; [reflexivity |]. split; [assumption |].
    intros z Hz. by apply elem_of_nil in Hz.
  - intros Hx. destruct (IH Hx) as (pre & post & -> & HP & Hpre).
    exists (y :: pre), post. split; [reflexivity |]. split; [assumption |].
    intros z Hz. apply elem_of_cons in Hz as [-> | Hz]; [assumption | by apply Hpre].
Qed.

(** [vc2.loc[vc2==vc2.max()].index[0]]: a label of maximal count, the one
    the listing holds first among them. *)
Lemma most_abundant_cluster_listing (vc2 : list (string * nat))
    (l : list string) (m : string) :
  is_value_counts vc2 l ->
  Prune.most_abundant_cluster vc2 = Ok m ->
  m ∈ l
  /\ (forall c, (count_of c l <= count_of m l)%nat)
  /\ exists pre post, map fst vc2 = pre ++ m :: post
       /\ forall c, c ∈ pre -> (count_of c l < count_of m l)%nat.
Proof.
  intros Hvc H. unfold Prune.most_abundant_cluster in H.
  bind_inv H as first Hfirst. injection H as <-.
  unfold index in Hfirst. apply of_option_Ok in Hfirst.
  rewrite <- head_lookup in Hfirst.
  destruct (head_filter_first _ _ _ Hfirst) as (pre & post & Hl & Hmax & Hpre).
  destruct first as [m n]. simpl in *.
  assert ((m, n) ∈ vc2) as Hin by (rewrite Hl; apply elem_of_app; right; left).
  apply (elem_of_listing _ _ _ _ Hvc) in Hin as [Hm Hn].
  assert (forall c, (count_of c l <= vc_max vc2)%nat) as Hle.
  { intros c. destruct (decide (c ∈ l)) as [Hc | Hc].
    - apply (vc_max_ge vc2 (c, count_of c l)).
      by apply (elem_of_listing _ _ _ _ Hvc).
    - rewrite count_of_pos in Hc. lia. }
  split; [assumption |]. rewrite <- Hn, Hmax. split; [assumption |].
  exists (map fst pre), (map fst post). split.
  { rewrite Hl, map_app. reflexivity. }
  intros c Hc. apply list_elem_of_fmap in Hc as ([c' k] & -> & Hc). simpl.
  specialize (Hpre _ Hc). simpl in Hpre.
  assert ((c', k) ∈ vc2) as Hin by (rewrite Hl; apply elem_of_app; by left).
  apply (elem_of_listing _ _ _ _ Hvc) in Hin as [_ ->].
  specialize (Hle c'). lia.
Qed.

Lemma most_abundant_cluster_listing_total (vc2 : list (string * nat))
    (l : list string) :
  is_value_counts vc2 l -> l <> [] ->
  exists m, Prune.most_abundant_cluster vc2 = Ok m.
Proof.
  intros Hvc Hl. unfold Prune.most_abundant_cluster.
  destruct (vc_max_attained vc2) as (p & Hp & Hmax).
  { intros E. destruct l as [|x l]; [congruence |].
    assert ((x, count_of x (x :: l)) ∈ vc2) as Hx.
    { apply (elem_of_listing _ _ _ _ Hvc). split; [left | reflexivity]. }
    rewrite E in Hx. by apply elem_of_nil in Hx. }
  destruct (filter (fun p => p.2 = vc_max vc2) vc2) as [|q u] eqn:E.
  - exfalso. assert (p ∈ filter (fun p => p.2 = vc_max vc2) vc2) as Hin
      by (by apply list_elem_of_filter).
    rewrite E in Hin. by apply elem_of_nil in Hin.
  - simpl. eauto.
Qed.

(** [vc2.loc[vc2==1].index]: the labels that occur once. *)
Lemma elem_of_exclude_listing (vc2 : list (string * nat)) (l : list string)
    (p : string) :
  is_value_counts vc2 l ->
  p ∈ Prune.exclude_clusters vc2 <-> count_of p l = 1%nat.
Proof.
  intros Hvc. unfold Prune.exclude_clusters. rewrite list_elem_of_fmap. split.
  - intros ([k n] & -> & Hin). apply list_elem_of_filter in Hin as [Hn Hin].
    apply (elem_of_listing _ _ _ _ Hvc) in Hin as [_ ->]. exact Hn.
  - intros Hc. exists (p, 1%nat). split; [reflexivity |].
    apply list_elem_of_filter. split; [reflexivity |].
    apply (elem_of_listing _ _ _ _ Hvc). split; [| by rewrite Hc].
    apply count_of_pos. lia.
Qed.

Lemma singleton_cleanup_from_Ok (vc2 : list (string * nat))
    (subset out : list obs_row) (pruned : list string) :
  is_value_counts vc2 pruned ->
  column "pruned" subset = Ok pruned ->
  Prune.singleton_cleanup_from vc2 subset = Ok out ->
  exists most,
    Prune.most_abundant_cluster vc2 = Ok most
    /\ Forall2 (cleaned pruned most) subset out.
Proof.
  intros Hvc Hc H. unfold Prune.singleton_cleanup_from in H.
  bind_inv H as most Hmost. injection H as <-.
  exists most. split; [assumption |].
  apply column_Ok in Hc.
  assert (forall r, r ∈ subset -> exists p, cols r !! "pruned" = Some p) as Hall.
  { intros r Hr. destruct (proj1 (list_elem_of_lookup _ _) Hr) as [i Hi].
    destruct (Forall2_lookup_l _ _ _ _ _ Hc Hi) as (p & _ & Hp). eauto. }
  clear Hc. induction subset as [|r subset IH]; simpl; constructor.
  - destruct (Hall r) as [p Hp]; [left |]. exists p. split; [assumption |].
    rewrite Hp. destruct (decide (p ∈ Prune.exclude_clusters vc2)) as [Hin | Hin];
      rewrite (elem_of_exclude_listing _ _ _ Hvc) in Hin;
      split; intros; congruence.
  - apply IH. intros r' Hr'. apply Hall. by right.
Qed.

(** C6, for whatever listing [value_counts] returns.  The post-pass that
    ends both strategies ([run_reference_pruning] applies it to its chunk,
    [reassign_pruning] to every group of [groupby(by=reference)]): on a
    group that is not empty it returns; the label [most] it folds into is a
    pruned label of the group of maximal count, and among the labels of
    maximal count the one that the listing [vc2] of the value counts holds
    first; a row whose pruned label occurs once in the group takes [most],
    and a row whose pruned label occurs twice or more is returned as it
    was. *)
Theorem singleton_post_pass (subset : list obs_row) (pruned : list string)
    (vc2 : list (string * nat)) :
  column "pruned" subset = Ok pruned ->
  subset <> [] ->
  is_value_counts vc2 pruned ->
  exists out most,
    Prune.singleton_cleanup_from vc2 subset = Ok out
    /\ most ∈ pruned
    /\ (forall c, (count_of c pruned <= count_of most pruned)%nat)
    /\ (exists pre post,
           map fst vc2 = pre ++ most :: post
           /\ forall c, c ∈ pre -> (count_of c pruned < count_of most pruned)%nat)
    /\ Forall2 (fun r r' =>
                  exists p, cols r !! "pruned" = Some p
                    /\ (count_of p pruned = 1%nat ->
                        r' = set_cell "pruned" most r)
                    /\ ((2 <= count_of p pruned)%nat -> r' = r))
               subset out.
Proof.
  intros Hc Hne Hvc.
  destruct (most_abundant_cluster_listing_total vc2 pruned Hvc) as [most Hmost].
  { intros ->. apply column_length in Hc. destruct subset; [congruence | discriminate]. }
  assert (exists out, Prune.singleton_cleanup_from vc2 subset = Ok out) as [out Hout].
  { unfold Prune.singleton_cleanup_from. rewrite Hmost. simpl. eauto. }
  destruct (singleton_cleanup_from_Ok _ _ _ _ Hvc Hc Hout) as (most' & Hmost' & Hall).
  rewrite Hmost in Hmost'. injection Hmost' as <-.
  destruct (most_abundant_cluster_listing _ _ _ Hvc Hmost) as (Hin & Hmax & Hfirst).
  exists out, most. repeat split; try assumption.
  eapply Forall2_impl; [exact Hall |].
  intros r r' (p & Hp & H1 & Hn). exists p. repeat split; [assumption.. |].
  intros H2. apply Hn. lia.
Qed.

(** ** The mapping of [run_reference_pruning] *)

Lemma mapping_target_Ok (floor : Z) (chunk0 reference : string)
    (size_dict : gmap string (gmap string Z)) (obs : list obs_row)
    (vc : list (string * nat)) (cluster t : string) :
  Prune.mapping_target floor chunk0 reference size_dict obs vc cluster = Ok t ->
  exists n size,
    loc vc cluster = Ok n /\ Prune.size_of size_dict cluster = Ok size
    /\ t = Prune.mapping_choice floor chunk0 reference cluster n (vc_sum vc) size.
Proof.
  unfold Prune.mapping_target. intros H.
  bind_inv H as c_key Hkey. bind_inv H as c_cluster Hcluster.
  bind_inv H as fractions Hincl. bind_inv H as n Hn. bind_inv H as size Hsize.
  injection H as <-. eauto.
Qed.

(** Whether the loop body raises does not depend on the floor. *)
Lemma mapping_target_floor (floor1 floor2 : Z) (chunk0 reference : string)
    (size_dict : gmap string (gmap string Z)) (obs : list obs_row)
    (vc : list (string * nat)) (cluster t : string) :
  Prune.mapping_target floor1 chunk0 reference size_dict obs vc cluster = Ok t ->
  exists t',
    Prune.mapping_target floor2 chunk0 reference size_dict obs vc cluster = Ok t'.
Proof.
  unfold Prune.mapping_target. intros H.
  bind_inv H as c_key Hkey. bind_inv H as c_cluster Hcluster.
  bind_inv H as fractions Hincl. bind_inv H as n Hn. bind_inv H as size Hsize.
  rewrite Hkey. simpl. rewrite Hcluster. simpl. rewrite Hincl. simpl.
  rewrite Hn. simpl. rewrite Hsize. simpl. eauto.
Qed.

Lemma build_mapping_Ok (floor : Z) (chunk0 reference : string)
    (size_dict : gmap string (gmap string Z)) (obs : list obs_row)
    (vc : list (string * nat)) (clusters : list string)
    (m0 m : gmap string string) :
  Prune.build_mapping floor chunk0 reference size_dict obs vc clusters m0 = Ok m ->
  (forall c, c ∈ clusters ->
     exists t, Prune.mapping_target floor chunk0 reference size_dict obs vc c = Ok t
               /\ m !! c = Some t)
  /\ (forall c, c ∉ clusters -> m !! c = m0 !! c).
Proof.
  revert m0. induction clusters as [|c0 clusters IH]; intros m0 H; simpl in H.
  - injection H as <-. split; [| reflexivity].
    intros c Hc. by apply elem_of_nil in Hc.
  - bind_inv H as t0 Ht0. destruct (IH _ H) as [Hin Hout]. split.
    + intros c Hc. destruct (decide (c ∈ clusters)) as [Hc' | Hc']; [by apply Hin |].
      apply elem_of_cons in Hc as [-> | Hc]; [| contradiction].
      exists t0. split; [assumption |].
      rewrite (Hout _ Hc'). apply lookup_insert_eq.
    + intros c Hc. apply not_elem_of_cons in Hc as [Hne Hc].
      rewrite (Hout _ Hc). by apply lookup_insert_ne.
Qed.

Lemma build_mapping_total (floor : Z) (chunk0 reference : string)
    (size_dict : gmap string (gmap string Z)) (obs : list obs_row)
    (vc : list (string * nat)) (clusters : list string) (m0 : gmap string string) :
  (forall c, c ∈ clusters ->
     exists t, Prune.mapping_target floor chunk0 reference size_dict obs vc c = Ok t) ->
  exists m,
    Prune.build_mapping floor chunk0 reference size_dict obs vc clusters m0 = Ok m.
Proof.
  revert m0. induction clusters as [|c0 clusters IH]; intros m0 H; simpl; [eauto |].
  destruct (H c0) as [t Ht]; [left |]. rewrite Ht. simpl.
  apply IH. intros c Hc. apply H. by right.
Qed.

(** What [mapping] holds for a raw cluster of the chunk. *)
Lemma reference_mapping_lookup (floor : Z) (chunk : string * list obs_row)
    (reference : string) (size_dict : gmap string (gmap string Z))
    (obs : list obs_row) (raws : list string) (mapping : gmap string string)
    (cluster : string) :
  column "raw" chunk.2 = Ok raws ->
  Prune.reference_mapping floor chunk reference size_dict obs = Ok mapping ->
  cluster ∈ raws ->
  exists size,
    Prune.size_of size_dict cluster = Ok size
    /\ mapping !! cluster
       = Some (Prune.mapping_choice floor chunk.1 reference cluster
                 (count_of cluster raws) (length chunk.2) size).
Proof.
  intros Hraws H Hin. unfold Prune.reference_mapping in H. rewrite Hraws in H.
  simpl in H. destruct (build_mapping_Ok _ _ _ _ _ _ _ _ _ H) as [Hm _].
  destruct (Hm cluster) as (t & Ht & Hlook).
  { by apply elem_of_value_counts_index. }
  destruct (mapping_target_Ok _ _ _ _ _ _ _ _ Ht) as (n & size & Hn & Hsize & ->).
  apply loc_value_counts in Hn as [_ ->].
  rewrite vc_sum_value_counts, (column_length _ _ _ Hraws) in Hlook.
  eauto.
Qed.






(** The comparisons with 0.6 and 0.05 are comparisons of integers. *)
Lemma proportion_to_self_ge (count : nat) (size : Z) :
  (0 < size)%Z ->
  Np.ge (Prune.proportion_to_self count size) 0.6 = true
  <-> (3 * size <= 5 * Z.of_nat count)%Z.
Proof.
  intros Hpos. unfold Prune.proportion_to_self, Np.true_divide.
  destruct (Z.eqb_spec size 0) as [-> | _]; [lia |].
  simpl. rewrite Qle_bool_iff.
  destruct size as [|p|p]; try lia.
  unfold Qle, Qdiv, Qmult, Qinv, inject_Z. simpl. lia.
Qed.

Lemma proportion_to_ref_ge (count total : nat) :
  (0 < total)%nat ->
  Np.ge (Prune.proportion_to_ref count total) 0.05 = true
  <-> (total <= 20 * count)%nat.
Proof.
  intros Hpos. unfold Prune.proportion_to_ref, Np.true_divide.
  destruct (Z.eqb_spec (Z.of_nat total) 0) as [E | _]; [lia |].
  simpl. rewrite Qle_bool_iff.
  destruct (Z.of_nat total) as [|p|p] eqn:E; try lia.
  unfold Qle, Qdiv, Qmult, Qinv, inject_Z. simpl. lia.
Qed.

(** ** Raising the floor *)

Lemma mapping_choice_monotone (floor1 floor2 : Z) (chunk0 reference cluster : string)
    (count total : nat) (size : Z) :
  (floor1 <= floor2)%Z ->
  Prune.mapping_choice floor1 chunk0 reference cluster count total size
    = reference +:+ "@" +:+ chunk0 ->
  Prune.mapping_choice floor2 chunk0 reference cluster count total size
    = reference +:+ "@" +:+ chunk0.
Proof.
  intros Hle. unfold Prune.mapping_choice.
  destruct (Np.ge (Prune.proportion_to_self count size) 0.6); [auto |].
  destruct (Np.ge (Prune.proportion_to_ref count total) 0.05); [auto |].
  destruct (Np.lt (Prune.proportion_to_ref count total) 0.05); simpl; [| auto].
  destruct (Z.ltb_spec floor1 (Z.of_nat count)), (Z.ltb_spec floor2 (Z.of_nat count));
    auto; lia.
Qed.

Lemma length_filter_mono {A : Type} (P Q : A -> Prop)
    `{forall x, Decision (P x)} `{forall x, Decision (Q x)} (l : list A) :
  (forall x, x ∈ l -> P x -> Q x) ->
  (length (filter P l) <= length (filter Q l))%nat.
Proof.
  induction l as [|x l IH]; intros Himp; [reflexivity |].
  rewrite !filter_cons.
  assert (length (filter P l) <= length (filter Q l))%nat as Hl.
  { apply IH. intros y Hy. apply Himp. by right. }
  destruct (decide (P x)) as [HP | HP], (decide (Q x)) as [HQ | HQ]; simpl; try lia.
  exfalso. apply HQ, Himp; [left | assumption].
Qed.

(** C7.  For a fixed chunk, table and SizeIndex, raising the floor of the
    decision policy from [floor1] to [floor2] keeps the mapping defined,
    keeps every raw cluster that was mapped to the parent label
    [reference@group] mapped to it, and so does not lower the number of raw
    clusters of the chunk mapped to the parent label. *)
Theorem reference_mapping_monotone (floor1 floor2 : Z)
    (chunk : string * list obs_row) (reference : string)
    (size_dict : gmap string (gmap string Z)) (obs : list obs_row)
    (raws : list string) (m1 : gmap string string) :
  (floor1 <= floor2)%Z ->
  column "raw" chunk.2 = Ok raws ->
  Prune.reference_mapping floor1 chunk reference size_dict obs = Ok m1 ->
  exists m2,
    Prune.reference_mapping floor2 chunk reference size_dict obs = Ok m2
    /\ (forall cluster, cluster ∈ raws ->
          m1 !! cluster = Some (reference +:+ "@" +:+ chunk.1) ->
          m2 !! cluster = Some (reference +:+ "@" +:+ chunk.1))
    /\ (folded_back m1 (reference +:+ "@" +:+ chunk.1) (unique raws)
        <= folded_back m2 (reference +:+ "@" +:+ chunk.1) (unique raws))%nat.
Proof.
  intros Hle Hraws H1.
  assert (exists m2, Prune.reference_mapping floor2 chunk reference size_dict obs = Ok m2)
    as [m2 H2].
  { unfold Prune.reference_mapping in *. rewrite Hraws in *. simpl in *.
    apply build_mapping_total. intros c Hc.
    destruct (build_mapping_Ok _ _ _ _ _ _ _ _ _ H1) as [Hm _].
    destruct (Hm c Hc) as (t & Ht & _).
    by eapply mapping_target_floor. }
  exists m2. split; [assumption |].
  assert (forall cluster, cluster ∈ raws ->
            m1 !! cluster = Some (reference +:+ "@" +:+ chunk.1) ->
            m2 !! cluster = Some (reference +:+ "@" +:+ chunk.1)) as Hkeep.
  { intros cluster Hin Hm1.
    destruct (reference_mapping_lookup _ _ _ _ _ _ _ _ Hraws H1 Hin)
      as (size & Hsize & Hl1).
    destruct (reference_mapping_lookup _ _ _ _ _ _ _ _ Hraws H2 Hin)
      as (size' & Hsize' & Hl2).
    rewrite Hsize in Hsize'. injection Hsize' as <-.
    rewrite Hl1 in Hm1. injection Hm1 as Hm1. rewrite Hl2. f_equal.
    by eapply mapping_choice_monotone. }
  split; [assumption |].
  unfold folded_back. apply length_filter_mono.
  intros c Hc. apply Hkeep. by apply elem_of_unique.
Qed.

(** ** The invalid list of [reassign_pruning] *)

Lemma mark_invalid_Ok (size_dict : gmap string (gmap string Z)) (floor : Z)
    (vc : list (string * nat)) (vc_index inv0 inv : list string) :
  Prune.mark_invalid size_dict floor vc vc_index inv0 = Ok inv ->
  (forall c, c ∈ vc_index ->
     exists size n, Prune.size_of size_dict c = Ok size /\ loc vc c = Ok n)
  /\ forall c, c ∈ inv <->
       c ∈ inv0
       \/ (c ∈ vc_index
           /\ exists size n, Prune.size_of size_dict c = Ok size
                /\ loc vc c = Ok n /\ too_small floor size n).
Proof.
  revert inv0. induction vc_index as [|k rest IH]; intros inv0 H; simpl in H.
  - injection H as <-. split.
    + intros c Hc. by apply elem_of_nil in Hc.
    + intros c. split; [auto |]. intros [Hc | [Hc _]]; [assumption |].
      by apply elem_of_nil in Hc.
  - bind_inv H as size Hsize. bind_inv H as n Hn.
    assert (Qle_bool (0.05 * inject_Z size) (inject_Z (Z.of_nat n)) = false
            <-> (inject_Z (Z.of_nat n) < 0.05 * inject_Z size)%Q) as Hq.
    { destruct (Qle_bool _ _) eqn:E.
      - apply Qle_bool_iff in E. split; [discriminate |].
        intros Hlt. exfalso. by eapply Qlt_not_le.
      - split; [| reflexivity]. intros _. apply Qnot_le_lt.
        intros Hle. apply Qle_bool_iff in Hle. congruence. }
    assert (forall inv1,
               Prune.mark_invalid size_dict floor vc rest inv1 = Ok inv ->
               (forall c, c ∈ inv1 <-> c ∈ inv0 \/ (c = k /\ too_small floor size n)) ->
               (forall c, c ∈ k :: rest ->
                  exists size n, Prune.size_of size_dict c = Ok size /\ loc vc c = Ok n)
               /\ forall c, c ∈ inv <->
                    c ∈ inv0
                    \/ (c ∈ k :: rest
                        /\ exists size n, Prune.size_of size_dict c = Ok size
                             /\ loc vc c = Ok n /\ too_small floor size n)) as Hstep.
    { intros inv1 Hrest Hinv1. destruct (IH _ Hrest) as [Hdef Hiff]. split.
      - intros c Hc. apply elem_of_cons in Hc as [-> | Hc]; [eauto | by apply Hdef].
      - intros c. rewrite Hiff, Hinv1. split.
        + intros [[Hc | [-> Hs]] | (Hc & Hs)]; [by left | right | right].
          * split; [left | eauto 6].
          * split; [by right | assumption].
        + intros [Hc | (Hc & size' & n' & Hs' & Hn' & Hsmall)]; [by left; left |].
          apply elem_of_cons in Hc as [-> | Hc].
          * left. right. split; [reflexivity |]. congruence.
          * right. split; [assumption | eauto 6]. }
    destruct (Z.ltb_spec (Z.of_nat n) floor) as [Hlt | Hge].
    + apply (Hstep _ H). intros c. rewrite elem_of_app, list_elem_of_singleton.
      split; [intros [? | ->]; [by left | right; split; [reflexivity | by left]]
             | intros [? | [-> _]]; auto].
    + destruct (Qle_bool (0.05 * inject_Z size) (inject_Z (Z.of_nat n))) eqn:E;
        simpl in H.
      * apply (Hstep _ H). intros c. split; [by left |].
        intros [? | [_ [Hs | Hs]]]; [assumption | lia |].
        apply Hq in Hs. congruence.
      * apply (Hstep _ H). intros c. rewrite elem_of_app, list_elem_of_singleton.
        split; [intros [? | ->]; [by left | right; split; [reflexivity |]]
               | intros [? | [-> _]]; auto].
        right. by apply Hq.
Qed.


(** ** Calling [reassign_pruning] *)

Lemma call_reassign_pruning_kwargs :
  MainClass.call prune_globals "reassign_pruning" 1
                 ["abs_thresh"; "remove1"; "reference"]
  = Raise (TypeError
             "reassign_pruning() got an unexpected keyword argument 'abs_thresh'").
Proof. vm_compute. reflexivity. Qed.

Lemma prune_globals_adata : load_global prune_globals "adata" = Raise (NameError "adata").
Proof. vm_compute. reflexivity. Qed.

(** C4.  On every object, with every classifier and every [rank_pruning],
    [pruning(method='reassign')] (with [parallel] at its default [True])
    raises [TypeError] at the call of [reassign_pruning], whose only
    parameter is [sctri], before any table is computed; and
    [reassign_pruning] called with the object alone raises [NameError] at its
    first statement, [adata] being no global name of [prune.py]. *)
Theorem pruning_reassign_raises
    (knn : list obs_row -> list obs_row -> result (list string))
    (rank_pruning : ScTriangulate -> result (list obs_row * gmap string Q))
    (self : ScTriangulate) :
  MainClass.pruning knn rank_pruning self "reassign" true
  = Raise (TypeError
             "reassign_pruning() got an unexpected keyword argument 'abs_thresh'")
  /\ Prune.reassign_pruning knn prune_globals self = Raise (NameError "adata").
Proof.
  split.
  - unfold MainClass.pruning.
    destruct (decide ("reassign" = "reference")) as [E |]; [discriminate E |].
    destruct (decide ("reassign" = "reassign")) as [_ | E]; [| by destruct E].
    rewrite call_reassign_pruning_kwargs. reflexivity.
  - unfold Prune.reassign_pruning. rewrite prune_globals_adata. reflexivity.
Qed.

(** ** The invalid list of the object *)

(** X1 (the first half of C8).  After [add_to_invalid] the attribute
    [invalid] exists and holds, once each, the clusters it held before and
    the new ones. *)
Lemma add_to_invalid_NoDup (self : ScTriangulate) (new : list string) :
  exists l,
    invalid (MainClass.add_to_invalid self new) = Some l
    /\ NoDup l
    /\ forall c, c ∈ l <->
         c ∈ new \/ exists l0, invalid self = Some l0 /\ c ∈ l0.
Proof.
  unfold MainClass.add_to_invalid.
  exists (Py.list_set (match invalid self with
                       | Some l => l ++ new
                       | None => [] ++ new
                       end)).
  split; [reflexivity |]. unfold Py.list_set.
  split; [apply NoDup_elements |].
  intros c. rewrite elem_of_elements, elem_of_list_to_set.
  destruct (invalid self) as [l0 |]; rewrite elem_of_app.
  - split; [intros [? | ?]; eauto | intros [? | (l1 & [= <-] & ?)]; auto].
  - rewrite elem_of_nil. split; [intros [[] | ?]; auto |].
    intros [? | (l1 & E & _)]; [auto | discriminate].
Qed.

(** C8, second half, as the code has it.  [clear_invalid] deletes the
    attribute [invalid] and binds the empty list to another attribute,
    [invaild]: after a call that returns, the object has no attribute
    [invalid]; and the call raises when there was none to delete. *)
Theorem clear_invalid_deletes (self : ScTriangulate) :
  match MainClass.clear_invalid self with
  | Ok self' => invalid self' = None /\ invaild self' = Some []
  | Raise e => invalid self = None /\ e = AttributeError "invalid"
  end.
Proof.
  unfold MainClass.clear_invalid. destruct (invalid self); simpl; auto.
Qed.

(** ** The columns of the Shapley tensor *)

Lemma filter_ne_absent (x : string) (l : list string) :
  count_of x l = 0%nat -> filter (fun y => y ≠ x) l = l.
Proof.
  induction l as [|y l IH]; [reflexivity |].
  rewrite count_of_cons, filter_cons.
  destruct (decide (y = x)) as [-> | Hne]; [discriminate |].
  intros H. destruct (decide (y ≠ x)); [| contradiction]. by rewrite IH.
Qed.

(** [l.remove(x)] on a list that holds [x] once leaves the other elements. *)
Lemma list_remove_once (x : string) (l : list string) :
  count_of x l = 1%nat -> Py.list_remove x l = Ok (filter (fun y => y ≠ x) l).
Proof.
  induction l as [|y l IH].
  { unfold count_of. rewrite filter_nil. discriminate. }
  rewrite count_of_cons, filter_cons. simpl.
  destruct (decide (y = x)) as [-> | Hne].
  - intros [= H]. destruct (decide (x ≠ x)); [congruence |].
    by rewrite filter_ne_absent.
  - intros H. destruct (decide (y ≠ x)); [| contradiction].
    rewrite (IH H). reflexivity.
Qed.

Lemma values_rows (sc : list string) (key : string) (obs : list obs_row)
    (layer : list (list Q)) (row : list Q) :
  values (MainClass.practical_colname sc key) obs = Ok layer ->
  row ∈ layer ->
  exists r, r ∈ obs
    /\ Forall2 (fun metric v => nums r !! (metric +:+ "@" +:+ key) = Some v) sc row.
Proof.
  unfold values. rewrite mapM_Ok. intros Hall Hrow.
  destruct (proj1 (list_elem_of_lookup _ _) Hrow) as [i Hi].
  destruct (Forall2_lookup_r _ _ _ _ _ Hall Hi) as (r & Hr & Hvals).
  exists r. split; [by eapply list_elem_of_lookup_2 |].
  apply mapM_Ok in Hvals. unfold MainClass.practical_colname in Hvals.
  apply Forall2_fmap_l in Hvals.
  eapply Forall2_impl; [exact Hvals |]. intros m v. simpl.
  unfold num_cell. apply of_option_Ok.
Qed.

(** C10, as the code has it.  When ['doublet'] is registered once (the
    default metric, and no added metric of that name), [score_colname] is
    [total_metrics] without it, and in either branch of [compute_shapley]
    every tensor handed to [run_shapley] has, in the layer of each annotation
    [key] and for each cell, exactly the values of the columns [metric@key]
    of one row of the table, for the metrics other than ['doublet'], in
    the order of [total_metrics]. *)
Theorem shapley_data_without_doublet (cores : nat) (parallel : bool)
    (self : ScTriangulate) (tensors : list (list (list (list Q)))) :
  count_of "doublet" (total_metrics self) = 1%nat ->
  MainClass.run_shapley_inputs cores parallel self = Ok tensors ->
  MainClass.score_colname self
    = Ok (filter (fun m => m ≠ "doublet") (total_metrics self))
  /\ forall tensor, tensor ∈ tensors ->
       Forall2 (fun key layer =>
                  forall row, row ∈ layer ->
                    exists r, r ∈ adata_obs self
                      /\ Forall2 (fun metric v =>
                                    nums r !! (metric +:+ "@" +:+ key) = Some v)
                                 (filter (fun m => m ≠ "doublet") (total_metrics self))
                                 row)
               (query self) tensor.
Proof.
  intros Honce H.
  assert (MainClass.score_colname self
          = Ok (filter (fun m => m ≠ "doublet") (total_metrics self))) as Hsc
    by (by apply list_remove_once).
  split; [assumption |].
  set (sc := filter (fun m => m ≠ "doublet") (total_metrics self)) in *.
  assert (forall data,
             mapM (fun key => values (MainClass.practical_colname sc key) (adata_obs self))
                  (query self) = Ok data ->
             Forall2 (fun key layer =>
                        forall row, row ∈ layer ->
                          exists r, r ∈ adata_obs self
                            /\ Forall2 (fun metric v =>
                                          nums r !! (metric +:+ "@" +:+ key) = Some v)
                                       sc row)
                     (query self) data) as Hdata.
  { intros data Hd. apply mapM_Ok in Hd.
    eapply Forall2_impl; [exact Hd |]. intros key layer Hl row Hrow.
    simpl in Hl. eapply values_rows; eassumption. }
  unfold MainClass.run_shapley_inputs in H. rewrite Hsc in H.
  destruct parallel; simpl in H.
  - bind_inv H as data Hd. injection H as <-. specialize (Hdata _ Hd).
    intros tensor Ht. apply list_elem_of_fmap in Ht as (sub_index & -> & _).
    apply Forall2_fmap_r.
    eapply Forall2_impl; [exact Hdata |]. intros key layer Hl row Hrow. simpl in Hrow.
    apply list_elem_of_omap in Hrow as (i & _ & Hi).
    apply Hl. by eapply list_elem_of_lookup_2.
  - bind_inv H as data Hd. injection H as <-. specialize (Hdata _ Hd).
    intros tensor Ht. apply list_elem_of_singleton in Ht as ->. exact Hdata.
Qed.

(** ** The celltype sheet *)

Lemma chomp_newline (a : string) : MainClass.chomp (a +:+ MainClass.newline) = a.
Proof.
  induction a as [|c a IH]; [reflexivity |].
  change (String c a +:+ MainClass.newline) with (String c (a +:+ MainClass.newline)).
  cbn [MainClass.chomp]. rewrite IH.
  destruct a; reflexivity.
Qed.

Lemma append_assoc (a b c : string) : (a +:+ b) +:+ c = a +:+ b +:+ c.
Proof.
  induction a as [|x a IH]; [reflexivity |].
  change (String x ((a +:+ b) +:+ c) = String x (a +:+ b +:+ c)). by rewrite IH.
Qed.

Lemma plain_app (a b : string) : plain (a +:+ b) = plain a && plain b.
Proof.
  induction a as [|x a IH]; [reflexivity |].
  change (String x a +:+ b) with (String x (a +:+ b)).
  cbn [plain]. rewrite IH. by rewrite andb_assoc.
Qed.

Lemma split_plain (s : string) :
  plain s = true -> Py.split (ascii_of_nat 9) s = [s].
Proof.
  induction s as [|c s IH]; [reflexivity |].
  cbn [plain Py.split]. intros H.
  apply andb_true_iff in H as [H Hs]. apply andb_true_iff in H as [Ht _].
  apply negb_true_iff in Ht. rewrite Ht, (IH Hs). reflexivity.
Qed.

Lemma split_app_tab (a b : string) :
  plain a = true ->
  Py.split (ascii_of_nat 9) (a +:+ MainClass.tab +:+ b)
  = a :: Py.split (ascii_of_nat 9) b.
Proof.
  induction a as [|c a IH].
  - intros _. cbn. reflexivity.
  - cbn [plain]. intros H.
    apply andb_true_iff in H as [H Hs]. apply andb_true_iff in H as [Ht _].
    apply negb_true_iff in Ht.
    change (String c a +:+ MainClass.tab +:+ b)
      with (String c (a +:+ MainClass.tab +:+ b)).
    cbn [Py.split]. rewrite Ht, (IH Hs). reflexivity.
Qed.

(** The fields of a line the sheet writes for plain labels. *)
Lemma fields_data_line (a b : string) :
  plain a = true -> plain b = true ->
  MainClass.fields (a +:+ MainClass.tab +:+ b +:+ MainClass.newline) = [a; b].
Proof.
  intros Ha Hb. unfold MainClass.fields.
  replace (a +:+ MainClass.tab +:+ b +:+ MainClass.newline)
    with ((a +:+ MainClass.tab +:+ b) +:+ MainClass.newline)
    by (by rewrite !append_assoc).
  rewrite chomp_newline, split_app_tab by assumption.
  by rewrite split_plain.
Qed.

Lemma celltype_sheet_Ok (self : ScTriangulate) (sheet : list string) :
  MainClass.celltype_sheet self = Ok sheet ->
  exists lines,
    sheet = ("reference" +:+ MainClass.tab +:+ "cell_cluster" +:+ MainClass.tab
             +:+ "choice" +:+ MainClass.newline) :: lines
    /\ forall line, line ∈ lines ->
         exists ref reassign r,
           line = (reference self +:+ "@" +:+ ref) +:+ MainClass.tab +:+ reassign
                  +:+ MainClass.newline
           /\ r ∈ adata_obs self
           /\ cols r !! reference self = Some ref
           /\ cols r !! "pruned" = Some reassign.
Proof.
  unfold MainClass.celltype_sheet. intros H.
  bind_inv H as groups Hgroups. bind_inv H as lines Hlines. injection H as <-.
  exists (concat lines). split; [reflexivity |].
  intros line Hline. apply list_elem_of_In, in_concat in Hline as (ls & Hls & Hline).
  apply list_elem_of_In in Hls, Hline.
  apply mapM_Ok in Hlines.
  destruct (proj1 (list_elem_of_lookup _ _) Hls) as [i Hi].
  destruct (Forall2_lookup_r _ _ _ _ _ Hlines Hi) as (g & Hg & Hw).
  simpl in Hw. bind_inv Hw as pruned Hpruned. injection Hw as <-.
  apply list_elem_of_fmap in Hline as (reassign & -> & Hin).
  apply (proj1 (elem_of_unique _ _)) in Hin.
  destruct (groupby_group _ _ _ g Hgroups) as [Hrows _];
    [by eapply list_elem_of_lookup_2 |].
  apply column_Ok in Hpruned.
  destruct (proj1 (list_elem_of_lookup _ _) Hin) as [j Hj].
  destruct (Forall2_lookup_r _ _ _ _ _ Hpruned Hj) as (r & Hr & Hc).
  apply list_elem_of_lookup_2 in Hr. rewrite Hrows in Hr.
  apply list_elem_of_filter in Hr as [Hkey Hr].
  exists g.1, reassign, r. repeat split; assumption.
Qed.

Lemma plain_table_cell (reference : string) (obs : list obs_row) (r : obs_row)
    (k v : string) :
  plain_table reference obs = true -> r ∈ obs ->
  k = reference \/ k = "pruned" -> cols r !! k = Some v -> plain v = true.
Proof.
  unfold plain_table. rewrite forallb_forall. intros Hall Hr Hk Hv.
  specialize (Hall r (proj1 (list_elem_of_In _ _) Hr)).
  apply andb_true_iff in Hall as [H1 H2].
  destruct Hk as [-> | ->]; [rewrite Hv in H1 | rewrite Hv in H2]; assumption.
Qed.

(** C9, as the code has it.  A run of [pruning] that returns has written the
    header line of three column names, [reference], [cell_cluster] and
    [choice], and after it one line per reference group and pruned label of
    the group, holding two tab-separated fields, [reference@group] and the
    pruned label: the column [choice] is left empty.  (Labels hold neither
    tabs nor newlines.) *)
Theorem celltype_sheet_two_fields
    (knn : list obs_row -> list obs_row -> result (list string))
    (rank_pruning : ScTriangulate -> result (list obs_row * gmap string Q))
    (self : ScTriangulate) (method : string) (parallel : bool)
    (self' : ScTriangulate) (sheet : list string) :
  MainClass.pruning knn rank_pruning self method parallel = Ok (self', sheet) ->
  plain (reference self') = true ->
  plain_table (reference self') (adata_obs self') = true ->
  exists header lines,
    sheet = header :: lines
    /\ MainClass.fields header = ["reference"; "cell_cluster"; "choice"]
    /\ forall line, line ∈ lines ->
         exists ref reassign r,
           MainClass.fields line = [reference self' +:+ "@" +:+ ref; reassign]
           /\ r ∈ adata_obs self'
           /\ cols r !! reference self' = Some ref
           /\ cols r !! "pruned" = Some reassign.
Proof.
  intros H Hplain Htable. unfold MainClass.pruning in H.
  bind_inv H as self1 H1. bind_inv H as self2 H2. bind_inv H as sheet' Hsheet.
  injection H as <- <-.
  destruct (celltype_sheet_Ok _ _ Hsheet) as (lines & -> & Hlines).
  eexists _, lines. split; [reflexivity |]. split; [vm_compute; reflexivity |].
  intros line Hline.
  destruct (Hlines line Hline) as (ref & reassign & r & -> & Hr & Href & Hpr).
  exists ref, reassign, r. repeat split; try assumption.
  apply fields_data_line.
  - rewrite !plain_app, Hplain. simpl.
    by eapply (plain_table_cell _ _ r (reference self2)); eauto.
  - by eapply (plain_table_cell _ _ r "pruned"); eauto.
Qed.

(** ** Reassign pruning with nothing to reassign *)

Lemma filter_all {A : Type} (P : A -> Prop) `{forall x, Decision (P x)} (l : list A) :
  (forall x, P x) -> filter P l = l.
Proof.
  intros HP. induction l as [|x l IH]; [reflexivity |].
  rewrite filter_cons, IH. destruct (decide (P x)) as [| Hx]; [reflexivity | exfalso; apply Hx, HP].
Qed.

Lemma filter_none {A : Type} (P : A -> Prop) `{forall x, Decision (P x)} (l : list A) :
  (forall x, ~ P x) -> filter P l = [].
Proof.
  intros HP. induction l as [|x l IH]; [reflexivity |].
  rewrite filter_cons, IH. destruct (decide (P x)) as [Hx |]; [exfalso; by apply (HP x) | reflexivity].
Qed.

Lemma raw_isin_nil (r : obs_row) : Prune.raw_isin [] r = false.
Proof.
  unfold Prune.raw_isin. destruct (cols r !! "raw"); [| reflexivity].
  apply bool_decide_eq_false. apply not_elem_of_nil.
Qed.

Lemma Forall2_impl_elem {A B : Type} (P Q : A -> B -> Prop) (l : list A) (k : list B) :
  Forall2 P l k -> (forall x y, x ∈ l -> P x y -> Q x y) -> Forall2 Q l k.
Proof.
  induction 1 as [|x y l k Hxy _ IH]; intros Himp; constructor.
  - apply Himp; [left | assumption].
  - apply IH. intros x' y' Hx'. apply Himp. by right.
Qed.

Lemma column_omap (k : string) (l : list obs_row) (vs : list string) :
  column k l = Ok vs -> omap (fun r => cols r !! k) l = vs.
Proof.
  rewrite column_Ok. induction 1 as [|r v l vs Hr _ IH]; [reflexivity |].
  simpl. rewrite Hr. f_equal. exact IH.
Qed.

Lemma column_filter (k : string) (P : obs_row -> Prop) `{forall r, Decision (P r)}
    (l : list obs_row) (vs : list string) :
  column k l = Ok vs -> exists vs', column k (filter P l) = Ok vs'.
Proof.
  intros Hc. apply mapM_total. apply column_Ok in Hc.
  apply Forall_forall. intros r Hr. apply list_elem_of_filter in Hr as [_ Hr].
  destruct (proj1 (list_elem_of_lookup _ _) Hr) as [i Hi].
  destruct (Forall2_lookup_l _ _ _ _ _ Hc Hi) as (v & _ & Hv).
  exists v. unfold cell. by rewrite Hv.
Qed.


Lemma mark_invalid_total (size_dict : gmap string (gmap string Z)) (floor : Z)
    (vc : list (string * nat)) (vc_index inv0 : list string) :
  (forall c, c ∈ vc_index ->
     exists size n, Prune.size_of size_dict c = Ok size /\ loc vc c = Ok n) ->
  exists inv, Prune.mark_invalid size_dict floor vc vc_index inv0 = Ok inv.
Proof.
  revert inv0. induction vc_index as [|k rest IH]; intros inv0 H; simpl; [eauto |].
  destruct (H k) as (size & n & Hsize & Hn); [left |].
  rewrite Hsize. simpl. rewrite Hn. simpl.
  assert (forall c, c ∈ rest ->
            exists size n, Prune.size_of size_dict c = Ok size /\ loc vc c = Ok n)
    as H' by (intros c Hc; apply H; by right).
  destruct (Z.of_nat n <? floor)%Z; [by apply IH |].
  destruct (negb _); by apply IH.
Qed.

(** With nothing supplied and no raw cluster too small, the invalid list of
    the run is empty. *)
Lemma reassign_invalid_nil (size_dict : gmap string (gmap string Z))
    (obs : list obs_row) (raws inv : list string) :
  column "raw" obs = Ok raws ->
  (forall c size, c ∈ raws -> Prune.size_of size_dict c = Ok size ->
     ~ too_small (Prune.abs_thresh (length obs)) size (count_of c raws)) ->
  Prune.reassign_invalid size_dict obs [] = Ok inv ->
  inv = [].
Proof.
  intros Hraws Hbig Hinv.
  unfold Prune.reassign_invalid in Hinv. rewrite Hraws in Hinv. simpl in Hinv.
  bind_inv Hinv as inv1 Hmark. injection Hinv as <-.
  destruct (mark_invalid_Ok _ _ _ _ _ _ Hmark) as [_ Hiff].
  assert (inv1 = []) as ->; [| vm_compute; reflexivity].
  apply elem_of_nil_inv. intros c Hc.
  apply Hiff in Hc as [Hc | (Hc & size & n & Hsize & Hn & Hsmall)].
  - by apply elem_of_nil in Hc.
  - apply loc_value_counts in Hn as [Hin ->]. by eapply Hbig.
Qed.

Lemma reassign_invalid_none (size_dict : gmap string (gmap string Z))
    (obs : list obs_row) (raws : list string) :
  column "raw" obs = Ok raws ->
  (forall c, c ∈ raws ->
     exists size,
       Prune.size_of size_dict c = Ok size
       /\ ~ too_small (Prune.abs_thresh (length obs)) size (count_of c raws)) ->
  Prune.reassign_invalid size_dict obs [] = Ok [].
Proof.
  intros Hraws Hbig.
  assert (exists inv, Prune.reassign_invalid size_dict obs [] = Ok inv) as [inv Hinv].
  { unfold Prune.reassign_invalid. rewrite Hraws. simpl.
    destruct (mark_invalid_total size_dict (Prune.abs_thresh (length obs))
                (value_counts raws) (map fst (value_counts raws)) [])
      as [inv1 Hmark].
    - intros c Hc. apply (proj1 (elem_of_value_counts_index _ _)) in Hc.
      destruct (Hbig c Hc) as (size & Hsize & _).
      exists size, (count_of c raws). split; [assumption |].
      by apply loc_value_counts.
    - rewrite Hmark. simpl. eauto. }
  rewrite Hinv. f_equal.
  apply (reassign_invalid_nil size_dict obs raws inv Hraws); [| assumption].
  intros c size Hc Hsize. destruct (Hbig c Hc) as (size' & Hsize' & Hok).
  rewrite Hsize in Hsize'. by injection Hsize' as <-.
Qed.

(** C5.  Let no raw cluster of the table be below the floor or below 5% of
    its SizeIndex size, and let the supplied invalid list be empty.  Then
    the run of [reassign_pruning] marks no cluster, so that every cell is a
    training cell and the classifier is given no cell to predict; what the
    classifier raises on that empty test set is what the run raises, and no
    table of pruned labels is returned.  This is with a table bound to the
    name [adata]; in the namespace of [prune.py] itself, where nothing is,
    the run raises [NameError] at its first statement. *)
Theorem reassign_without_invalid_raises
    (knn : list obs_row -> list obs_row -> result (list string))
    (globals : gmap string pyval) (sctri : ScTriangulate)
    (obs : list obs_row) (raws : list string) (e : exn) :
  globals !! "adata" = Some (PyAnnData obs) ->
  invalid sctri = Some [] ->
  uns_marker_genes sctri = true ->
  column "raw" obs = Ok raws ->
  (forall c, c ∈ raws ->
     exists size,
       Prune.size_of (size_dict sctri) c = Ok size
       /\ ~ too_small (Prune.abs_thresh (length obs)) size (count_of c raws)) ->
  knn (assign_ori obs) [] = Raise e ->
  Prune.reassign_invalid (size_dict sctri) (assign_ori obs) [] = Ok []
  /\ filter (fun r => Prune.raw_isin [] r = false) (assign_ori obs) = assign_ori obs
  /\ filter (fun r => Prune.raw_isin [] r = true) (assign_ori obs) = []
  /\ Prune.reassign_pruning knn globals sctri = Raise e
  /\ Prune.reassign_pruning knn prune_globals sctri = Raise (NameError "adata").
Proof.
  intros Hg Hinv0 Hmarkers Hraws Hbig Hknn.
  assert (Prune.reassign_invalid (size_dict sctri) (assign_ori obs) [] = Ok [])
    as Hnone.
  { apply (reassign_invalid_none _ _ raws); [by rewrite assign_ori_column |].
    rewrite assign_ori_length. exact Hbig. }
  assert (filter (fun r => Prune.raw_isin [] r = false) (assign_ori obs)
          = assign_ori obs) as Hvalid
    by (apply filter_all, raw_isin_nil).
  assert (filter (fun r => Prune.raw_isin [] r = true) (assign_ori obs) = [])
    as Htest
    by (apply filter_none; intros r; rewrite raw_isin_nil; discriminate).
  split; [exact Hnone |]. split; [exact Hvalid |]. split; [exact Htest |]. split.
  - unfold Prune.reassign_pruning, load_global. rewrite Hg. simpl.
    rewrite Hinv0. simpl. rewrite Hmarkers. simpl. rewrite Hnone. simpl.
    rewrite Hvalid, Htest, Hknn. reflexivity.
  - unfold Prune.reassign_pruning. rewrite prune_globals_adata. reflexivity.
Qed.

(** ** The overlap fractions of [inclusiveness] *)

Lemma fraction_range (a b : nat) :
  (0 < b)%nat -> (a <= b)%nat ->
  (0 <= inject_Z (Z.of_nat a) / inject_Z (Z.of_nat b)
   /\ inject_Z (Z.of_nat a) / inject_Z (Z.of_nat b) <= 1)%Q.
Proof.
  intros Hb Hab.
  assert (0 < inject_Z (Z.of_nat b))%Q as Hpos.
  { change 0%Q with (inject_Z 0). rewrite <- Zlt_Qlt. lia. }
  split.
  - apply Qle_shift_div_l; [exact Hpos|].
    rewrite Qmult_0_l. change 0%Q with (inject_Z 0). rewrite <- Zle_Qle. lia.
  - apply Qle_shift_div_r; [exact Hpos|].
    rewrite Qmult_1_l. rewrite <- Zle_Qle. lia.
Qed.

Lemma fraction_zero (a b : nat) :
  (0 < b)%nat ->
  (inject_Z (Z.of_nat a) / inject_Z (Z.of_nat b) == 0)%Q <-> a = 0%nat.
Proof.
  intros Hb.
  assert (~ inject_Z (Z.of_nat b) == 0)%Q as Hne.
  { change 0%Q with (inject_Z 0). rewrite inject_Z_injective. lia. }
  split.
  - intros H.
    assert (inject_Z (Z.of_nat a) == 0)%Q as Ha.
    { rewrite <- (Qmult_div_r (inject_Z (Z.of_nat a)) (inject_Z (Z.of_nat b)) Hne).
      rewrite H. apply Qmult_0_r. }
    change 0%Q with (inject_Z 0) in Ha. rewrite inject_Z_injective in Ha. lia.
  - intros ->. unfold Qdiv. apply Qmult_0_l.
Qed.

Lemma inclusiveness_Ok (obs : list obs_row) (r c : string * string) (fr fc : Q) :
  Prune.inclusiveness obs r c = Ok (fr, fc) ->
  let r_set : gset string :=
    list_to_set (map barcode (filter (fun x => cols x !! r.1 = Some r.2) obs)) in
  let c_set : gset string :=
    list_to_set (map barcode (filter (fun x => cols x !! c.1 = Some c.2) obs)) in
  size r_set ≠ 0%nat /\ size c_set ≠ 0%nat
  /\ fr = (inject_Z (Z.of_nat (size (r_set ∩ c_set))) / inject_Z (Z.of_nat (size r_set)))%Q
  /\ fc = (inject_Z (Z.of_nat (size (r_set ∩ c_set))) / inject_Z (Z.of_nat (size c_set)))%Q.
Proof.
  unfold Prune.inclusiveness. intros H.
  bind_inv H as rs Hrs. bind_inv H as cs Hcs.
  destruct (decide _) as [|Hr]; [discriminate|].
  destruct (decide _) as [|Hc]; [discriminate|].
  injection H as <- <-. auto.
Qed.

(** X2.  The two fractions [inclusiveness] returns lie between 0 and 1, and
    one of them is zero exactly when the other is: they are the size of the
    same intersection over the sizes of the two clusters. *)
Theorem inclusiveness_range (obs : list obs_row) (r c : string * string) (fr fc : Q) :
  Prune.inclusiveness obs r c = Ok (fr, fc) ->
  (0 <= fr /\ fr <= 1 /\ 0 <= fc /\ fc <= 1 /\ (fr == 0 <-> fc == 0))%Q.
Proof.
  intros H. apply inclusiveness_Ok in H. cbv zeta in H.
  destruct H as (Hr & Hc & -> & ->).
  set (r_set := list_to_set (map barcode (filter (fun x => cols x !! r.1 = Some r.2) obs))
                 : gset string) in Hr, Hc |- *.
  set (c_set := list_to_set (map barcode (filter (fun x => cols x !! c.1 = Some c.2) obs))
                 : gset string) in Hr, Hc |- *.
  assert (size (r_set ∩ c_set) <= size r_set)%nat as H1
    by apply subseteq_size, intersection_subseteq_l.
  assert (size (r_set ∩ c_set) <= size c_set)%nat as H2
    by apply subseteq_size, intersection_subseteq_r.
  assert (0 < size r_set)%nat as Pr by lia.
  assert (0 < size c_set)%nat as Pc by lia.
  destruct (fraction_range (size (r_set ∩ c_set)) (size r_set) Pr H1) as [? ?].
  destruct (fraction_range (size (r_set ∩ c_set)) (size c_set) Pc H2) as [? ?].
  repeat split; try assumption.
  - intros E. apply (proj2 (fraction_zero _ _ Pc)).
    apply (proj1 (fraction_zero _ _ Pr)), E.
  - intros E. apply (proj2 (fraction_zero _ _ Pr)).
    apply (proj1 (fraction_zero _ _ Pc)), E.
Qed.

Lemma filter_cell_nil (k v : string) (obs : list obs_row) (vs : list string) :
  column k obs = Ok vs ->
  filter (fun x => cols x !! k = Some v) obs = [] <-> v ∉ vs.
Proof.
  intros H. apply column_Ok in H.
  induction H as [|x y l l' Hxy HF IH].
  - rewrite filter_nil. split; [intros _; apply not_elem_of_nil|reflexivity].
  - rewrite filter_cons. rewrite not_elem_of_cons. destruct (decide _) as [E|E].
    + split; [discriminate|]. intros [Hne _]. congruence.
    + rewrite IH. split; [|tauto]. intros Hv. split; [congruence|exact Hv].
Qed.

Lemma size_barcodes_zero (l : list obs_row) :
  size (list_to_set (map barcode l) : gset string) = 0%nat <-> l = [].
Proof.
  rewrite size_empty_iff. split.
  - intros H. destruct l as [|x l]; [reflexivity|].
    exfalso. apply (not_elem_of_empty (C := gset string) (barcode x)).
    rewrite <- H. set_solver.
  - intros ->. reflexivity.
Qed.

(** The two outcomes of [inclusiveness] once both columns exist. *)
Lemma inclusiveness_outcome (obs : list obs_row) (r c : string * string)
    (rs cs : list string) :
  column r.1 obs = Ok rs -> column c.1 obs = Ok cs ->
  ((r.2 ∉ rs \/ c.2 ∉ cs)
   /\ Prune.inclusiveness obs r c = Raise ZeroDivisionError)
  \/ (r.2 ∈ rs /\ c.2 ∈ cs
      /\ exists fr fc, Prune.inclusiveness obs r c = Ok (fr, fc)).
Proof.
  intros Hrs Hcs.
  pose proof (filter_cell_nil r.1 r.2 obs rs Hrs) as Fr.
  pose proof (filter_cell_nil c.1 c.2 obs cs Hcs) as Fc.
  unfold Prune.inclusiveness. rewrite Hrs, Hcs. cbn [Py.bind].
  destruct (decide (size _ = 0%nat)) as [Er|Er].
  { apply size_barcodes_zero in Er. apply Fr in Er. left. auto. }
  destruct (decide (size _ = 0%nat)) as [Ec|Ec].
  { apply size_barcodes_zero in Ec. apply Fc in Ec. left. auto. }
  rewrite size_barcodes_zero in Er, Ec. right.
  split; [|split; [|eauto]].
  - destruct (decide (r.2 ∈ rs)) as [?|N]; [assumption|]. apply Fr in N. contradiction.
  - destruct (decide (c.2 ∈ cs)) as [?|N]; [assumption|]. apply Fc in N. contradiction.
Qed.

(** X3.  Once both columns exist, [inclusiveness] fails in one way only:
    with [ZeroDivisionError], exactly when no cell carries the reference
    cluster or no cell carries the other cluster; otherwise it returns. *)
Theorem inclusiveness_zero_division (obs : list obs_row) (r c : string * string)
    (rs cs : list string) :
  column r.1 obs = Ok rs -> column c.1 obs = Ok cs ->
  (Prune.inclusiveness obs r c = Raise ZeroDivisionError <-> r.2 ∉ rs \/ c.2 ∉ cs)
  /\ (r.2 ∈ rs /\ c.2 ∈ cs <->
      exists fr fc, Prune.inclusiveness obs r c = Ok (fr, fc)).
Proof.
  intros Hrs Hcs.
  destruct (inclusiveness_outcome obs r c rs cs Hrs Hcs)
    as [(Hout & E)|(Hr & Hc & fr & fc & E)]; rewrite E.
  - split; [split; auto|]. split.
    + intros [Hr Hc]. destruct Hout; contradiction.
    + intros (fr & fc & H). discriminate.
  - split; [split; [discriminate|]|].
    + intros [N|N]; contradiction.
    + split; [eauto|auto].
Qed.

(** ** The singleton post-pass *)

Lemma count_of_map_fix (f : string -> string) (q : string) (l : list string) :
  f q = q -> (count_of q l <= count_of q (map f l))%nat.
Proof.
  intros Hq. induction l as [|x l IH]; [reflexivity|].
  cbn [map]. rewrite !count_of_cons.
  destruct (decide (x = q)) as [->|N].
  - rewrite Hq. destruct (decide (q = q)); [lia|contradiction].
  - destruct (decide (f x = q)); lia.
Qed.

Lemma count_of_map_const (f : string -> string) (m : string) (l : list string) :
  (forall x, x ∈ l -> f x = m) -> count_of m (map f l) = length l.
Proof.
  induction l as [|x l IH]; intros H; [reflexivity|].
  cbn [map length]. rewrite count_of_cons.
  rewrite (H x) by apply list_elem_of_here.
  destruct (decide (m = m)); [|contradiction].
  f_equal. apply IH. intros y Hy. apply H. apply list_elem_of_further, Hy.
Qed.

Lemma cleaned_column (counted : list string) (most : string)
    (l out : list obs_row) (ps : list string) :
  Forall2 (fun r p => cols r !! "pruned" = Some p) l ps ->
  Forall2 (cleaned counted most) l out ->
  Forall2 (fun r v => cols r !! "pruned" = Some v) out
          (map (fun p => if decide (count_of p counted = 1%nat) then most else p) ps).
Proof.
  intros Hp. revert out. induction Hp as [|r p l l' Hrp Hl IH]; intros out HF.
  - apply Forall2_nil_inv_l in HF as ->. constructor.
  - apply Forall2_cons_inv_l in HF as (r' & out' & Hc & HF & ->).
    cbn [map]. constructor; [|apply IH; exact HF].
    destruct Hc as (p0 & Hp0 & H1 & H2).
    assert (p0 = p) as -> by congruence.
    destruct (decide (count_of p counted = 1%nat)) as [E|E].
    + rewrite (H1 E). cbn. apply lookup_insert_eq.
    + rewrite (H2 E). exact Hrp.
Qed.

(** The pruned labels after the post-pass, from those before it. *)
Lemma singleton_cleanup_labels (subset out : list obs_row) :
  Prune.singleton_cleanup subset = Ok out ->
  exists pruned most,
    column "pruned" subset = Ok pruned
    /\ Prune.most_abundant_cluster (value_counts pruned) = Ok most
    /\ column "pruned" out
       = Ok (map (fun p => if decide (count_of p pruned = 1%nat) then most else p)
                 pruned).
Proof.
  intros H. destruct (singleton_cleanup_Ok _ _ H) as (pruned & most & Hp & Hm & HF).
  exists pruned, most. split; [exact Hp|]. split; [exact Hm|].
  apply column_Ok. apply column_Ok in Hp.
  exact (cleaned_column pruned most subset out pruned Hp HF).
Qed.

(** Folding the labels that occur once into a most frequent label leaves,
    among two labels or more, no label that occurs once. *)
Lemma folded_counts (pruned : list string) (most : string) :
  most ∈ pruned ->
  (forall c, count_of c pruned <= count_of most pruned)%nat ->
  (2 <= length pruned)%nat ->
  forall p,
    p ∈ map (fun p => if decide (count_of p pruned = 1%nat) then most else p) pruned ->
    (2 <= count_of p (map (fun p => if decide (count_of p pruned = 1%nat)
                                    then most else p) pruned))%nat.
Proof.
  intros Hin Hmax Hl.
  set (f := fun p => if decide (count_of p pruned = 1%nat) then most else p).
  intros q Hq. apply list_elem_of_fmap in Hq as (p & -> & Hp').
  destruct (decide (count_of most pruned = 1%nat)) as [E1|E1].
  - assert (forall x, x ∈ pruned -> f x = most) as Hall.
    { intros x Hx. unfold f. destruct (decide _) as [|N]; [reflexivity|].
      exfalso. pose proof (proj1 (count_of_pos _ _) Hx). specialize (Hmax x). lia. }
    rewrite (Hall p Hp'). rewrite (count_of_map_const f most pruned Hall). lia.
  - assert (2 <= count_of most pruned)%nat as Hmost.
    { pose proof (proj1 (count_of_pos _ _) Hin). lia. }
    assert (f most = most) as Fm by (unfold f; destruct (decide _); reflexivity).
    destruct (decide (count_of p pruned = 1%nat)) as [E|E].
    + assert (f p = most) as ->
        by (unfold f; destruct (decide _); [reflexivity|contradiction]).
      pose proof (count_of_map_fix f most pruned Fm). lia.
    + assert (f p = p) as Fp
        by (unfold f; destruct (decide _); [contradiction|reflexivity]).
      rewrite Fp.
      pose proof (count_of_map_fix f p pruned Fp).
      pose proof (proj1 (count_of_pos _ _) Hp'). lia.
Qed.

(** X4.  The post-pass that closes both pruning strategies leaves no
    singleton: in a group of at least two cells every pruned label it
    returns is carried by at least two cells of the group. *)
Theorem singleton_cleanup_no_singleton (subset out : list obs_row) :
  Prune.singleton_cleanup subset = Ok out ->
  (2 <= length subset)%nat ->
  exists pruned',
    column "pruned" out = Ok pruned'
    /\ forall p, p ∈ pruned' -> (2 <= count_of p pruned')%nat.
Proof.
  intros H Hlen.
  destruct (singleton_cleanup_labels _ _ H) as (pruned & most & Hp & Hm & Hout).
  eexists. split; [exact Hout|].
  destruct (most_abundant_cluster_spec _ _ Hm) as (Hin & Hmax & _).
  apply folded_counts; [exact Hin|exact Hmax|].
  by rewrite (column_length _ _ _ Hp).
Qed.

Lemma set_cell_id (k v : string) (r : obs_row) :
  cols r !! k = Some v -> set_cell k v r = r.
Proof.
  intros H. destruct r as [b cs ns o]. unfold set_cell. cbn in *.
  f_equal. apply insert_id, H.
Qed.

Lemma map_id_elem {A : Type} (f : A -> A) (l : list A) :
  (forall x, x ∈ l -> f x = x) -> map f l = l.
Proof.
  induction l as [|x l IH]; intros H; [reflexivity|].
  cbn [map]. rewrite (H x) by apply list_elem_of_here.
  f_equal. apply IH. intros y Hy. apply H, list_elem_of_further, Hy.
Qed.

Lemma column_elem (k : string) (l : list obs_row) (vs : list string)
    (r : obs_row) (v : string) :
  column k l = Ok vs -> r ∈ l -> cols r !! k = Some v -> v ∈ vs.
Proof.
  intros H Hr Hv. apply column_Ok in H.
  induction H as [|x y l l' Hxy HF IH]; [inversion Hr|].
  apply elem_of_cons in Hr as [->|Hr].
  - assert (v = y) as -> by congruence. apply list_elem_of_here.
  - apply list_elem_of_further, IH, Hr.
Qed.

(** X5.  The post-pass is idempotent: run on its own result it returns that
    result unchanged. *)
Theorem singleton_cleanup_idempotent (subset out : list obs_row) :
  Prune.singleton_cleanup subset = Ok out ->
  Prune.singleton_cleanup out = Ok out.
Proof.
  intros H.
  destruct (singleton_cleanup_labels _ _ H) as (pruned & most & Hp & Hm & Hout).
  pose proof (singleton_cleanup_same_row _ _ H) as Hsame.
  pose proof (Forall2_length _ _ _ Hsame) as Hlen.
  destruct (most_abundant_cluster_spec _ _ Hm) as (Hin & _ & _).
  pose proof (column_length _ _ _ Hp) as Hl.
  assert (subset <> []) as Hne.
  { intros ->. cbn in Hl. destruct pruned; [inversion Hin|discriminate]. }
  set (pruned' := map _ pruned) in Hout.
  pose proof (column_length _ _ _ Hout) as Hl'.
  assert (out <> []) as Hne' by (intros ->; destruct subset; [contradiction|discriminate]).
  assert (pruned' <> []) as Hpn by (intros E; rewrite E in Hl'; destruct out; [contradiction|discriminate]).
  destruct (most_abundant_cluster_total pruned' Hpn) as (most' & Hm').
  destruct (most_abundant_cluster_spec _ _ Hm') as (Hin' & _ & _).
  unfold Prune.singleton_cleanup. rewrite Hout. cbn [Py.bind].
  rewrite Hm'. cbn [Py.bind]. f_equal.
  apply map_id_elem. intros r Hr.
  destruct (cols r !! "pruned") as [p|] eqn:Er; [|reflexivity].
  destruct (decide _) as [Hex|]; [|reflexivity].
  apply elem_of_exclude_clusters in Hex.
  pose proof (column_elem _ _ _ _ _ Hout Hr Er) as Hpin.
  destruct (decide (2 <= length subset)%nat) as [L|L].
  - destruct (most_abundant_cluster_spec _ _ Hm) as (_ & Hmax & _).
    rewrite <- Hl in L.
    pose proof (folded_counts pruned most Hin Hmax L p Hpin) as Hcount.
    fold pruned' in Hcount. lia.
  - assert (length pruned' = 1%nat) as L1.
    { destruct subset as [|? [|? ?]]; cbn in *; try contradiction; lia. }
    destruct pruned' as [|p1 [|? ?]]; try discriminate.
    apply list_elem_of_singleton in Hpin as ->.
    apply list_elem_of_singleton in Hin' as ->.
    apply set_cell_id, Er.
Qed.

(** ** The labels [reference_pruning] hands out *)

Lemma mapping_choice_cases (floor : Z) (chunk0 reference cluster : string)
    (count total : nat) (size : Z) :
  Prune.mapping_choice floor chunk0 reference cluster count total size = cluster
  \/ Prune.mapping_choice floor chunk0 reference cluster count total size
     = reference +:+ "@" +:+ chunk0.
Proof.
  unfold Prune.mapping_choice.
  destruct (Np.ge _ _); [by left|].
  destruct (Np.ge _ _); [by left|].
  destruct (_ && _); [by left|by right].
Qed.

Lemma Forall2_and_r {A B : Type} (R : A -> B -> Prop) (P : B -> Prop)
    (l : list A) (k : list B) :
  Forall2 R l k -> Forall P k -> Forall2 (fun x y => R x y /\ P y) l k.
Proof.
  induction 1 as [|x y l k Hxy HF IH]; intros HP; [constructor|].
  apply Forall_cons in HP as [Hy HP]. constructor; [split; assumption|apply IH, HP].
Qed.

Lemma assign_column_column (k : string) (values : list (option string))
    (df df' : list obs_row) (ts : list string) :
  assign_column k values df = Ok df' ->
  values = map Some ts ->
  column k df' = Ok ts.
Proof.
  unfold assign_column. intros H ->.
  destruct (decide _) as [Hlen|]; [|discriminate]. injection H as <-.
  rewrite length_map in Hlen. apply column_Ok.
  revert df Hlen. induction ts as [|t ts IH]; intros [|r df] Hlen; try discriminate.
  - constructor.
  - cbn. constructor; [apply lookup_insert_eq|]. apply IH. cbn in Hlen. lia.
Qed.

Lemma map_lookup_total (m : gmap string string) (Q : string -> string -> Prop)
    (l : list string) :
  (forall c, c ∈ l -> exists t, m !! c = Some t /\ Q c t) ->
  exists ts, map (fun c => m !! c) l = map Some ts /\ Forall2 Q l ts.
Proof.
  induction l as [|c l IH]; intros H.
  - exists []. split; [reflexivity|constructor].
  - destruct (H c) as (t & Ht & HQ); [apply list_elem_of_here|].
    destruct IH as (ts & Hts & HF).
    { intros c' Hc'. apply H, list_elem_of_further, Hc'. }
    exists (t :: ts). split; [cbn; by rewrite Ht, Hts|by constructor].
Qed.

Lemma column_Forall (k : string) (df : list obs_row) (vs : list string)
    (P : string -> Prop) :
  column k df = Ok vs -> Forall P vs ->
  Forall (fun r => exists p, cols r !! k = Some p /\ P p) df.
Proof.
  intros H. apply column_Ok in H.
  induction H as [|r v df vs Hrv HF IH]; intros HP; [constructor|].
  apply Forall_cons in HP as [Hv HP]. constructor; [eauto|apply IH, HP].
Qed.

(** One chunk: every pruned label is a raw label of the chunk or the label
    of the reference cluster itself. *)
Lemma run_reference_pruning_labels (chunk : string * list obs_row)
    (reference : string) (size_dict : gmap string (gmap string Z))
    (obs out : list obs_row) :
  Prune.run_reference_pruning chunk reference size_dict obs = Ok out ->
  exists raws,
    column "raw" chunk.2 = Ok raws
    /\ Forall2 (fun r r' =>
                  same_row r r'
                  /\ exists p, cols r' !! "pruned" = Some p
                       /\ (p = reference +:+ "@" +:+ chunk.1 \/ p ∈ raws))
               chunk.2 out.
Proof.
  intros H. pose proof (run_reference_pruning_same_row _ _ _ _ _ H) as Hsame.
  unfold Prune.run_reference_pruning in H.
  bind_inv H as raws Hraws. bind_inv H as mapping Hmap. bind_inv H as subset Hassign.
  exists raws. split; [exact Hraws|].
  apply Forall2_and_r; [exact Hsame|].
  destruct (map_lookup_total mapping
              (fun c t => t = reference +:+ "@" +:+ chunk.1 \/ t ∈ raws) raws)
    as (ts & Hts & HQ).
  { intros c Hc.
    destruct (reference_mapping_lookup _ _ _ _ _ _ _ c Hraws Hmap Hc) as (size & _ & Hl).
    eexists. split; [exact Hl|].
    destruct (mapping_choice_cases (Prune.abs_thresh (length obs)) chunk.1 reference c
                (count_of c raws) (length chunk.2) size) as [-> | ->]; auto. }
  pose proof (assign_column_column _ _ _ _ ts Hassign Hts) as Hcol.
  assert (Forall (fun t => t = reference +:+ "@" +:+ chunk.1 \/ t ∈ raws) ts) as Hall.
  { eapply Forall2_Forall_r; [exact HQ|].
    apply Forall_forall. intros c _ t Ht. exact Ht. }
  destruct (singleton_cleanup_labels _ _ H) as (pruned & most & Hp & Hm & Hout).
  assert (pruned = ts) as -> by congruence.
  destruct (most_abundant_cluster_spec _ _ Hm) as (Hin & _ & _).
  eapply column_Forall; [exact Hout|].
  apply Forall_fmap. rewrite Forall_forall in Hall |- *.
  intros p Hp'. cbn. destruct (decide _); [apply Hall, Hin|apply Hall, Hp'].
Qed.

Lemma Forall2_imap_l {A B : Type} (R R' : A -> B -> Prop) (f : nat -> A -> A)
    (l : list A) (k : list B) :
  (forall i x y, R (f i x) y -> R' x y) ->
  Forall2 R (imap f l) k -> Forall2 R' l k.
Proof.
  revert f k. induction l as [|x l IH]; intros f k HR H.
  - apply Forall2_nil_inv_l in H as ->. constructor.
  - cbn in H. apply Forall2_cons_inv_l in H as (y & k' & Hy & H & ->).
    constructor; [eapply HR, Hy|].
    eapply IH; [|exact H]. intros i. apply HR.
Qed.

Lemma filter_imap_cols (P : gmap string string -> Prop)
    `{forall m, Decision (P m)} (f : nat -> obs_row -> obs_row)
    (obs : list obs_row) :
  (forall i r, cols (f i r) = cols r) ->
  map cols (filter (fun r => P (cols r)) (imap f obs))
  = map cols (filter (fun r => P (cols r)) obs).
Proof.
  intros Hf. revert f Hf. induction obs as [|r obs IH]; intros f Hf; [reflexivity|].
  cbn [imap]. rewrite !filter_cons. rewrite Hf.
  destruct (decide (P (cols r))).
  - cbn [map]. rewrite Hf. f_equal. apply IH. intros i. apply Hf.
  - apply IH. intros i. apply Hf.
Qed.

Lemma group_labels_assign_ori (col reference g : string) (obs : list obs_row) :
  group_labels col reference g (assign_ori obs) = group_labels col reference g obs.
Proof.
  unfold group_labels, assign_ori.
  pose proof (filter_imap_cols (fun m => m !! reference = Some g) set_ori obs
                (fun _ _ => eq_refl)) as H.
  assert (forall l, omap (fun r => cols r !! col) l
                    = omap (fun m : gmap string string => m !! col) (map cols l)) as E.
  { induction l as [|x l IH]; [reflexivity|]. cbn. rewrite IH. reflexivity. }
  rewrite !E. f_equal. exact H.
Qed.

(** The rows of the result next to the rows [reference_pruning] numbered. *)
Lemma reference_pruning_rows (obs : list obs_row) (reference : string)
    (size_dict : gmap string (gmap string Z)) (obs' : list obs_row) :
  Prune.reference_pruning obs reference size_dict = Ok obs' ->
  Forall2 (fun r r' =>
             same_row r r'
             /\ exists g p,
                  cols r !! reference = Some g
                  /\ cols r' !! "pruned" = Some p
                  /\ (p = reference +:+ "@" +:+ g
                      \/ p ∈ group_labels "raw" reference g obs))
          (assign_ori obs) obs'.
Proof.
  intros H. unfold Prune.reference_pruning in H.
  bind_inv H as chunk_list Hg.
  destruct (decide (length chunk_list = 0%nat)); [discriminate|].
  bind_inv H as pruned_chunks Hm. injection H as <-.
  destruct (groupby_Ok _ _ _ Hg) as (keys & _ & _ & Hperm).
  match goal with |- Forall2 ?R0 _ _ => set (R := R0) end.
  apply (restore_order R (assign_ori obs) (concat (map snd chunk_list)));
    [intros r r' [Hs _]; apply same_row_ori, Hs
    |apply assign_ori_NoDup|apply assign_ori_Sorted|exact Hperm|].
  apply Forall2_concat. apply mapM_Ok in Hm. apply Forall2_fmap_l.
  eapply Forall2_impl_elem; [exact Hm|].
  intros chunk out Hin Hrun. cbn.
  destruct (run_reference_pruning_labels _ _ _ _ _ Hrun) as (raws & Hraws & HF).
  destruct (groupby_group _ _ _ _ Hg Hin) as (Hc2 & _).
  eapply Forall2_impl_elem; [exact HF|].
  intros r r' Hr (Hs & p & Hp & Hcase). split; [exact Hs|].
  exists chunk.1, p.
  rewrite Hc2 in Hr. apply list_elem_of_filter in Hr as [Hr _].
  split; [exact Hr|]. split; [exact Hp|].
  destruct Hcase as [->|Hcase]; [by left|right].
  rewrite <- (group_labels_assign_ori "raw" reference chunk.1 obs).
  unfold group_labels. rewrite <- Hc2. by rewrite (column_omap _ _ _ Hraws).
Qed.

(** X6.  [reference_pruning] invents no label: the pruned label of a cell is
    a raw label carried by some cell of the same reference cluster, or the
    label [reference@cluster] of that reference cluster. *)
Theorem reference_pruning_labels (obs : list obs_row) (reference : string)
    (size_dict : gmap string (gmap string Z)) (obs' : list obs_row) :
  Prune.reference_pruning obs reference size_dict = Ok obs' ->
  Forall2 (fun r r' =>
             exists g p,
               cols r !! reference = Some g
               /\ cols r' !! "pruned" = Some p
               /\ (p = reference +:+ "@" +:+ g
                   \/ p ∈ group_labels "raw" reference g obs))
          obs obs'.
Proof.
  intros H. apply reference_pruning_rows in H. unfold assign_ori in H.
  eapply Forall2_imap_l; [|exact H].
  intros i r r' (_ & g & p & Hg & Hp & Hcase). exists g, p. auto.
Qed.

(** ** How [reference_pruning] fails *)

Lemma bind_Raise {A B : Type} (m : result A) (k : A -> result B) (e : exn) :
  Py.bind m k = Raise e -> m = Raise e \/ exists a, m = Ok a /\ k a = Raise e.
Proof.
  destruct m as [a|e']; cbn; intros H; [right; eauto|left].
  injection H as ->. reflexivity.
Qed.

Lemma of_option_Raise {A : Type} (o : option A) (e e' : exn) :
  of_option o e = Raise e' -> e' = e /\ o = None.
Proof. destruct o; cbn; [discriminate|]. intros [= ->]. auto. Qed.

Lemma mapM_Raise {A B : Type} (f : A -> result B) (l : list A) (e : exn) :
  mapM f l = Raise e -> exists x, x ∈ l /\ f x = Raise e.
Proof.
  induction l as [|x l IH]; cbn; [discriminate|]. intros H.
  apply bind_Raise in H as [H|(y & Hy & H)].
  - exists x. split; [apply list_elem_of_here|exact H].
  - apply bind_Raise in H as [H|(ys & _ & H)]; [|discriminate].
    destruct (IH H) as (x' & Hin & Hx'). exists x'.
    split; [apply list_elem_of_further, Hin|exact Hx'].
Qed.

Lemma lookup_exn_KeyError (k : string) : lookup_exn (KeyError k).
Proof. left. eauto. Qed.

Lemma column_Raise (k : string) (df : list obs_row) (e : exn) :
  column k df = Raise e -> e = KeyError k.
Proof.
  unfold column. intros H. apply mapM_Raise in H as (r & _ & H).
  unfold cell in H. by apply of_option_Raise in H as [-> _].
Qed.

Lemma index_Raise {A : Type} (l : list A) (i : nat) (e : exn) :
  index l i = Raise e -> e = IndexError.
Proof. unfold index. intros H. by apply of_option_Raise in H as [-> _]. Qed.

Lemma size_of_Raise (size_dict : gmap string (gmap string Z)) (name : string)
    (e : exn) :
  Prune.size_of size_dict name = Raise e -> lookup_exn e.
Proof.
  unfold Prune.size_of. intros H.
  apply bind_Raise in H as [H|(key & _ & H)].
  { apply index_Raise in H as ->. right; by left. }
  apply bind_Raise in H as [H|(sizes & _ & H)].
  { apply of_option_Raise in H as [-> _]. apply lookup_exn_KeyError. }
  apply bind_Raise in H as [H|(cluster & _ & H)].
  { apply index_Raise in H as ->. right; by left. }
  apply of_option_Raise in H as [-> _]. apply lookup_exn_KeyError.
Qed.

Lemma inclusiveness_Raise (obs : list obs_row) (r c : string * string) (e : exn) :
  Prune.inclusiveness obs r c = Raise e -> lookup_exn e.
Proof.
  unfold Prune.inclusiveness. intros H.
  apply bind_Raise in H as [H|(rs & _ & H)].
  { apply column_Raise in H as ->. apply lookup_exn_KeyError. }
  apply bind_Raise in H as [H|(cs & _ & H)].
  { apply column_Raise in H as ->. apply lookup_exn_KeyError. }
  destruct (decide _); [injection H as <-; right; by right|].
  destruct (decide _); [injection H as <-; right; by right|discriminate].
Qed.

Lemma mapping_target_Raise (floor : Z) (chunk0 reference : string)
    (size_dict : gmap string (gmap string Z)) (obs : list obs_row)
    (vc : list (string * nat)) (cluster : string) (e : exn) :
  Prune.mapping_target floor chunk0 reference size_dict obs vc cluster = Raise e ->
  lookup_exn e.
Proof.
  unfold Prune.mapping_target. intros H.
  apply bind_Raise in H as [H|(c_key & _ & H)].
  { apply index_Raise in H as ->. right; by left. }
  apply bind_Raise in H as [H|(c_cluster & _ & H)].
  { apply index_Raise in H as ->. right; by left. }
  apply bind_Raise in H as [H|(fr & _ & H)].
  { by apply inclusiveness_Raise in H. }
  apply bind_Raise in H as [H|(n & _ & H)].
  { unfold loc in H. apply of_option_Raise in H as [-> _]. apply lookup_exn_KeyError. }
  apply bind_Raise in H as [H|(size & _ & H)]; [|discriminate].
  by apply size_of_Raise in H.
Qed.

Lemma build_mapping_Raise (floor : Z) (chunk0 reference : string)
    (size_dict : gmap string (gmap string Z)) (obs : list obs_row)
    (vc : list (string * nat)) (clusters : list string)
    (m0 : gmap string string) (e : exn) :
  Prune.build_mapping floor chunk0 reference size_dict obs vc clusters m0 = Raise e ->
  lookup_exn e.
Proof.
  revert m0. induction clusters as [|c clusters IH]; intros m0; cbn; [discriminate|].
  intros H. apply bind_Raise in H as [H|(t & _ & H)].
  - by apply mapping_target_Raise in H.
  - by apply IH in H.
Qed.

Lemma singleton_cleanup_Raise (subset : list obs_row) (e : exn) :
  Prune.singleton_cleanup subset = Raise e -> lookup_exn e.
Proof.
  unfold Prune.singleton_cleanup. intros H.
  apply bind_Raise in H as [H|(pruned & _ & H)].
  { apply column_Raise in H as ->. apply lookup_exn_KeyError. }
  apply bind_Raise in H as [H|(most & _ & H)]; [|discriminate].
  unfold Prune.most_abundant_cluster in H.
  apply bind_Raise in H as [H|(first & _ & H)]; [|discriminate].
  apply index_Raise in H as ->. right; by left.
Qed.

Lemma assign_column_total (k : string) (values : list (option string))
    (df : list obs_row) :
  length values = length df -> exists df', assign_column k values df = Ok df'.
Proof.
  intros H. unfold assign_column. destruct (decide _); [eauto|contradiction].
Qed.

Lemma run_reference_pruning_Raise (chunk : string * list obs_row)
    (reference : string) (size_dict : gmap string (gmap string Z))
    (obs : list obs_row) (e : exn) :
  Prune.run_reference_pruning chunk reference size_dict obs = Raise e ->
  lookup_exn e.
Proof.
  unfold Prune.run_reference_pruning. intros H.
  apply bind_Raise in H as [H|(raws & Hraws & H)].
  { apply column_Raise in H as ->. apply lookup_exn_KeyError. }
  apply bind_Raise in H as [H|(mapping & _ & H)].
  { unfold Prune.reference_mapping in H.
    apply bind_Raise in H as [H|(raws' & _ & H)].
    - apply column_Raise in H as ->. apply lookup_exn_KeyError.
    - by apply build_mapping_Raise in H. }
  apply bind_Raise in H as [H|(subset & _ & H)].
  { destruct (assign_column_total "pruned" (map (fun x => mapping !! x) raws) chunk.2)
      as (df' & Hdf').
    - rewrite length_map. by apply column_length in Hraws.
    - congruence. }
  by apply singleton_cleanup_Raise in H.
Qed.

Lemma groupby_nonempty (k : string) (df : list obs_row)
    (groups : list (string * list obs_row)) :
  groupby k df = Ok groups -> df <> [] -> groups <> [].
Proof.
  intros H Hne ->. destruct (groupby_Ok _ _ _ H) as (_ & _ & _ & Hp).
  cbn in Hp. apply Permutation_nil in Hp. contradiction.
Qed.

Lemma assign_ori_nil (obs : list obs_row) : assign_ori obs = [] -> obs = [].
Proof.
  intros H. apply (f_equal length) in H. rewrite assign_ori_length in H.
  by destruct obs.
Qed.

Lemma reference_pruning_nil (reference : string)
    (size_dict : gmap string (gmap string Z)) :
  Prune.reference_pruning [] reference size_dict
  = Raise (ValueError "Number of processes must be at least 1").
Proof. reflexivity. Qed.

(** X7.  The exceptions of [reference_pruning].  On a table that has its
    columns but no cell it raises the [ValueError] of a pool of no worker.
    On any other table the only exceptions are those of a failed lookup:
    [KeyError] (a missing column or an entry missing from [size_dict]),
    [IndexError] (a raw label without ['@']) and [ZeroDivisionError] (a
    cluster no cell carries). *)
Theorem reference_pruning_exceptions (obs : list obs_row) (reference : string)
    (size_dict : gmap string (gmap string Z)) :
  (obs = [] ->
   Prune.reference_pruning obs reference size_dict
   = Raise (ValueError "Number of processes must be at least 1"))
  /\ (forall e, obs <> [] ->
        Prune.reference_pruning obs reference size_dict = Raise e -> lookup_exn e).
Proof.
  split; [intros ->; apply reference_pruning_nil|].
  intros e Hne H. unfold Prune.reference_pruning in H.
  apply bind_Raise in H as [H|(chunk_list & Hg & H)].
  { unfold groupby in H. apply bind_Raise in H as [H|(? & _ & H)]; [|discriminate].
    apply column_Raise in H as ->. apply lookup_exn_KeyError. }
  destruct (decide (length chunk_list = 0%nat)) as [E|_].
  { exfalso. apply (groupby_nonempty _ _ _ Hg).
    - intros E'. apply assign_ori_nil in E'. contradiction.
    - by destruct chunk_list. }
  apply bind_Raise in H as [H|(? & _ & H)]; [|discriminate].
  apply mapM_Raise in H as (chunk & _ & H).
  by apply run_reference_pruning_Raise in H.
Qed.

(** ** When [reference_pruning] returns *)

Lemma column_elem_inv (k : string) (l : list obs_row) (vs : list string) (v : string) :
  column k l = Ok vs -> v ∈ vs -> exists r, r ∈ l /\ cols r !! k = Some v.
Proof.
  intros H Hv. apply column_Ok in H.
  induction H as [|x y l l' Hxy HF IH]; [inversion Hv|].
  apply elem_of_cons in Hv as [->|Hv].
  - exists x. split; [apply list_elem_of_here|exact Hxy].
  - destruct (IH Hv) as (r & Hr & Hc). exists r.
    split; [apply list_elem_of_further, Hr|exact Hc].
Qed.

Lemma column_total (k : string) (l : list obs_row) :
  (forall r, r ∈ l -> is_Some (cols r !! k)) -> exists vs, column k l = Ok vs.
Proof.
  intros H. apply mapM_total. apply Forall_forall. intros r Hr.
  destruct (H r Hr) as (v & Hv). exists v. unfold cell. by rewrite Hv.
Qed.

Lemma inclusiveness_returns (obs : list obs_row) (r c : string * string) (x : Q * Q) :
  Prune.inclusiveness obs r c = Ok x ->
  exists rs cs, column r.1 obs = Ok rs /\ column c.1 obs = Ok cs
    /\ r.2 ∈ rs /\ c.2 ∈ cs.
Proof.
  intros H. pose proof H as H0. unfold Prune.inclusiveness in H0.
  bind_inv H0 as rs Hrs. bind_inv H0 as cs Hcs. clear H0.
  exists rs, cs. split; [exact Hrs|]. split; [exact Hcs|].
  destruct (inclusiveness_outcome obs r c rs cs Hrs Hcs) as [(_ & E)|(Hr & Hc & _)];
    [congruence|auto].
Qed.

Lemma index_Ok_0 {A : Type} (l : list A) (a : A) :
  index l 0 = Ok a -> exists rest, l = a :: rest.
Proof.
  unfold index. intros H. apply of_option_Ok in H.
  destruct l as [|b rest]; [discriminate|]. injection H as ->. eauto.
Qed.

Lemma index_Ok_1 {A : Type} (l : list A) (a : A) :
  index l 1 = Ok a -> exists b rest, l = b :: a :: rest.
Proof.
  unfold index. intros H. apply of_option_Ok in H.
  destruct l as [|b [|a' rest]]; try discriminate. injection H as ->. eauto.
Qed.

Lemma size_of_Ok (size_dict : gmap string (gmap string Z)) (name : string) (size : Z) :
  Prune.size_of size_dict name = Ok size <->
  exists key cluster rest sizes,
    Py.split "@" name = key :: cluster :: rest
    /\ size_dict !! key = Some sizes /\ sizes !! cluster = Some size.
Proof.
  unfold Prune.size_of. split.
  - intros H. bind_inv H as key Hkey. bind_inv H as sizes Hsizes.
    bind_inv H as cluster Hcluster. apply of_option_Ok in H, Hsizes.
    apply index_Ok_1 in Hcluster as (b & rest & E). rewrite E in Hkey.
    injection Hkey as ->. exists key, cluster, rest, sizes. auto.
  - intros (key & cluster & rest & sizes & -> & Hs & Hc).
    cbn. rewrite Hs. cbn. by rewrite Hc.
Qed.

Lemma mapping_target_known (floor : Z) (chunk0 reference : string)
    (size_dict : gmap string (gmap string Z)) (obs : list obs_row)
    (vc : list (string * nat)) (cluster t : string) :
  Prune.mapping_target floor chunk0 reference size_dict obs vc cluster = Ok t ->
  known_cluster size_dict obs cluster.
Proof.
  unfold Prune.mapping_target. intros H.
  bind_inv H as c_key Hkey. bind_inv H as c_cluster Hcluster.
  bind_inv H as fr Hincl. bind_inv H as n Hn. bind_inv H as size Hsize.
  apply index_Ok_1 in Hcluster as (b & rest & E). rewrite E in Hkey.
  injection Hkey as ->.
  apply size_of_Ok in Hsize as (key & cl & rest' & sizes & E' & Hs & Hc).
  rewrite E in E'. injection E' as <- <- <-.
  apply inclusiveness_returns in Hincl as (rs & cs & _ & Hcs & _ & Hin).
  exists c_key, c_cluster, rest, sizes, size, cs. auto.
Qed.

Lemma mapping_target_total (floor : Z) (chunk0 reference : string)
    (size_dict : gmap string (gmap string Z)) (obs : list obs_row)
    (vc : list (string * nat)) (cluster : string) (refs : list string) (n : nat) :
  known_cluster size_dict obs cluster ->
  column reference obs = Ok refs -> chunk0 ∈ refs ->
  loc vc cluster = Ok n ->
  exists t,
    Prune.mapping_target floor chunk0 reference size_dict obs vc cluster = Ok t.
Proof.
  intros (key & cl & rest & sizes & size & vs & E & Hs & Hc & Hvs & Hin) Hrefs Href Hn.
  unfold Prune.mapping_target. rewrite E. cbn.
  destruct (inclusiveness_outcome obs (reference, chunk0) (key, cl) refs vs Hrefs Hvs)
    as [([N|N] & _)|(_ & _ & fr & fc & ->)]; [contradiction|contradiction|].
  cbn. rewrite Hn. cbn.
  rewrite (proj2 (size_of_Ok size_dict cluster size)); [cbn; eauto|].
  exists key, cl, rest, sizes. auto.
Qed.

Lemma run_reference_pruning_total (chunk : string * list obs_row)
    (reference : string) (size_dict : gmap string (gmap string Z))
    (obs : list obs_row) (raws refs : list string) :
  chunk.2 <> [] ->
  column "raw" chunk.2 = Ok raws ->
  (forall c, c ∈ raws -> known_cluster size_dict obs c) ->
  column reference obs = Ok refs -> chunk.1 ∈ refs ->
  exists out, Prune.run_reference_pruning chunk reference size_dict obs = Ok out.
Proof.
  intros Hne Hraws Hknown Hrefs Href.
  destruct (build_mapping_total (Prune.abs_thresh (length obs)) chunk.1 reference
              size_dict obs (value_counts raws) (map fst (value_counts raws)) ∅)
    as (mapping & Hmap).
  { intros c Hc. apply (proj1 (elem_of_value_counts_index _ _)) in Hc.
    eapply mapping_target_total; [apply Hknown, Hc|exact Hrefs|exact Href|].
    apply loc_value_counts. split; [exact Hc|reflexivity]. }
  destruct (map_lookup_total mapping (fun _ _ => True) raws) as (ts & Hts & _).
  { intros c Hc.
    destruct (proj1 (build_mapping_Ok _ _ _ _ _ _ _ _ _ Hmap) c) as (t & _ & Ht).
    - apply (proj2 (elem_of_value_counts_index _ _)), Hc.
    - eauto. }
  destruct (assign_column_total "pruned" (map (fun x => mapping !! x) raws) chunk.2)
    as (subset & Hsubset).
  { rewrite length_map. by apply column_length in Hraws. }
  pose proof (assign_column_column _ _ _ _ ts Hsubset Hts) as Hcol.
  destruct (singleton_cleanup_total subset ts Hcol) as (out & Hout).
  { pose proof (assign_column_pruned_same_row _ _ _ Hsubset) as HF.
    apply Forall2_length in HF. intros ->. destruct chunk.2; [contradiction|discriminate]. }
  exists out. unfold Prune.run_reference_pruning, Prune.reference_mapping.
  rewrite Hraws. cbn [Py.bind]. rewrite Hmap. cbn [Py.bind].
  rewrite Hsubset. cbn [Py.bind]. exact Hout.
Qed.

Lemma known_cluster_assign_ori (size_dict : gmap string (gmap string Z))
    (obs : list obs_row) (c : string) :
  known_cluster size_dict (assign_ori obs) c <-> known_cluster size_dict obs c.
Proof.
  unfold known_cluster. by setoid_rewrite assign_ori_column.
Qed.

Lemma reference_pruning_total (obs : list obs_row) (reference : string)
    (size_dict : gmap string (gmap string Z)) (refs raws : list string) :
  obs <> [] ->
  column reference obs = Ok refs ->
  column "raw" obs = Ok raws ->
  (forall c, c ∈ raws -> known_cluster size_dict obs c) ->
  exists obs', Prune.reference_pruning obs reference size_dict = Ok obs'.
Proof.
  intros Hne Hrefs Hraws Hknown.
  rewrite <- assign_ori_column in Hrefs, Hraws.
  unfold Prune.reference_pruning.
  destruct (groupby reference (assign_ori obs)) as [chunk_list|e] eqn:Hg.
  2:{ unfold groupby in Hg. rewrite Hrefs in Hg. discriminate. }
  cbn [Py.bind].
  destruct (decide (length chunk_list = 0%nat)) as [E|_].
  { exfalso. apply (groupby_nonempty _ _ _ Hg).
    - intros E'. apply assign_ori_nil in E'. contradiction.
    - by destruct chunk_list. }
  destruct (mapM_total
              (fun chunk => Prune.run_reference_pruning chunk reference size_dict
                              (assign_ori obs)) chunk_list) as (outs & ->).
  2:{ cbn. eauto. }
  apply Forall_forall. intros chunk Hin.
  destruct (groupby_group _ _ _ _ Hg Hin) as (Hc2 & Hc2ne).
  destruct (column_filter "raw" (fun r => cols r !! reference = Some chunk.1)
              (assign_ori obs) raws Hraws) as (raws' & Hraws').
  rewrite <- Hc2 in Hraws'.
  apply (run_reference_pruning_total chunk reference size_dict (assign_ori obs)
           raws' refs Hc2ne Hraws').
  - intros c Hc. apply known_cluster_assign_ori, Hknown.
    destruct (column_elem_inv _ _ _ _ Hraws' Hc) as (r & Hr & Hrc).
    rewrite Hc2 in Hr. apply list_elem_of_filter in Hr as [_ Hr].
    exact (column_elem _ _ _ _ _ Hraws Hr Hrc).
  - exact Hrefs.
  - destruct chunk.2 as [|r rest] eqn:E; [contradiction|].
    assert (r ∈ filter (fun r => cols r !! reference = Some chunk.1) (assign_ori obs))
      as Hr by (rewrite <- Hc2; apply list_elem_of_here).
    apply list_elem_of_filter in Hr as [Hr1 Hr2].
    exact (column_elem _ _ _ _ _ Hrefs Hr2 Hr1).
Qed.

Lemma elem_of_concat {A : Type} (x : A) (ls : list (list A)) :
  x ∈ concat ls <-> exists l, x ∈ l /\ l ∈ ls.
Proof.
  induction ls as [|l ls IH]; cbn.
  - split; [intros H; inversion H|intros (l & _ & H); inversion H].
  - rewrite elem_of_app, IH. split.
    + intros [H|(l' & H1 & H2)].
      * exists l. split; [exact H|apply list_elem_of_here].
      * exists l'. split; [exact H1|apply list_elem_of_further, H2].
    + intros (l' & H1 & H2). apply elem_of_cons in H2 as [->|H2]; [by left|right; eauto].
Qed.

Lemma Forall2_elem_l {A B : Type} (R : A -> B -> Prop) (l : list A) (k : list B)
    (x : A) :
  Forall2 R l k -> x ∈ l -> exists y, R x y.
Proof.
  induction 1 as [|a b l k Hab HF IH]; intros Hx; [inversion Hx|].
  apply elem_of_cons in Hx as [->|Hx]; [eauto|apply IH, Hx].
Qed.

Lemma column_elem_Some (k : string) (l : list obs_row) (vs : list string)
    (r : obs_row) :
  column k l = Ok vs -> r ∈ l -> exists v, cols r !! k = Some v /\ v ∈ vs.
Proof.
  intros H Hr. apply column_Ok in H.
  induction H as [|x y l l' Hxy HF IH]; [inversion Hr|].
  apply elem_of_cons in Hr as [->|Hr].
  - exists y. split; [exact Hxy|apply list_elem_of_here].
  - destruct (IH Hr) as (v & Hv & Hin). exists v.
    split; [exact Hv|apply list_elem_of_further, Hin].
Qed.

Lemma run_reference_pruning_known (chunk : string * list obs_row)
    (reference : string) (size_dict : gmap string (gmap string Z))
    (obs out : list obs_row) :
  Prune.run_reference_pruning chunk reference size_dict obs = Ok out ->
  exists raws,
    column "raw" chunk.2 = Ok raws
    /\ forall c, c ∈ raws -> known_cluster size_dict obs c.
Proof.
  unfold Prune.run_reference_pruning. intros H.
  bind_inv H as raws Hraws. bind_inv H as mapping Hmap. clear H.
  exists raws. split; [exact Hraws|]. intros c Hc.
  unfold Prune.reference_mapping in Hmap. rewrite Hraws in Hmap. cbn [Py.bind] in Hmap.
  destruct (proj1 (build_mapping_Ok _ _ _ _ _ _ _ _ _ Hmap) c) as (t & Ht & _).
  - apply (proj2 (elem_of_value_counts_index _ _)), Hc.
  - eapply mapping_target_known, Ht.
Qed.

Lemma reference_pruning_needs (obs : list obs_row) (reference : string)
    (size_dict : gmap string (gmap string Z)) (obs' : list obs_row) :
  Prune.reference_pruning obs reference size_dict = Ok obs' ->
  obs <> []
  /\ (exists refs, column reference obs = Ok refs)
  /\ exists raws, column "raw" obs = Ok raws
       /\ forall c, c ∈ raws -> known_cluster size_dict obs c.
Proof.
  intros H. split.
  { intros ->. rewrite reference_pruning_nil in H. discriminate. }
  unfold Prune.reference_pruning in H.
  bind_inv H as chunk_list Hg.
  destruct (decide (length chunk_list = 0%nat)); [discriminate|].
  bind_inv H as outs Hm. clear H.
  destruct (groupby_Ok _ _ _ Hg) as (keys & Hkeys & _ & Hperm).
  rewrite assign_ori_column in Hkeys.
  split; [eauto|].
  apply mapM_Ok in Hm.
  assert (forall r, r ∈ assign_ori obs ->
            exists (raws : list string) (v : string),
              cols r !! "raw" = Some v /\ v ∈ raws
              /\ forall c, c ∈ raws -> known_cluster size_dict (assign_ori obs) c)
    as Hrow.
  { intros r Hr. rewrite <- Hperm in Hr.
    apply elem_of_concat in Hr as (l & Hrl & Hl).
    apply list_elem_of_fmap in Hl as (chunk & -> & Hchunk).
    destruct (Forall2_elem_l _ _ _ _ Hm Hchunk) as (out & Hrun).
    destruct (run_reference_pruning_known _ _ _ _ _ Hrun) as (raws & Hraws & Hknown).
    destruct (column_elem_Some _ _ _ _ Hraws Hrl) as (v & Hv & Hin).
    exists raws, v. auto. }
  destruct (column_total "raw" (assign_ori obs)) as (raws & Hraws).
  { intros r Hr. destruct (Hrow r Hr) as (_ & v & Hv & _). eauto. }
  exists raws. split; [by rewrite assign_ori_column in Hraws|].
  intros c Hc. apply known_cluster_assign_ori.
  destruct (column_elem_inv _ _ _ _ Hraws Hc) as (r & Hr & Hrc).
  destruct (Hrow r Hr) as (raws' & v & Hv & Hin & Hknown).
  assert (v = c) as -> by congruence. apply Hknown, Hin.
Qed.

(** X8.  [reference_pruning] returns exactly when the table has a cell, the
    reference column and the column ['raw'] exist, and every raw label is
    known: it splits at ['@'] into an annotation and a cluster that
    [size_dict] holds and that some cell of the table carries. *)
Theorem reference_pruning_returns (obs : list obs_row) (reference : string)
    (size_dict : gmap string (gmap string Z)) :
  (exists obs', Prune.reference_pruning obs reference size_dict = Ok obs')
  <-> obs <> []
      /\ (exists refs, column reference obs = Ok refs)
      /\ exists raws, column "raw" obs = Ok raws
           /\ forall c, c ∈ raws -> known_cluster size_dict obs c.
Proof.
  split.
  - intros (obs' & H). eapply reference_pruning_needs, H.
  - intros (Hne & (refs & Hrefs) & raws & Hraws & Hknown).
    eapply reference_pruning_total; eassumption.
Qed.

(** ** The metric registry *)

Lemma count_of_app (x : string) (l1 l2 : list string) :
  count_of x (l1 ++ l2) = (count_of x l1 + count_of x l2)%nat.
Proof. unfold count_of. by rewrite filter_app, length_app. Qed.

Lemma count_of_absent (x : string) (l : list string) :
  x ∉ l -> count_of x l = 0%nat.
Proof.
  intros H. destruct (count_of x l) eqn:E; [reflexivity|].
  exfalso. apply H. apply count_of_pos. lia.
Qed.

Lemma count_of_NoDup_le (x : string) (l : list string) :
  NoDup l -> (count_of x l <= 1)%nat.
Proof.
  induction 1 as [|y l Hy Hnd IH]; [cbn; lia|].
  rewrite count_of_cons. destruct (decide (y = x)) as [->|N]; [|exact IH].
  rewrite (count_of_absent x l Hy). lia.
Qed.

Lemma count_of_NoDup (x : string) (l : list string) :
  NoDup l -> count_of x l = if decide (x ∈ l) then 1%nat else 0%nat.
Proof.
  intros Hnd. destruct (decide (x ∈ l)) as [Hin|Hin].
  - pose proof (count_of_NoDup_le x l Hnd).
    pose proof (proj1 (count_of_pos x l) Hin). lia.
  - apply count_of_absent, Hin.
Qed.

Lemma dict_update_keys_spec (keys new : list string) :
  NoDup keys ->
  NoDup (MainClass.dict_update_keys keys new)
  /\ forall x, x ∈ MainClass.dict_update_keys keys new <-> x ∈ keys \/ x ∈ new.
Proof.
  unfold MainClass.dict_update_keys. revert keys.
  induction new as [|k new IH]; intros keys Hnd; cbn.
  - split; [exact Hnd|]. intros x. split; [by left|]. intros [H|H]; [exact H|inversion H].
  - destruct (decide (k ∈ keys)) as [Hin|Hin].
    + destruct (IH keys Hnd) as (Hnd' & Hx). split; [exact Hnd'|].
      intros x. rewrite Hx, elem_of_cons. split; [tauto|].
      intros [H|[->|H]]; auto.
    + destruct (IH (keys ++ [k])) as (Hnd' & Hx).
      { apply NoDup_app. split; [exact Hnd|]. split; [|apply NoDup_singleton].
        intros x Hx ->%list_elem_of_singleton. contradiction. }
      split; [exact Hnd'|].
      intros x. rewrite Hx, elem_of_app, list_elem_of_singleton, elem_of_cons. tauto.
Qed.

(** X9.  [add_new_metrics] appends every name registered so far, not only
    the new ones: a call adds one occurrence to [total_metrics] of each name
    that was registered before or is registered now, and of no other name.
    So a name registered by an earlier call (['tfidf5'] after [__init__]) is
    listed once more after each later call. *)
Theorem add_new_metrics_counts (self : ScTriangulate) (names : list string)
    (m : string) :
  NoDup (add_metrics self) ->
  count_of m (total_metrics (MainClass.add_new_metrics self names))
  = (count_of m (total_metrics self)
     + if decide (m ∈ add_metrics self \/ m ∈ names) then 1 else 0)%nat
  /\ NoDup (add_metrics (MainClass.add_new_metrics self names))
  /\ (m ∈ add_metrics (MainClass.add_new_metrics self names)
      <-> m ∈ add_metrics self \/ m ∈ names).
Proof.
  intros Hnd. destruct (dict_update_keys_spec (add_metrics self) names Hnd) as (Hnd' & Hx).
  unfold MainClass.add_new_metrics, MainClass.set_metrics. cbn [total_metrics add_metrics].
  split; [|split; [exact Hnd'|apply Hx]].
  rewrite count_of_app. f_equal. rewrite (count_of_NoDup _ _ Hnd').
  destruct (decide (m ∈ _)) as [H|H]; destruct (decide (_ \/ _)) as [H'|H'];
    try reflexivity; exfalso.
  - apply H', Hx, H.
  - apply H, Hx, H'.
Qed.

(** ** [pruning] without a strategy *)

Lemma prefixing_rows (reference col : string) (obs : list obs_row)
    (col1 col2 : list string) :
  Forall2 (fun r v => cols r !! col = Some v) obs col1 ->
  Forall2 (fun r v => cols r !! reference = Some v) obs col2 ->
  Forall2 (fun r r' =>
             exists g p,
               cols r !! reference = Some g /\ cols r !! col = Some p
               /\ r' = set_cell "prefixed" (reference +:+ "@" +:+ g +:+ "|" +:+ p) r)
          obs
          (zip_with (fun r v => match v with
                                | Some v => set_cell "prefixed" v r
                                | None => del_cell "prefixed" r
                                end)
                    obs
                    (map Some (zip_with (fun c2 c1 => reference +:+ "@" +:+ c2 +:+ "|" +:+ c1)
                                        col2 col1))).
Proof.
  intros H1. revert col2. induction H1 as [|r p obs col1 Hp H1 IH]; intros col2 H2.
  - apply Forall2_nil_inv_l in H2 as ->. constructor.
  - apply Forall2_cons_inv_l in H2 as (g & col2' & Hg & H2 & ->).
    cbn. constructor; [exists g, p; auto|apply IH, H2].
Qed.

Lemma _prefixing_Ok (self self' : ScTriangulate) (col : string) :
  MainClass._prefixing self col = Ok self' ->
  self' = MainClass.set_obs (adata_obs self') self
  /\ Forall2 (fun r r' =>
                exists g p,
                  cols r !! reference self = Some g /\ cols r !! col = Some p
                  /\ r' = set_cell "prefixed"
                            (reference self +:+ "@" +:+ g +:+ "|" +:+ p) r)
             (adata_obs self) (adata_obs self').
Proof.
  unfold MainClass._prefixing. intros H.
  bind_inv H as col1 H1. bind_inv H as col2 H2. bind_inv H as obs Hobs.
  injection H as <-. cbn. split; [reflexivity|].
  unfold assign_column in Hobs. destruct (decide _); [|discriminate].
  injection Hobs as <-. apply prefixing_rows; by apply column_Ok.
Qed.

(** X10.  With [parallel=False], or with a method other than ['reference'],
    ['reassign'] and ['rank'], [pruning] runs no pruning at all: when it
    returns, the invalid list is the one it found and every cell is the cell
    it found, pruned label included, with the cell ['prefixed'] rewritten
    from the reference cluster and that pruned label. *)
Theorem pruning_without_strategy
    (knn : list obs_row -> list obs_row -> result (list string))
    (rank_pruning : ScTriangulate -> result (list obs_row * gmap string Q))
    (self : ScTriangulate) (method : string) (parallel : bool)
    (self' : ScTriangulate) (sheet : list string) :
  parallel = false
  \/ (method ≠ "reference" /\ method ≠ "reassign" /\ method ≠ "rank") ->
  MainClass.pruning knn rank_pruning self method parallel = Ok (self', sheet) ->
  invalid self' = invalid self
  /\ Forall2 (fun r r' =>
                exists g p,
                  cols r !! reference self = Some g /\ cols r !! "pruned" = Some p
                  /\ r' = set_cell "prefixed"
                            (reference self +:+ "@" +:+ g +:+ "|" +:+ p) r)
             (adata_obs self) (adata_obs self').
Proof.
  intros Hcase H. unfold MainClass.pruning in H.
  bind_inv H as self0 H0.
  assert (self0 = self) as ->.
  { destruct Hcase as [->|(N1 & N2 & N3)]; [by injection H0|].
    destruct parallel; [|by injection H0].
    destruct (decide _); [contradiction|].
    destruct (decide _); [contradiction|].
    destruct (decide _); [contradiction|]. by injection H0. }
  bind_inv H as self1 H1. bind_inv H as sheet' Hs. injection H as <- <-.
  apply _prefixing_Ok in H1 as (E & HF). split; [by rewrite E|exact HF].
Qed.

(** ** The slices of the parallel branch of [compute_shapley] *)

Lemma split_sizes_concat {A : Type} (sizes : list nat) (l : list A) :
  (length l <= sum_list sizes)%nat -> concat (MainClass.split_sizes sizes l) = l.
Proof.
  revert l. induction sizes as [|k sizes IH]; intros l H; cbn in *.
  - destruct l; [reflexivity|cbn in H; lia].
  - rewrite IH; [apply take_drop|]. rewrite length_drop. lia.
Qed.

Lemma split_sizes_length {A : Type} (sizes : list nat) (l : list A) :
  length (MainClass.split_sizes sizes l) = length sizes.
Proof.
  revert l. induction sizes as [|k sizes IH]; intros l; cbn; [reflexivity|].
  by rewrite IH.
Qed.

Lemma array_split_concat {A : Type} (l : list A) (cores : nat) :
  (0 < cores)%nat -> concat (MainClass.array_split l cores) = l.
Proof.
  intros Hc. unfold MainClass.array_split. apply split_sizes_concat.
  rewrite sum_list_with_app, !sum_list_replicate.
  pose proof (Nat.div_mod_eq (length l) cores).
  pose proof (Nat.mod_upper_bound (length l) cores). nia.
Qed.

Lemma array_split_length {A : Type} (l : list A) (cores : nat) :
  (0 < cores)%nat -> length (MainClass.array_split l cores) = cores.
Proof.
  intros Hc. unfold MainClass.array_split.
  rewrite split_sizes_length, length_app, !length_replicate.
  pose proof (Nat.mod_upper_bound (length l) cores). lia.
Qed.

Lemma omap_concat {A B : Type} (f : A -> option B) (ls : list (list A)) :
  omap f (concat ls) = concat (map (omap f) ls).
Proof.
  induction ls as [|l ls IH]; [reflexivity|]. cbn. by rewrite omap_app, IH.
Qed.

Lemma omap_map {A B C : Type} (f : B -> option C) (g : A -> B) (l : list A) :
  omap f (map g l) = omap (fun x => f (g x)) l.
Proof. induction l as [|x l IH]; [reflexivity|]. cbn. by rewrite IH. Qed.

Lemma omap_Some {A B : Type} (f : A -> option B) (h : A -> B) (l : list A) :
  (forall x, f x = Some (h x)) -> omap f l = map h l.
Proof.
  intros H. induction l as [|x l IH]; [reflexivity|]. cbn. by rewrite H, IH.
Qed.

Lemma omap_lookup_seq {A : Type} (l : list A) :
  omap (fun i => l !! i) (seq 0 (length l)) = l.
Proof.
  induction l as [|x l IH]; [reflexivity|].
  cbn [length seq omap]. cbn [lookup list_lookup]. cbn.
  f_equal. rewrite <- fmap_S_seq.
  change (S <$> seq 0 (length l)) with (map S (seq 0 (length l))).
  rewrite omap_map. exact IH.
Qed.

Lemma values_length (ks : list string) (df : list obs_row) (layer : list (list Q)) :
  values ks df = Ok layer -> length layer = length df.
Proof.
  unfold values. intros H. apply mapM_Ok in H. symmetry. eapply Forall2_length, H.
Qed.

(** X11.  The parallel branch of [compute_shapley] hands every cell to
    exactly one worker, in table order: it makes one slice per core, each
    slice has a layer for every annotation, and the layers of an annotation
    put end to end are the layer the sequential branch passes whole. *)
Theorem shapley_slices_recombine (cores : nat) (self : ScTriangulate)
    (tensors : list (list (list (list Q)))) :
  (0 < cores)%nat ->
  MainClass.run_shapley_inputs cores true self = Ok tensors ->
  exists data,
    MainClass.run_shapley_inputs cores false self = Ok [data]
    /\ length tensors = cores
    /\ Forall (fun tensor => length tensor = length (query self)) tensors
    /\ forall i layer, data !! i = Some layer ->
         concat (omap (fun tensor => tensor !! i) tensors) = layer.
Proof.
  intros Hc H. unfold MainClass.run_shapley_inputs in *.
  bind_inv H as sc Hsc. bind_inv H as data Hdata. injection H as <-.
  exists data. rewrite Hsc. cbn [Py.bind]. rewrite Hdata. cbn [Py.bind].
  split; [reflexivity|].
  split; [by rewrite length_map, array_split_length|].
  apply mapM_Ok in Hdata.
  split.
  { apply Forall_fmap, Forall_forall. intros sub _. cbn.
    rewrite length_map. symmetry. eapply Forall2_length, Hdata. }
  intros i layer Hi.
  rewrite omap_map.
  rewrite (omap_Some _ (fun sub_index => omap (fun j => layer !! j) sub_index)).
  2:{ intros sub. rewrite list_lookup_fmap, Hi. reflexivity. }
  rewrite <- omap_concat, array_split_concat by exact Hc.
  destruct (Forall2_lookup_r _ _ _ _ _ Hdata Hi) as (key & _ & Hv).
  rewrite <- (values_length _ _ _ Hv). apply omap_lookup_seq.
Qed.

(** ** [reassign_pruning] and the invalid clusters *)

Lemma cleanup_preserves (Q : string -> Prop) (subset out : list obs_row) :
  Prune.singleton_cleanup subset = Ok out ->
  Forall (fun r => exists p, cols r !! "pruned" = Some p /\ Q p) subset ->
  Forall (fun r => exists p, cols r !! "pruned" = Some p /\ Q p) out.
Proof.
  intros H HF.
  destruct (singleton_cleanup_labels _ _ H) as (pruned & most & Hp & Hm & Hout).
  destruct (most_abundant_cluster_spec _ _ Hm) as (Hin & _ & _).
  assert (forall p, p ∈ pruned -> Q p) as HQ.
  { intros p Hp'. destruct (column_elem_inv _ _ _ _ Hp Hp') as (r & Hr & Hrp).
    rewrite Forall_forall in HF. destruct (HF r Hr) as (p' & Hp'' & Hq). congruence. }
  eapply column_Forall; [exact Hout|].
  apply Forall_fmap, Forall_forall. intros p Hp'. cbn.
  destruct (decide _); apply HQ; assumption.
Qed.

Lemma raw_isin_false (inv : list string) (r : obs_row) (x : string) :
  Prune.raw_isin inv r = false -> cols r !! "raw" = Some x -> x ∉ inv.
Proof.
  unfold Prune.raw_isin. intros H Hx. rewrite Hx in H.
  by apply bool_decide_eq_false in H.
Qed.

Lemma reassign_invalid_column (size_dict : gmap string (gmap string Z))
    (obs : list obs_row) (supplied inv : list string) :
  Prune.reassign_invalid size_dict obs supplied = Ok inv ->
  exists raws, column "raw" obs = Ok raws.
Proof. unfold Prune.reassign_invalid. intros H. bind_inv H as raws Hraws. eauto. Qed.

(** X12.  [reassign_pruning] removes the invalid clusters from the table:
    when the classifier answers with labels of the cells it was fitted to,
    as a nearest-neighbour classifier does, no cell of the result carries a
    pruned label of the invalid list the function returns. *)
Theorem reassign_pruning_removes_invalid
    (knn : list obs_row -> list obs_row -> result (list string))
    (globals : gmap string pyval) (sctri : ScTriangulate)
    (obs' : list obs_row) (inv : list string) :
  (forall valid test out, knn valid test = Ok out ->
     forall x, x ∈ out -> exists r, r ∈ valid /\ cols r !! "raw" = Some x) ->
  Prune.reassign_pruning knn globals sctri = Ok (obs', inv) ->
  Forall (fun r' => exists p, cols r' !! "pruned" = Some p /\ p ∉ inv) obs'.
Proof.
  intros Hknn H.
  destruct (reassign_pruning_Ok _ _ _ _ _ H)
    as (obs & inv0 & predicted & test_obs & groups & bucket
        & _ & _ & Hinv & Hpred & Htest & Hgroups & Hbucket & ->).
  destruct (reassign_invalid_column _ _ _ _ Hinv) as (raws & Hraws).
  set (P := fun r' : obs_row => exists p, cols r' !! "pruned" = Some p /\ p ∉ inv).
  set (valid := filter (fun r => Prune.raw_isin inv r = false) (assign_ori obs)) in *.
  assert (Forall P (map Prune.copy_raw_to_pruned valid)) as Htrain.
  { apply Forall_fmap, Forall_forall. intros r Hr.
    apply list_elem_of_filter in Hr as [Hv Hr].
    destruct (column_elem_Some _ _ _ _ Hraws Hr) as (x & Hx & _).
    exists x. unfold Prune.copy_raw_to_pruned. rewrite Hx. cbn.
    split; [apply lookup_insert_eq|]. eapply raw_isin_false; eassumption. }
  assert (Forall P test_obs) as Htest'.
  { pose proof (assign_column_column _ _ _ _ predicted Htest eq_refl) as Hcol.
    eapply column_Forall; [exact Hcol|].
    apply Forall_forall. intros x Hx.
    destruct (Hknn _ _ _ Hpred x Hx) as (r & Hr & Hrx).
    apply list_elem_of_filter in Hr as [Hv _].
    eapply raw_isin_false; eassumption. }
  assert (Forall P (sort_values_ori (map Prune.copy_raw_to_pruned valid ++ test_obs)))
    as Hmod.
  { rewrite sort_values_ori_perm. apply Forall_app. auto. }
  rewrite sort_values_ori_perm.
  apply Forall_forall. intros r' Hr'.
  apply elem_of_concat in Hr' as (out & Hr' & Hout).
  apply mapM_Ok in Hbucket.
  assert (exists g, g ∈ groups /\ Prune.singleton_cleanup g.2 = Ok out) as (g & Hg & Hc).
  { clear -Hbucket Hout. induction Hbucket as [|g o gs os Hgo HF IH]; [inversion Hout|].
    apply elem_of_cons in Hout as [->|Hout].
    - exists g. split; [apply list_elem_of_here|exact Hgo].
    - destruct (IH Hout) as (g' & Hg' & Hc'). exists g'.
      split; [apply list_elem_of_further, Hg'|exact Hc']. }
  destruct (groupby_group _ _ _ _ Hgroups Hg) as (Hg2 & _).
  assert (Forall P g.2) as HPg.
  { rewrite Hg2. apply Forall_forall. intros r Hr.
    apply list_elem_of_filter in Hr as [_ Hr].
    rewrite Forall_forall in Hmod. apply Hmod, Hr. }
  pose proof (cleanup_preserves (fun p => p ∉ inv) _ _ Hc HPg) as HPout.
  rewrite Forall_forall in HPout. apply HPout, Hr'.
Qed.

(** ** The raw labels of [run_assign] *)

Lemma split_no_sep (sep : ascii) (s : string) :
  has_char sep s = false -> Py.split sep s = [s].
Proof.
  induction s as [|c s IH]; [reflexivity|]. cbn.
  intros H. apply orb_false_iff in H as [Hc Hs].
  rewrite Hc, (IH Hs). reflexivity.
Qed.

Lemma split_app_sep (sep : ascii) (a b : string) :
  has_char sep a = false ->
  Py.split sep (a +:+ String sep b) = a :: Py.split sep b.
Proof.
  induction a as [|c a IH].
  - intros _. change ("" +:+ String sep b) with (String sep b).
    cbn [Py.split]. by rewrite Ascii.eqb_refl.
  - intros H. cbn [has_char] in H. apply orb_false_iff in H as [Hc Ha].
    change (String c a +:+ String sep b) with (String c (a +:+ String sep b)).
    cbn [Py.split]. rewrite Hc, (IH Ha). reflexivity.
Qed.

Lemma size_of_label (size_dict : gmap string (gmap string Z)) (name cluster : string) :
  has_char "@" name = false -> has_char "@" cluster = false ->
  Prune.size_of size_dict (name +:+ "@" +:+ cluster)
  = (let! sizes := of_option (size_dict !! name) (KeyError name) in
     of_option (sizes !! cluster) (KeyError cluster)).
Proof.
  intros Hn Hc. unfold Prune.size_of.
  change (name +:+ "@" +:+ cluster) with (name +:+ String "@" cluster).
  rewrite (split_app_sep "@" name cluster Hn), (split_no_sep "@" cluster Hc).
  cbn. destruct (size_dict !! name); reflexivity.
Qed.

Lemma run_assign_Ok (obs obs' : list obs_row) :
  MainClass.run_assign obs = Ok obs' ->
  Forall2 (fun r r' =>
             exists name cluster,
               cols r !! "final_annotation" = Some name
               /\ cols r !! name = Some cluster
               /\ r' = set_cell "raw" (name +:+ "@" +:+ cluster) r)
          obs obs'.
Proof.
  unfold MainClass.run_assign. intros H. bind_inv H as assign Ha.
  unfold assign_column in H. destruct (decide _) as [_|]; [|discriminate].
  injection H as <-. apply mapM_Ok in Ha.
  induction Ha as [|r a obs assign Hra Ha IH]; [constructor|].
  cbn. constructor; [|exact IH].
  bind_inv Hra as name Hname. bind_inv Hra as cluster Hcluster.
  injection Hra as <-. unfold cell in *.
  apply of_option_Ok in Hname, Hcluster. exists name, cluster. auto.
Qed.

(** X13.  [run_assign] writes into ['raw'] the label [name@cluster] of the
    annotation named in ['final_annotation'] and the cell's cluster in it,
    and changes nothing else.  When neither part holds an ['@'], the size
    lookup of the pruning functions reads the label back as that annotation
    and that cluster. *)
Theorem run_assign_labels (obs obs' : list obs_row)
    (size_dict : gmap string (gmap string Z)) :
  MainClass.run_assign obs = Ok obs' ->
  Forall2 (fun r r' =>
             exists name cluster,
               cols r !! "final_annotation" = Some name
               /\ cols r !! name = Some cluster
               /\ r' = set_cell "raw" (name +:+ "@" +:+ cluster) r
               /\ (has_char "@" name = false -> has_char "@" cluster = false ->
                   Prune.size_of size_dict (name +:+ "@" +:+ cluster)
                   = (let! sizes := of_option (size_dict !! name) (KeyError name) in
                      of_option (sizes !! cluster) (KeyError cluster))))
          obs obs'.
Proof.
  intros H. eapply Forall2_impl; [apply run_assign_Ok, H|].
  intros r r' (name & cluster & Hn & Hc & Hr). exists name, cluster.
  repeat split; try assumption. apply size_of_label.
Qed.

(** ** The names [_check_adata] rewrites *)

Lemma has_char_replace_old (old : ascii) (s : string) :
  old ≠ "_"%char -> has_char old (Py.str_replace old "_" s) = false.
Proof.
  intros Hne. induction s as [|c s IH]; [reflexivity|].
  cbn [Py.str_replace]. destruct (Ascii.eqb c old) eqn:E.
  - change ("_" +:+ Py.str_replace old "_" s)
      with (String "_" (Py.str_replace old "_" s)).
    cbn [has_char]. rewrite IH, orb_false_r.
    apply Ascii.eqb_neq. congruence.
  - cbn [has_char]. by rewrite E, IH.
Qed.

Lemma has_char_replace_other (c old : ascii) (s : string) :
  c ≠ "_"%char -> has_char c s = false ->
  has_char c (Py.str_replace old "_" s) = false.
Proof.
  intros Hne. induction s as [|a s IH]; [reflexivity|].
  cbn [has_char]. intros H. apply orb_false_iff in H as [Ha Hs].
  cbn [Py.str_replace]. destruct (Ascii.eqb a old).
  - change ("_" +:+ Py.str_replace old "_" s)
      with (String "_" (Py.str_replace old "_" s)).
    cbn [has_char]. rewrite (IH Hs), orb_false_r.
    apply Ascii.eqb_neq. congruence.
  - cbn [has_char]. by rewrite Ha, (IH Hs).
Qed.

Lemma has_char_replace_keep (c old : ascii) (s : string) :
  c ≠ old -> has_char c s = true ->
  has_char c (Py.str_replace old "_" s) = true.
Proof.
  intros Hne. induction s as [|a s IH]; [discriminate|].
  cbn [has_char]. intros H. cbn [Py.str_replace].
  destruct (Ascii.eqb a old) eqn:E.
  - apply Ascii.eqb_eq in E as ->.
    assert (Ascii.eqb old c = false) as N by (apply Ascii.eqb_neq; congruence).
    rewrite N in H. cbn in H.
    change ("_" +:+ Py.str_replace old "_" s)
      with (String "_" (Py.str_replace old "_" s)).
    cbn [has_char]. rewrite (IH H). apply orb_true_r.
  - cbn [has_char]. apply orb_true_iff in H as [H|H].
    + by rewrite H.
    + rewrite (IH H). apply orb_true_r.
Qed.

Lemma str_replace_absent (old : ascii) (new s : string) :
  has_char old s = false -> Py.str_replace old new s = s.
Proof.
  induction s as [|a s IH]; [reflexivity|].
  cbn [has_char]. intros H. apply orb_false_iff in H as [Ha Hs].
  cbn [Py.str_replace]. by rewrite Ha, (IH Hs).
Qed.

Lemma sanitize_unfold (v : string) :
  sanitize v
  = Py.str_replace " " "_"
      (Py.str_replace "$" "_" (Py.str_replace "@" "_" (Py.str_replace "/" "_" v))).
Proof. reflexivity. Qed.

Lemma clean_sanitize (v : string) : clean (sanitize v).
Proof.
  intros c Hc. rewrite sanitize_unfold. unfold MainClass.invalid_chars in Hc.
  repeat (apply elem_of_cons in Hc as [->|Hc]); [| | | |inversion Hc].
  - do 3 (apply has_char_replace_other; [discriminate|]).
    apply has_char_replace_old. discriminate.
  - do 2 (apply has_char_replace_other; [discriminate|]).
    apply has_char_replace_old. discriminate.
  - apply has_char_replace_other; [discriminate|].
    apply has_char_replace_old. discriminate.
  - apply has_char_replace_old. discriminate.
Qed.

Lemma sanitize_clean (v : string) : clean v -> sanitize v = v.
Proof.
  intros H. rewrite sanitize_unfold.
  unfold clean, MainClass.invalid_chars in H.
  rewrite (str_replace_absent "/" "_" v) by (apply H; repeat constructor).
  rewrite (str_replace_absent "@" "_" v) by (apply H; repeat constructor).
  rewrite (str_replace_absent "$" "_" v) by (apply H; repeat constructor).
  apply str_replace_absent, H. repeat constructor.
Qed.

Lemma sanitize_idempotent (v : string) : sanitize (sanitize v) = sanitize v.
Proof. apply sanitize_clean, clean_sanitize. Qed.

Lemma Forall2_compose {A B C : Type} (R1 : A -> B -> Prop) (R2 : B -> C -> Prop)
    (R3 : A -> C -> Prop) (l1 : list A) (l2 : list B) (l3 : list C) :
  (forall x y z, R1 x y -> R2 y z -> R3 x z) ->
  Forall2 R1 l1 l2 -> Forall2 R2 l2 l3 -> Forall2 R3 l1 l3.
Proof.
  intros HR H1. revert l3. induction H1 as [|x y l1 l2 Hxy H1 IH]; intros l3 H2.
  - apply Forall2_nil_inv_l in H2 as ->. constructor.
  - apply Forall2_cons_inv_l in H2 as (z & l3' & Hyz & H2 & ->).
    constructor; [eapply HR; eassumption|apply IH, H2].
Qed.

Lemma assign_column_map (key : string) (f : string -> string)
    (obs obs' : list obs_row) (vs : list string) :
  column key obs = Ok vs ->
  assign_column key (map (fun v => Some (f v)) vs) obs = Ok obs' ->
  Forall2 (rewritten key f) obs obs'.
Proof.
  intros Hvs H. unfold assign_column in H.
  destruct (decide _) as [_|]; [|discriminate]. injection H as <-.
  apply column_Ok in Hvs.
  induction Hvs as [|r v obs vs Hrv Hvs IH]; [constructor|].
  cbn. constructor; [exists v; auto|exact IH].
Qed.

Lemma set_cell_set_cell (k a b : string) (r : obs_row) :
  set_cell k b (set_cell k a r) = set_cell k b r.
Proof. unfold set_cell. cbn. f_equal. apply insert_insert_eq. Qed.

Lemma rewritten_compose (key : string) (f g : string -> string) (r1 r2 r3 : obs_row) :
  rewritten key f r1 r2 -> rewritten key g r2 r3 ->
  rewritten key (fun v => g (f v)) r1 r3.
Proof.
  intros (v & Hv & ->) (w & Hw & ->). cbn in Hw. rewrite lookup_insert_eq in Hw.
  injection Hw as <-. exists v. split; [exact Hv|apply set_cell_set_cell].
Qed.

Lemma replace_in_column_Ok (key : string) (obs : list obs_row) (ichar : ascii)
    (obs' : list obs_row) :
  MainClass.replace_in_column key obs ichar = Ok obs' ->
  Forall2 (rewritten key (Py.str_replace ichar "_")) obs obs'.
Proof.
  unfold MainClass.replace_in_column. intros H. bind_inv H as vs Hvs.
  exact (assign_column_map key _ obs obs' vs Hvs H).
Qed.

Lemma replace_invalid_chars_Ok (key : string) (obs obs' : list obs_row) :
  Py.foldM (MainClass.replace_in_column key) obs MainClass.invalid_chars = Ok obs' ->
  Forall2 (rewritten key sanitize) obs obs'.
Proof.
  unfold MainClass.invalid_chars. cbn [Py.foldM]. intros H.
  bind_inv H as o1 H1. bind_inv H as o2 H2. bind_inv H as o3 H3. bind_inv H as o4 H4.
  injection H as <-.
  apply replace_in_column_Ok in H1, H2, H3, H4.
  pose proof (Forall2_compose _ _ _ _ _ _ (rewritten_compose key _ _) H1 H2) as H12.
  pose proof (Forall2_compose _ _ _ _ _ _ (rewritten_compose key _ _) H12 H3) as H123.
  exact (Forall2_compose _ _ _ _ _ _ (rewritten_compose key _ _) H123 H4).
Qed.

Lemma astype_str_id (obs : list obs_row) (key : string) (obs' : list obs_row) :
  MainClass.astype_str obs key = Ok obs' -> obs' = obs.
Proof.
  unfold MainClass.astype_str. intros H. bind_inv H as vs Hvs.
  pose proof (assign_column_map key (fun v => v) obs obs' vs Hvs H) as HF.
  clear -HF. induction HF as [|r r' obs obs' (v & Hv & ->) HF IH]; [reflexivity|].
  rewrite IH. f_equal. apply set_cell_id, Hv.
Qed.

Lemma astype_str_loop (obs : list obs_row) (keys : list string) (obs' : list obs_row) :
  Py.foldM MainClass.astype_str obs keys = Ok obs' -> obs' = obs.
Proof.
  revert obs. induction keys as [|key keys IH]; intros obs H; cbn in H.
  - by injection H.
  - bind_inv H as o1 H1. apply astype_str_id in H1 as ->. apply IH, H.
Qed.

Lemma replace_cluster_names_Ok (keys : list string) (obs obs' : list obs_row) :
  Py.foldM (fun obs key =>
              Py.foldM (MainClass.replace_in_column key) obs MainClass.invalid_chars)
           obs keys = Ok obs' ->
  Forall2 (cluster_names_rewritten keys) obs obs'.
Proof.
  revert obs. induction keys as [|key keys IH]; intros obs H; cbn [Py.foldM] in H.
  - injection H as <-. apply Forall_Forall2_diag, Forall_forall. intros r _.
    repeat split; try reflexivity. intros Hk. inversion Hk.
  - bind_inv H as o1 H1. apply replace_invalid_chars_Ok in H1. apply IH in H.
    eapply Forall2_compose; [|exact H1|exact H].
    intros r r1 r' (v & Hv & ->) (Hb & Ho & Hn & Hk).
    split; [exact Hb|]. split; [exact Ho|]. split; [exact Hn|].
    intros k. destruct (Hk k) as [Hin Hout]. cbn [set_cell cols] in Hin, Hout.
    split.
    + intros Hkk. destruct (decide (k = key)) as [->|Nk].
      * exists v. split; [exact Hv|].
        destruct (decide (key ∈ keys)) as [Hd|Hd].
        -- destruct (Hin Hd) as (v1 & Hv1 & Hr'). rewrite lookup_insert_eq in Hv1.
           injection Hv1 as <-. by rewrite sanitize_idempotent in Hr'.
        -- rewrite (Hout Hd). apply lookup_insert_eq.
      * apply elem_of_cons in Hkk as [?|Hkk]; [contradiction|].
        destruct (Hin Hkk) as (v1 & Hv1 & Hr').
        rewrite lookup_insert_ne in Hv1 by congruence. eauto.
    + intros Hkk. apply not_elem_of_cons in Hkk as [Nk Hkk].
      rewrite (Hout Hkk). apply lookup_insert_ne. congruence.
Qed.

(** X14.  After the first two steps of [_check_adata] the cluster names of
    every queried annotation and of the reference hold none of the
    characters ['/'], ['@'], ['$'] and the blank: each is the old name with
    these characters replaced by ['_'], so a name that held none is kept.
    No other cell of the table changes. *)
Theorem check_adata_cluster_names (self : ScTriangulate) (obs' : list obs_row) :
  MainClass._check_adata_obs self = Ok obs' ->
  Forall2 (fun r r' =>
             barcode r' = barcode r /\ ori r' = ori r /\ nums r' = nums r
             /\ forall k,
                  (k ∈ MainClass.all_keys self ->
                   exists v,
                     cols r !! k = Some v
                     /\ cols r' !! k = Some (sanitize v)
                     /\ clean (sanitize v)
                     /\ (clean v -> sanitize v = v))
                  /\ (k ∉ MainClass.all_keys self -> cols r' !! k = cols r !! k))
          (adata_obs self) obs'.
Proof.
  unfold MainClass._check_adata_obs. intros H. bind_inv H as o1 H1.
  apply astype_str_loop in H1 as ->. apply replace_cluster_names_Ok in H.
  eapply Forall2_impl; [exact H|].
  intros r r' (Hb & Ho & Hn & Hk). repeat split; try assumption.
  - intros Hin. destruct (proj1 (Hk k) Hin) as (v & Hv & Hr'). exists v.
    repeat split; try assumption; [apply clean_sanitize|apply sanitize_clean].
  - apply (Hk k).
Qed.

(** ** The columns [_check_adata] renames *)

Lemma rename_column_same (key : string) (columns : list string) :
  MainClass.rename_column key key columns = columns.
Proof.
  unfold MainClass.rename_column. apply map_id_elem. intros c _.
  by destruct (decide _) as [->|].
Qed.

Lemma rename_column_absent (key new : string) (columns : list string) :
  key ∉ columns -> MainClass.rename_column key new columns = columns.
Proof.
  intros H. unfold MainClass.rename_column. apply map_id_elem. intros c Hc.
  destruct (decide _) as [->|]; [contradiction|reflexivity].
Qed.

Lemma rename_column_gone (key new : string) (columns : list string) :
  new ≠ key -> key ∉ MainClass.rename_column key new columns.
Proof.
  intros Hne Hin. unfold MainClass.rename_column in Hin.
  apply list_elem_of_fmap in Hin as (c & E & _).
  destruct (decide _); congruence.
Qed.

(** The loop for one key, from the first of the characters it holds. *)
Lemma rename_key_first (columns : list string) (key : string)
    (pre : list ascii) (ichar : ascii) (post : list ascii) :
  MainClass.invalid_chars = pre ++ ichar :: post ->
  Forall (fun c => has_char c key = false) pre ->
  has_char ichar key = true ->
  Py.str_replace ichar "_" key ≠ key
  /\ MainClass.rename_key columns key
     = MainClass.rename_column key (Py.str_replace ichar "_" key) columns.
Proof.
  intros E Hpre Hichar.
  assert (ichar ≠ "_"%char) as Hu.
  { intros ->. assert ("_"%char ∈ MainClass.invalid_chars) as Hin
      by (rewrite E; apply elem_of_app; right; apply list_elem_of_here).
    unfold MainClass.invalid_chars in Hin.
    repeat (apply elem_of_cons in Hin as [Hin|Hin]; [discriminate|]).
    inversion Hin. }
  assert (Py.str_replace ichar "_" key ≠ key) as Hne.
  { intros Heq. pose proof (has_char_replace_old ichar key Hu) as H.
    rewrite Heq in H. congruence. }
  split; [exact Hne|].
  unfold MainClass.rename_key. rewrite E, foldl_app. cbn [foldl].
  assert (foldl (fun columns ichar =>
                   MainClass.rename_column key (Py.str_replace ichar "_" key) columns)
                columns pre = columns) as ->.
  { clear E. induction Hpre as [|c pre Hc Hpre IH]; [reflexivity|].
    cbn [foldl]. rewrite (str_replace_absent c "_" key Hc), rename_column_same.
    exact IH. }
  pose proof (rename_column_gone key _ columns Hne) as Hgone.
  revert Hgone. generalize (MainClass.rename_column key (Py.str_replace ichar "_" key) columns).
  clear. induction post as [|c post IH]; intros cs Hgone; [reflexivity|].
  cbn [foldl]. rewrite (rename_column_absent key _ cs Hgone). apply IH, Hgone.
Qed.

(** X15.  The loop of [_check_adata] that renames a key replaces one kind of
    character only: the first of ['/'], ['@'], ['$'] and the blank that the
    key holds.  After that replacement no column bears the key any more, so
    the later replacements find nothing to rename, and the characters of the
    later kinds stay in the new name. *)
Theorem rename_key_first_only (columns : list string) (key : string)
    (pre : list ascii) (ichar : ascii) (post : list ascii) :
  MainClass.invalid_chars = pre ++ ichar :: post ->
  Forall (fun c => has_char c key = false) pre ->
  has_char ichar key = true ->
  MainClass.rename_key columns key
  = MainClass.rename_column key (Py.str_replace ichar "_" key) columns
  /\ (key ∉ MainClass.rename_key columns key)
  /\ forall c, c ∈ post -> has_char c key = true ->
       has_char c (Py.str_replace ichar "_" key) = true.
Proof.
  intros E Hpre Hichar.
  destruct (rename_key_first columns key pre ichar post E Hpre Hichar) as [Hne Hr].
  split; [exact Hr|]. split; [rewrite Hr; apply rename_column_gone, Hne|].
  intros c Hc Hck. apply has_char_replace_keep; [|exact Hck].
  assert (NoDup MainClass.invalid_chars) as Hnd.
  { unfold MainClass.invalid_chars.
    repeat (apply NoDup_cons; split;
            [repeat (apply not_elem_of_cons; split; [discriminate|]);
             apply not_elem_of_nil|]).
    apply NoDup_nil_2. }
  intros ->. rewrite E in Hnd. apply NoDup_app in Hnd as (_ & _ & Hnd).
  apply NoDup_cons in Hnd as [Hnd _]. contradiction.
Qed.

(** ** [_add_to_uns] *)

(** X16.  [_add_to_uns] stores [collect[name]] under [uns[name][key]] and
    leaves every other entry of [uns] as it was; but when [collect] has no
    entry [name] it raises [KeyError] only after its handler has replaced
    [uns[name]] by an empty dictionary, and every entry stored under [name]
    is lost. *)
Theorem add_to_uns_entries (V : Type) (uns : gmap string (gmap string V))
    (name key : string) (collect : gmap string V) :
  let result := MainClass._add_to_uns V uns name key collect in
  match collect !! name with
  | Some v =>
      result.2 = None
      /\ result.1 !! name ≫= (fun d => d !! key) = Some v
      /\ forall n k, (n, k) ≠ (name, key) ->
           result.1 !! n ≫= (fun d => d !! k) = uns !! n ≫= (fun d => d !! k)
  | None =>
      result.2 = Some (KeyError name)
      /\ result.1 !! name = Some ∅
      /\ forall n, n ≠ name -> result.1 !! n = uns !! n
  end.
Proof.
  unfold MainClass._add_to_uns. cbv zeta.
  destruct (collect !! name) as [v|] eqn:Ec; cbn [of_option Py.bind].
  - assert (forall d : gmap string V,
              (<[name := <[key := v]> d]> uns !! name ≫= (fun d => d !! key) = Some v)
              /\ forall n k, (n, k) ≠ (name, key) ->
                   (uns !! name = Some d \/ (uns !! name = None /\ d = ∅)) ->
                   <[name := <[key := v]> d]> uns !! n ≫= (fun d => d !! k)
                   = uns !! n ≫= (fun d => d !! k)) as Hins.
    { intros d. split.
      - rewrite lookup_insert_eq. cbn. apply lookup_insert_eq.
      - intros n k Hnk Hd. destruct (decide (n = name)) as [->|Nn].
        + rewrite lookup_insert_eq. cbn.
          rewrite lookup_insert_ne by congruence.
          destruct Hd as [->|[-> ->]]; [reflexivity|apply lookup_empty].
        + by rewrite lookup_insert_ne. }
    destruct (uns !! name) as [d|] eqn:Eu; cbn [of_option Py.bind fst snd].
    + destruct (Hins d) as [H1 H2]. split; [reflexivity|]. split; [exact H1|].
      intros n k Hnk. apply H2; auto.
    + rewrite insert_insert_eq. destruct (Hins ∅) as [H1 H2].
      split; [reflexivity|]. split; [exact H1|].
      intros n k Hnk. apply H2; auto.
  - cbn [fst snd]. split; [reflexivity|]. split; [apply lookup_insert_eq|].
    intros n Hn. by rewrite lookup_insert_ne.
Qed.

(** ** [pruning] with the reference strategy *)

Lemma call_reference_pruning :
  MainClass.call prune_globals "reference_pruning" 3 [] = Ok tt.
Proof. vm_compute. reflexivity. Qed.

(** X17.  What [pruning(method='reference')] leaves in the table, for a
    run that reads no column ['ori']: the reference annotation is not named
    ['ori'], and no raw label is a cluster of an annotation of that name.
    The column ['ori'] is written: it holds the row numbers, from 0 on.
    Each cell gets as pruned label a raw label of its reference cluster or
    the label of that reference cluster, and as ['prefixed'] the reference
    cluster and that pruned label; its barcode, its metric values and its
    cells in the columns other than ['pruned'], ['prefixed'] and ['ori'] are
    kept, the table order too.  The invalid list is not touched. *)
Theorem pruning_reference
    (knn : list obs_row -> list obs_row -> result (list string))
    (rank_pruning : ScTriangulate -> result (list obs_row * gmap string Q))
    (self self' : ScTriangulate) (sheet : list string) :
  reference self ≠ "pruned" ->
  reference self ≠ "ori" ->
  Forall (fun r => forall x, cols r !! "raw" = Some x ->
                     Py.split "@" x !! 0%nat ≠ Some "ori")
         (adata_obs self) ->
  MainClass.pruning knn rank_pruning self "reference" true = Ok (self', sheet) ->
  invalid self' = invalid self
  /\ reference self' = reference self
  /\ map ori (adata_obs self') = seq 0 (length (adata_obs self))
  /\ Forall2 (fun r r' =>
                barcode r' = barcode r
                /\ (forall k, k ≠ "ori" -> nums r' !! k = nums r !! k)
                /\ (forall k, k ≠ "pruned" -> k ≠ "prefixed" -> k ≠ "ori" ->
                      cols r' !! k = cols r !! k)
                /\ exists g p,
                     cols r !! reference self = Some g
                     /\ cols r' !! "pruned" = Some p
                     /\ (p = reference self +:+ "@" +:+ g
                         \/ p ∈ group_labels "raw" (reference self) g (adata_obs self))
                     /\ cols r' !! "prefixed"
                        = Some (reference self +:+ "@" +:+ g +:+ "|" +:+ p))
             (adata_obs self) (adata_obs self').
Proof.
  intros Href _ _ H. unfold MainClass.pruning in H.
  bind_inv H as self0 H0. cbn [negb] in H0.
  destruct (decide ("reference" = "reference")) as [_|]; [|contradiction].
  rewrite call_reference_pruning in H0. cbn [Py.bind] in H0.
  bind_inv H0 as obs1 Hobs1. injection H0 as <-.
  bind_inv H as self1 H1. bind_inv H as sheet' Hs. injection H as <- <-.
  apply _prefixing_Ok in H1 as (E & HF). cbn in HF.
  split; [by rewrite E|]. split; [by rewrite E|].
  apply reference_pruning_rows in Hobs1.
  split.
  { rewrite <- (assign_ori_ori (adata_obs self)).
    assert (Forall2 (fun r r' => ori r' = ori r)
                    (assign_ori (adata_obs self)) (adata_obs self1)) as Hori.
    { eapply Forall2_compose; [| exact Hobs1 | exact HF].
      intros r0 r1 r' ((_ & Ho & _) & _) (g1 & p1 & _ & _ & ->). exact Ho. }
    clear -Hori. induction Hori as [|r r' l l' Hr _ IH]; [reflexivity |].
    cbn. by rewrite Hr, IH. }
  unfold assign_ori in Hobs1.
  match goal with
  | |- Forall2 ?R0 _ _ =>
      apply (Forall2_imap_l R0 R0 set_ori);
        [|eapply Forall2_compose; [|exact Hobs1|exact HF]]
  end.
  - intros i r r' Hr. exact Hr.
  - intros r0 r1 r' ((Hb & _ & Hn & Hk) & g & p & Hg & Hp & Hcase)
           (g1 & p1 & Hg1 & Hp1 & ->).
    rewrite Hk in Hg1 by exact Href.
    assert (g1 = g) as -> by congruence. assert (p1 = p) as -> by congruence.
    cbn. split; [exact Hb|]. split; [intros k _; by rewrite Hn|]. split.
    + intros k K1 K2 _. rewrite lookup_insert_ne by congruence. apply Hk, K1.
    + exists g, p. split; [exact Hg|]. split.
      * rewrite lookup_insert_ne by discriminate. exact Hp.
      * split; [exact Hcase|apply lookup_insert_eq].
Qed.

(** ** The pairs the celltype sheet lists *)

Lemma NoDup_concat_keys {A : Type} (f : A -> list (string * string))
    (key : A -> string) (l : list A) :
  NoDup (map key l) ->
  (forall x, x ∈ l -> NoDup (f x) /\ forall q, q ∈ f x -> q.1 = key x) ->
  NoDup (concat (map f l)).
Proof.
  induction l as [|x l IH]; intros Hnd Hf; cbn; [apply NoDup_nil_2|].
  cbn in Hnd. apply NoDup_cons in Hnd as [Hx Hnd].
  apply NoDup_app. split; [apply (Hf x), list_elem_of_here|]. split.
  - intros q Hq Hq'. apply elem_of_concat in Hq' as (qs & Hq' & Hqs).
    apply list_elem_of_fmap in Hqs as (y & -> & Hy).
    apply Hx. apply list_elem_of_fmap. exists y. split; [|exact Hy].
    destruct (Hf x (list_elem_of_here _ _)) as [_ H1].
    destruct (Hf y (list_elem_of_further _ _ _ Hy)) as [_ H2].
    rewrite <- (H1 q Hq). apply H2, Hq'.
  - apply IH; [exact Hnd|]. intros y Hy. apply Hf, list_elem_of_further, Hy.
Qed.

Lemma sheet_lines (reference : string) (groups : list (string * list obs_row))
    (lines : list (list string)) :
  Forall2 (fun g ls =>
             (let! pruned := column "pruned" g.2 in
              Ok (map (fun reassign =>
                         (reference +:+ "@" +:+ g.1) +:+ MainClass.tab +:+ reassign
                         +:+ MainClass.newline)
                      (unique pruned))) = Ok ls)
          groups lines ->
  concat lines
  = map (fun gp => (reference +:+ "@" +:+ gp.1) +:+ MainClass.tab +:+ gp.2
                   +:+ MainClass.newline)
        (concat (map (fun g => map (fun p => (g.1, p))
                                   (unique (omap (fun r => cols r !! "pruned") g.2)))
                     groups))
  /\ forall g, g ∈ groups -> exists pruned, column "pruned" g.2 = Ok pruned.
Proof.
  induction 1 as [|g ls groups lines Hg HF (IH1 & IH2)].
  - split; [reflexivity|]. intros g Hg. inversion Hg.
  - bind_inv Hg as pruned Hp. injection Hg as <-. split.
    + cbn [concat map]. rewrite map_app, IH1. f_equal.
      rewrite (column_omap _ _ _ Hp), map_map. reflexivity.
    + intros g' Hg'. apply elem_of_cons in Hg' as [->|Hg']; [eauto|apply IH2, Hg'].
Qed.

(** X18.  The celltype sheet lists, after its header, one line for each pair
    of a reference cluster and a pruned label that some cell of the table
    carries, and no pair twice. *)
Theorem celltype_sheet_pairs (self : ScTriangulate) (sheet : list string) :
  MainClass.celltype_sheet self = Ok sheet ->
  exists pairs : list (string * string),
    NoDup pairs
    /\ sheet
       = ("reference" +:+ MainClass.tab +:+ "cell_cluster" +:+ MainClass.tab
          +:+ "choice" +:+ MainClass.newline)
         :: map (fun gp => (reference self +:+ "@" +:+ gp.1) +:+ MainClass.tab
                           +:+ gp.2 +:+ MainClass.newline) pairs
    /\ forall g p,
         (g, p) ∈ pairs
         <-> exists r, r ∈ adata_obs self
               /\ cols r !! reference self = Some g
               /\ cols r !! "pruned" = Some p.
Proof.
  unfold MainClass.celltype_sheet. intros H.
  bind_inv H as groups Hgroups. bind_inv H as lines Hlines. injection H as <-.
  apply mapM_Ok in Hlines. apply sheet_lines in Hlines as (Hconcat & Hcols).
  destruct (groupby_Ok _ _ _ Hgroups) as (keys & Hkeys & Hgs & _).
  eexists. split; [|split; [rewrite Hconcat; reflexivity|]].
  - apply (NoDup_concat_keys _ fst).
    + rewrite Hgs, map_map. cbn. rewrite map_id.
      rewrite sort_keys_perm. apply NoDup_unique.
    + intros g Hg. split.
      * apply NoDup_fmap_2; [|apply NoDup_unique]. intros p1 p2 [= ->]. reflexivity.
      * intros q Hq. apply list_elem_of_fmap in Hq as (p & -> & _). reflexivity.
  - intros g p. split.
    + intros Hin. apply elem_of_concat in Hin as (qs & Hq & Hqs).
      apply list_elem_of_fmap in Hqs as (grp & -> & Hgrp).
      apply list_elem_of_fmap in Hq as (p' & [= -> ->] & Hp').
      apply (proj1 (elem_of_unique _ _)) in Hp'.
      destruct (Hcols grp Hgrp) as (pruned & Hpruned).
      rewrite (column_omap _ _ _ Hpruned) in Hp'.
      destruct (column_elem_inv _ _ _ _ Hpruned Hp') as (r & Hr & Hrp).
      destruct (groupby_group _ _ _ _ Hgroups Hgrp) as (Hg2 & _).
      rewrite Hg2 in Hr. apply list_elem_of_filter in Hr as [Hr1 Hr2].
      exists r. auto.
    + intros (r & Hr & Hg & Hp).
      set (grp := (g, filter (fun r => cols r !! reference self = Some g)
                             (adata_obs self))).
      assert (grp ∈ groups) as Hgrp.
      { rewrite Hgs. apply list_elem_of_fmap. exists g. split; [reflexivity|].
        rewrite sort_keys_perm. apply elem_of_unique.
        exact (column_elem _ _ _ _ _ Hkeys Hr Hg). }
      destruct (Hcols grp Hgrp) as (pruned & Hpruned).
      apply elem_of_concat. eexists. split.
      2:{ apply list_elem_of_fmap. exists grp. split; [reflexivity|exact Hgrp]. }
      apply list_elem_of_fmap. exists p. split; [reflexivity|].
      apply elem_of_unique. rewrite (column_omap _ _ _ Hpruned).
      eapply column_elem; [exact Hpruned| |exact Hp].
      apply list_elem_of_filter. auto.
Qed.

(** ** When the data of [compute_shapley] can be read *)

Lemma list_remove_total (x : string) (l : list string) :
  (exists r, Py.list_remove x l = Ok r) <-> x ∈ l.
Proof.
  induction l as [|y l IH]; cbn.
  - split; [intros (r & H); discriminate|intros H; inversion H].
  - destruct (decide (y = x)) as [->|N].
    + split; [intros _; apply list_elem_of_here|eauto].
    + rewrite elem_of_cons, <- IH. split.
      * intros (r & H). bind_inv H as r' Hr'. eauto.
      * intros [->|(r & ->)]; [contradiction|cbn; eauto].
Qed.

Lemma mapM_returns {A B : Type} (f : A -> result B) (l : list A) :
  (exists ys, mapM f l = Ok ys) <-> forall x, x ∈ l -> exists y, f x = Ok y.
Proof.
  split.
  - intros (ys & H) x Hx. apply mapM_Ok in H.
    exact (Forall2_elem_l (fun x y => f x = Ok y) l ys x H Hx).
  - intros H. apply mapM_total, Forall_forall, H.
Qed.

Lemma values_returns (ks : list string) (df : list obs_row) :
  (exists layer, values ks df = Ok layer)
  <-> forall r k, r ∈ df -> k ∈ ks -> is_Some (nums r !! k).
Proof.
  unfold values. rewrite mapM_returns. split.
  - intros H r k Hr Hk. destruct (H r Hr) as (row & Hrow).
    destruct (proj1 (mapM_returns _ _) (ex_intro _ row Hrow) k Hk) as (q & Hq).
    unfold num_cell in Hq. apply of_option_Ok in Hq. eauto.
  - intros H r Hr. apply mapM_returns. intros k Hk.
    destruct (H r k Hr Hk) as (q & Hq). exists q. unfold num_cell. by rewrite Hq.
Qed.

(** X19.  Either branch of [compute_shapley] gets its data exactly when
    ['doublet'] is among the metrics and the table holds, for every
    annotation of the query and every metric left after ['doublet'] is
    removed, the column of that metric and annotation. *)
Theorem shapley_inputs_return (cores : nat) (parallel : bool) (self : ScTriangulate) :
  (exists tensors, MainClass.run_shapley_inputs cores parallel self = Ok tensors)
  <-> "doublet" ∈ total_metrics self
      /\ exists score_colname,
           MainClass.score_colname self = Ok score_colname
           /\ forall key name r,
                key ∈ query self -> name ∈ score_colname -> r ∈ adata_obs self ->
                is_Some (nums r !! (name +:+ "@" +:+ key)).
Proof.
  assert ((exists tensors, MainClass.run_shapley_inputs cores parallel self = Ok tensors)
          <-> exists sc data,
                MainClass.score_colname self = Ok sc
                /\ mapM (fun key => values (MainClass.practical_colname sc key)
                                           (adata_obs self)) (query self) = Ok data)
    as ->.
  { unfold MainClass.run_shapley_inputs. split.
    - intros (tensors & H). destruct parallel.
      + bind_inv H as sc Hsc. bind_inv H as data Hdata. eauto.
      + bind_inv H as sc Hsc. bind_inv H as data Hdata. eauto.
    - intros (sc & data & -> & Hdata). cbn [Py.bind]. rewrite Hdata. cbn [Py.bind].
      destruct parallel; eauto. }
  split.
  - intros (sc & data & Hsc & Hdata). split.
    { apply list_remove_total. eauto. }
    exists sc. split; [exact Hsc|]. intros key name r Hkey Hname Hr.
    destruct (proj1 (mapM_returns _ _) (ex_intro _ data Hdata) key Hkey) as (layer & Hl).
    apply (proj1 (values_returns _ _) (ex_intro _ layer Hl) r); [exact Hr|].
    unfold MainClass.practical_colname. apply list_elem_of_fmap. eauto.
  - intros (_ & sc & Hsc & Hall). exists sc.
    destruct (proj2 (mapM_returns
                       (fun key => values (MainClass.practical_colname sc key)
                                          (adata_obs self)) (query self)))
      as (data & Hdata); [|eauto].
    intros key Hkey. apply values_returns. intros r k Hr Hk.
    unfold MainClass.practical_colname in Hk.
    apply list_elem_of_fmap in Hk as (name & -> & Hname). eauto.
Qed.

(** ** The keys [_check_adata] loses *)

Lemma first_invalid_char (key : string) :
  (exists c, c ∈ MainClass.invalid_chars /\ has_char c key = true) ->
  exists pre ichar post,
    MainClass.invalid_chars = pre ++ ichar :: post
    /\ Forall (fun c => has_char c key = false) pre
    /\ has_char ichar key = true.
Proof.
  intros (c & Hc & Hk). unfold MainClass.invalid_chars in *.
  destruct (has_char "/" key) eqn:E1.
  { exists [], "/"%char, ["@"; "$"; " "]%char. auto. }
  destruct (has_char "@" key) eqn:E2.
  { exists ["/"%char], "@"%char, ["$"; " "]%char. repeat split; auto. }
  destruct (has_char "$" key) eqn:E3.
  { exists ["/"; "@"]%char, "$"%char, [" "%char]. repeat split; auto. }
  destruct (has_char " " key) eqn:E4.
  { exists ["/"; "@"; "$"]%char, " "%char, []. repeat split; auto. }
  exfalso.
  repeat (apply elem_of_cons in Hc as [->|Hc]; [congruence|]). inversion Hc.
Qed.

Lemma rename_key_gone (columns : list string) (key : string) :
  (exists c, c ∈ MainClass.invalid_chars /\ has_char c key = true) ->
  key ∉ MainClass.rename_key columns key.
Proof.
  intros H. destruct (first_invalid_char key H) as (pre & ichar & post & E & Hpre & Hc).
  destruct (rename_key_first columns key pre ichar post E Hpre Hc) as [Hne ->].
  apply rename_column_gone, Hne.
Qed.

Lemma rename_column_keeps_absent (key old new : string) (columns : list string) :
  key ∉ columns -> new ≠ key -> key ∉ MainClass.rename_column old new columns.
Proof.
  intros Habs Hne Hin. unfold MainClass.rename_column in Hin.
  apply list_elem_of_fmap in Hin as (c & E & Hc).
  destruct (decide _); [congruence|]. subst. contradiction.
Qed.

Lemma rename_key_keeps_absent (key other : string) (columns : list string) :
  key ∉ columns ->
  (forall c, c ∈ MainClass.invalid_chars -> Py.str_replace c "_" other ≠ key) ->
  key ∉ MainClass.rename_key columns other.
Proof.
  unfold MainClass.rename_key. generalize MainClass.invalid_chars as chars.
  intros chars. revert columns. induction chars as [|c chars IH]; intros columns Habs Hne.
  - exact Habs.
  - cbn [foldl]. apply IH.
    + apply rename_column_keeps_absent; [exact Habs|]. apply Hne, list_elem_of_here.
    + intros c' Hc'. apply Hne, list_elem_of_further, Hc'.
Qed.

(** X20.  [_check_adata] renames the column of a key that holds one of the
    characters ['/'], ['@'], ['$'] and the blank, but [self.query] and
    [self.reference] keep the old name.  Unless a later key is itself
    renamed to that old name, the table then has no column of that name, and
    reading it raises [KeyError]. *)
Theorem check_adata_key_lost (self : ScTriangulate) (columns : list string)
    (before : list string) (key : string) (after : list string) :
  MainClass.all_keys self = before ++ key :: after ->
  (exists c, c ∈ MainClass.invalid_chars /\ has_char c key = true) ->
  (forall other c, other ∈ after -> c ∈ MainClass.invalid_chars ->
     Py.str_replace c "_" other ≠ key) ->
  key ∈ MainClass.all_keys self
  /\ key ∉ MainClass._check_adata_columns self columns.
Proof.
  intros E Hkey Hafter. split.
  { rewrite E. apply elem_of_app. right. apply list_elem_of_here. }
  unfold MainClass._check_adata_columns. rewrite E, foldl_app. cbn [foldl].
  pose proof (rename_key_gone (foldl MainClass.rename_key columns before) key Hkey)
    as Hgone.
  revert Hgone. generalize (MainClass.rename_key (foldl MainClass.rename_key columns before) key).
  clear E. induction after as [|other after IH]; intros cs Hgone; [exact Hgone|].
  cbn [foldl]. apply IH.
  - intros o c Ho Hc. apply Hafter; [apply list_elem_of_further, Ho|exact Hc].
  - apply rename_key_keeps_absent; [exact Hgone|].
    intros c Hc. apply Hafter; [apply list_elem_of_here|exact Hc].
Qed.

(** ** The names [get_cluster] gives *)

Lemma foldl_concat {A B : Type} (f : A -> B -> A) (a : A) (ls : list (list B)) :
  foldl f a (concat ls) = foldl (fun a l => foldl f a l) a ls.
Proof.
  revert a. induction ls as [|l ls IH]; intros a; [reflexivity|].
  cbn. rewrite foldl_app. apply IH.
Qed.

Lemma foldl_map {A B C : Type} (f : A -> C -> A) (g : B -> C) (a : A) (l : list B) :
  foldl f a (map g l) = foldl (fun a x => f a (g x)) a l.
Proof. revert a. induction l as [|x l IH]; intros a; [reflexivity|]. apply IH. Qed.

Lemma foldl_ext_all {A B : Type} (f g : A -> B -> A) (a : A) (l : list B) :
  (forall a x, f a x = g a x) -> foldl f a l = foldl g a l.
Proof.
  intros H. revert a. induction l as [|x l IH]; intros a; [reflexivity|].
  cbn. rewrite H. apply IH.
Qed.

Lemma get_cluster_mapping_entries (sheet : list MainClass.sheet_row) :
  MainClass.get_cluster_mapping sheet
  = foldl (fun m kv => <[kv.1 := kv.2]> m) ∅ (mapping_entries sheet).
Proof.
  unfold MainClass.get_cluster_mapping, mapping_entries.
  rewrite foldl_concat, foldl_map. apply foldl_ext_all. intros m ref. cbv zeta.
  rewrite foldl_concat, foldl_map. apply foldl_ext_all. intros m' cho.
  symmetry. apply (foldl_map (fun m kv => <[kv.1 := kv.2]> m)).
Qed.

Lemma foldl_insert_lookup (es : list (string * string)) (m0 : gmap string string)
    (k v : string) :
  (k, v) ∈ es -> (forall v', (k, v') ∈ es -> v' = v) ->
  foldl (fun m kv => <[kv.1 := kv.2]> m) m0 es !! k = Some v.
Proof.
  induction es as [|[k1 v1] es IH] using rev_ind; intros Hin Hall; [inversion Hin|].
  rewrite foldl_app. cbn. destruct (decide (k1 = k)) as [->|N].
  - rewrite lookup_insert_eq. f_equal. apply Hall.
    apply elem_of_app. right. apply list_elem_of_here.
  - rewrite lookup_insert_ne by exact N. apply IH.
    + apply elem_of_app in Hin as [Hin|Hin]; [exact Hin|].
      apply list_elem_of_singleton in Hin. congruence.
    + intros v' Hv'. apply Hall. apply elem_of_app. by left.
Qed.

Lemma foldl_insert_lookup_None (es : list (string * string))
    (m0 : gmap string string) (k : string) :
  (forall v, (k, v) ∉ es) ->
  foldl (fun m kv => <[kv.1 := kv.2]> m) m0 es !! k = m0 !! k.
Proof.
  induction es as [|[k1 v1] es IH] using rev_ind; intros Hall; [reflexivity|].
  rewrite foldl_app. cbn. rewrite lookup_insert_ne.
  - apply IH. intros v Hv. apply (Hall v). apply elem_of_app. by left.
  - intros ->. apply (Hall v1). apply elem_of_app. right. apply list_elem_of_here.
Qed.

Lemma filter_choice_reference (sheet : list MainClass.sheet_row) (ref cho : string) :
  filter (fun row => MainClass.sheet_choice row = Some cho)
         (filter (fun row => MainClass.sheet_reference row = ref) sheet)
  = filter (fun row => MainClass.sheet_reference row = ref
                       /\ MainClass.sheet_choice row = Some cho) sheet.
Proof.
  rewrite list_filter_filter. apply list_filter_iff. intros row. tauto.
Qed.

Lemma elem_of_mapping_entries (sheet : list MainClass.sheet_row) (k v : string) :
  (k, v) ∈ mapping_entries sheet
  <-> exists row cho,
        row ∈ sheet /\ MainClass.sheet_choice row = Some cho
        /\ k = original_name row
        /\ v = composite_name sheet (MainClass.sheet_reference row) cho.
Proof.
  unfold mapping_entries. split.
  - intros H. apply elem_of_concat in H as (l & Hkv & Hl).
    apply list_elem_of_fmap in Hl as (ref & -> & _). cbv zeta in Hkv.
    apply elem_of_concat in Hkv as (l & Hkv & Hl).
    apply list_elem_of_fmap in Hl as (cho & -> & _).
    apply list_elem_of_fmap in Hkv as (item & [= -> ->] & Hitem).
    apply list_elem_of_fmap in Hitem as (row & -> & Hrow).
    rewrite filter_choice_reference in Hrow |- *.
    apply list_elem_of_filter in Hrow as [[Href Hcho] Hrow].
    exists row, cho. unfold original_name, composite_name. rewrite Href. auto.
  - intros (row & cho & Hrow & Hcho & -> & ->).
    set (ref := MainClass.sheet_reference row).
    assert (row ∈ filter (fun row => MainClass.sheet_reference row = ref) sheet) as Hsub.
    { apply list_elem_of_filter. auto. }
    apply elem_of_concat. eexists. split.
    2:{ apply list_elem_of_fmap. exists ref. split; [reflexivity|].
        rewrite sort_keys_perm. apply elem_of_unique.
        apply list_elem_of_fmap. exists row. auto. }
    cbv zeta. apply elem_of_concat. eexists. split.
    2:{ apply list_elem_of_fmap. exists cho. split; [reflexivity|].
        rewrite sort_keys_perm. apply elem_of_unique.
        apply list_elem_of_omap. exists row. auto. }
    rewrite filter_choice_reference.
    apply list_elem_of_fmap. exists (MainClass.sheet_cell_cluster row).
    split; [reflexivity|].
    apply list_elem_of_fmap. exists row. split; [reflexivity|].
    apply list_elem_of_filter. auto.
Qed.

Lemma NoDup_fmap_elem {A B : Type} (f : A -> B) (l : list A) (x y : A) :
  NoDup (map f l) -> x ∈ l -> y ∈ l -> f x = f y -> x = y.
Proof.
  induction l as [|a l IH]; intros Hnd Hx Hy Hf; [inversion Hx|].
  cbn in Hnd. apply NoDup_cons in Hnd as [Ha Hnd].
  apply elem_of_cons in Hx as [->|Hx]; apply elem_of_cons in Hy as [->|Hy].
  - reflexivity.
  - exfalso. apply Ha. rewrite Hf. apply list_elem_of_fmap. eauto.
  - exfalso. apply Ha. rewrite <- Hf. apply list_elem_of_fmap. eauto.
  - by apply IH.
Qed.

Lemma get_cluster_mapping_lookup (sheet : list MainClass.sheet_row) (p : string) :
  NoDup (map original_name sheet) ->
  (exists row cho,
      row ∈ sheet /\ original_name row = p
      /\ MainClass.sheet_choice row = Some cho
      /\ MainClass.get_cluster_mapping sheet !! p
         = Some (composite_name sheet (MainClass.sheet_reference row) cho))
  \/ ((forall row, row ∈ sheet -> original_name row = p ->
         MainClass.sheet_choice row = None)
      /\ MainClass.get_cluster_mapping sheet !! p = None).
Proof.
  intros Hnd. rewrite get_cluster_mapping_entries.
  destruct (decide (Exists (fun row => original_name row = p
                                       /\ is_Some (MainClass.sheet_choice row)) sheet))
    as [Hex|Hex].
  - left. apply Exists_exists in Hex as (row & Hrow & Hp & cho & Hcho).
    exists row, cho. split; [exact Hrow|]. split; [exact Hp|]. split; [exact Hcho|].
    apply foldl_insert_lookup.
    + apply elem_of_mapping_entries. exists row, cho. auto.
    + intros v' Hv'. apply elem_of_mapping_entries in Hv'
        as (row' & cho' & Hrow' & Hcho' & Hp' & ->).
      assert (row' = row) as ->.
      { apply (NoDup_fmap_elem original_name sheet); try assumption. congruence. }
      congruence.
  - right. split.
    + intros row Hrow Hp. destruct (MainClass.sheet_choice row) as [cho|] eqn:E;
        [|reflexivity].
      exfalso. apply Hex. apply Exists_exists. exists row.
      split; [exact Hrow|]. split; [exact Hp|]. rewrite E. eauto.
    + rewrite foldl_insert_lookup_None; [apply lookup_empty|].
      intros v Hv. apply elem_of_mapping_entries in Hv
        as (row & cho & Hrow & Hcho & Hp & _).
      apply Hex. apply Exists_exists. exists row.
      split; [exact Hrow|]. split; [by symmetry|]. rewrite Hcho. eauto.
Qed.

(** X21.  [get_cluster] on a sheet whose lines have distinct names
    [reference|cell_cluster], as [pruning] writes it.  A cell whose
    ['prefixed'] is the name of a line with a choice gets as ['user_choice']
    the reference cluster of that line followed by all the clusters of that
    reference cluster marked with the same choice, in the order of the sheet
    and joined by ['+'].  Any other cell gets an empty ['user_choice'].
    Nothing else changes. *)
Theorem get_cluster_choices (self self' : ScTriangulate)
    (sheet : list MainClass.sheet_row) :
  NoDup (map original_name sheet) ->
  MainClass.get_cluster self sheet = Ok self' ->
  self' = MainClass.set_obs (adata_obs self') self
  /\ Forall2 (fun r r' =>
                exists p,
                  cols r !! "prefixed" = Some p
                  /\ ((exists row cho,
                          row ∈ sheet /\ original_name row = p
                          /\ MainClass.sheet_choice row = Some cho
                          /\ r' = set_cell "user_choice"
                                    (composite_name sheet
                                       (MainClass.sheet_reference row) cho) r)
                      \/ ((forall row, row ∈ sheet -> original_name row = p ->
                             MainClass.sheet_choice row = None)
                          /\ r' = del_cell "user_choice" r)))
             (adata_obs self) (adata_obs self').
Proof.
  intros Hnd H. unfold MainClass.get_cluster in H. cbv zeta in H.
  bind_inv H as prefixed Hp. bind_inv H as obs Hobs. injection H as <-.
  split; [reflexivity|]. cbn [MainClass.set_obs adata_obs].
  unfold assign_column in Hobs. destruct (decide _) as [_|]; [|discriminate].
  injection Hobs as <-. apply column_Ok in Hp.
  induction Hp as [|r p obs prefixed Hrp Hp IH]; [constructor|].
  cbn. constructor; [|exact IH].
  exists p. split; [exact Hrp|].
  destruct (get_cluster_mapping_lookup sheet p Hnd)
    as [(row & cho & Hrow & Hname & Hcho & ->)|(Hnone & ->)].
  - left. exists row, cho. auto.
  - right. auto.
Qed.

(** ** The statements at the example data *)

Import Examples.

Local Ltac by_evaluation := vm_compute; reflexivity.
Local Ltac concrete_elem := apply (bool_decide_unpack _); vm_compute; exact I.



(** C3 on the six cells. *)
Lemma pruning_restores_order_witness :
  exists obs',
    Prune.reference_pruning obs6 "A" sizes6 = Ok obs'
    /\ map barcode obs' = ["c1"; "c2"; "c3"; "c4"; "c5"; "c6"]
    /\ map ori obs' = [0; 1; 2; 3; 4; 5]%nat.
Proof.
  assert (Prune.reference_pruning obs6 "A" sizes6
          = Ok (value_or [] (Prune.reference_pruning obs6 "A" sizes6))) as E
    by by_evaluation.
  eexists. split; [exact E |].
  destruct (pruning_restores_order obs6 _
              (or_intror (or_introl (ex_intro _ "A" (ex_intro _ sizes6 E)))))
    as (_ & Hb & Ho).
  split; [exact Hb | exact Ho].
Defined.

Lemma listing5_value_counts :
  is_value_counts listing5 ["a"; "b"; "b"; "c"; "a"].
Proof.
  split.
  - assert (map (fun k => (k, count_of k ["a"; "b"; "b"; "c"; "a"]))
                (unique ["a"; "b"; "b"; "c"; "a"])
            = [ ("a", 2%nat); ("b", 2%nat); ("c", 1%nat) ]) as E by by_evaluation.
    rewrite E. apply perm_swap.
  - unfold listing5. repeat constructor; simpl; lia.
Defined.

(** C6 on a group of five cells, with the listing that holds [b] first: the
    cell of label [c] takes [b]. *)
Lemma singleton_post_pass_witness :
  exists out most,
    Prune.singleton_cleanup_from listing5 group5 = Ok out
    /\ most ∈ ["a"; "b"; "b"; "c"; "a"]
    /\ length out = 5%nat.
Proof.
  assert (column "pruned" group5 = Ok ["a"; "b"; "b"; "c"; "a"]) as Hc
    by by_evaluation.
  assert (group5 <> []) as Hne by discriminate.
  destruct (singleton_post_pass _ _ _ Hc Hne listing5_value_counts)
    as (out & most & Hout & Hin & _ & _ & Hall).
  exists out, most. split; [exact Hout |]. split; [exact Hin |].
  symmetry. exact (Forall2_length _ _ _ Hall).
Defined.

(** C6 as stated fails on the five cells when [value_counts] lists [b]
    before [a].  The labels [a] and [b] tie with two cells each and [a] is
    met first in the group; the cell [g4], alone with its label [c], takes
    [b], not [a]. *)
Lemma first_encountered_counterexample :
  column "pruned" group5 = Ok ["a"; "b"; "b"; "c"; "a"]
  /\ is_value_counts listing5 ["a"; "b"; "b"; "c"; "a"]
  /\ count_of "a" ["a"; "b"; "b"; "c"; "a"] = 2%nat
  /\ count_of "b" ["a"; "b"; "b"; "c"; "a"] = 2%nat
  /\ count_of "c" ["a"; "b"; "b"; "c"; "a"] = 1%nat
  /\ exists out,
       Prune.singleton_cleanup_from listing5 group5 = Ok out
       /\ column "pruned" out = Ok ["a"; "b"; "b"; "b"; "a"]
       /\ ~ (exists r, out !! 3%nat = Some r /\ cols r !! "pruned" = Some "a").
Proof.
  split; [by_evaluation |]. split; [exact listing5_value_counts |].
  split; [by_evaluation |]. split; [by_evaluation |]. split; [by_evaluation |].
  set (run := Prune.singleton_cleanup_from listing5 group5).
  assert (run = Ok (value_or [] run)) as E by by_evaluation.
  exists (value_or [] run). split; [exact E |]. split; [by_evaluation |].
  assert (column "pruned" (value_or [] run) = Ok ["a"; "b"; "b"; "b"; "a"]) as Hc
    by by_evaluation.
  intros (r & Hr & Hp). apply column_Ok in Hc.
  destruct (Forall2_lookup_l _ _ _ _ _ Hc Hr) as (p & Hlook & Hp').
  simpl in Hlook. congruence.
Qed.

(** C7 on the group [x] of the thirty-one cells, from floor 0 to floor 10. *)
Lemma reference_mapping_monotone_witness :
  exists raws m1 m2,
    column "raw" chunk_x.2 = Ok raws
    /\ Prune.reference_mapping 0 chunk_x "A" sizes31 (assign_ori obs31) = Ok m1
    /\ Prune.reference_mapping 10 chunk_x "A" sizes31 (assign_ori obs31) = Ok m2
    /\ (folded_back m1 "A@x" (unique raws) <= folded_back m2 "A@x" (unique raws))%nat.
Proof.
  assert (column "raw" chunk_x.2 = Ok (value_or [] (column "raw" chunk_x.2)))
    as Hr by by_evaluation.
  assert (Prune.reference_mapping 0 chunk_x "A" sizes31 (assign_ori obs31)
          = Ok (value_or ∅ (Prune.reference_mapping 0 chunk_x "A" sizes31
                                                    (assign_ori obs31))))
    as E1 by by_evaluation.
  assert (0 <= 10)%Z as Hle by lia.
  destruct (reference_mapping_monotone 0 10 _ _ _ _ _ _ Hle Hr E1) as (m2 & E2 & _ & Hfold).
  eexists _, _, m2. split; [exact Hr |]. split; [exact E1 |]. split; [exact E2 |].
  exact Hfold.
Defined.

(** The twenty cells: both raw clusters hold ten cells, the floor and their
    SizeIndex size. *)
Lemma obs20_nothing_too_small (c : string) :
  c ∈ value_or [] (column "raw" obs20) ->
  exists size,
    Prune.size_of (size_dict (sctri obs20 sizes20)) c = Ok size
    /\ ~ too_small (Prune.abs_thresh (length obs20)) size
                   (count_of c (value_or [] (column "raw" obs20))).
Proof.
  intros Hc. apply (proj2 (elem_of_unique _ _)) in Hc.
  assert (unique (value_or [] (column "raw" obs20)) = ["A@x"; "A@y"]) as Hu
    by by_evaluation.
  rewrite Hu in Hc. clear Hu.
  apply elem_of_cons in Hc as [-> | Hc];
    [| apply elem_of_cons in Hc as [-> | Hc]; [| by apply elem_of_nil in Hc]];
    (exists 10%Z; split; [by_evaluation |]);
    intros [Hs | Hs]; vm_compute in Hs; discriminate.
Defined.

(** C5 on the twenty cells, with a classifier that refuses an empty test
    set: nothing is marked, and the run raises the classifier's
    [ValueError]; without a table bound to [adata] it raises [NameError]. *)
Lemma reassign_without_invalid_raises_witness :
  Prune.reassign_invalid sizes20 (assign_ori obs20) [] = Ok []
  /\ Prune.reassign_pruning knn_strict
       (<["adata" := PyAnnData obs20]> prune_globals) (sctri obs20 sizes20)
     = Raise (ValueError
                "Found array with 0 sample(s) while a minimum of 1 is required")
  /\ Prune.reassign_pruning knn_strict prune_globals (sctri obs20 sizes20)
     = Raise (NameError "adata").
Proof.
  assert (column "raw" obs20 = Ok (value_or [] (column "raw" obs20))) as Hr
    by by_evaluation.
  assert ((<["adata" := PyAnnData obs20]> prune_globals : gmap string pyval)
            !! "adata" = Some (PyAnnData obs20)) as Hg by apply lookup_insert_eq.
  destruct (reassign_without_invalid_raises knn_strict _ (sctri obs20 sizes20)
              obs20 _ _ Hg eq_refl eq_refl Hr obs20_nothing_too_small eq_refl)
    as (Hnone & _ & _ & Hrun & Hname).
  split; [exact Hnone |]. split; [exact Hrun | exact Hname].
Defined.

(** C9 as amended, on the six cells pruned by the reference strategy. *)
Lemma celltype_sheet_two_fields_witness :
  exists self' sheet,
    MainClass.pruning knn_first no_rank_pruning (sctri obs6 sizes6)
                      "reference" true = Ok (self', sheet)
    /\ Forall (fun line => length (MainClass.fields line) = 2%nat) (tail sheet).
Proof.
  set (run := MainClass.pruning knn_first no_rank_pruning (sctri obs6 sizes6)
                                "reference" true).
  set (d := (sctri [] ∅, @nil string)).
  assert (run = Ok ((value_or d run).1, (value_or d run).2)) as E
    by by_evaluation.
  eexists _, _. split; [exact E |].
  destruct (celltype_sheet_two_fields knn_first no_rank_pruning (sctri obs6 sizes6)
              "reference" true _ _ E)
    as (header & lines & Hsheet & _ & Hlines);
    [by_evaluation | by_evaluation |].
  rewrite Hsheet. simpl. apply Forall_forall. intros line Hline.
  destruct (Hlines line Hline) as (ref & reassign & r & -> & _). reflexivity.
Defined.

(** C9 as stated fails on the six cells: the lines after the header hold two
    fields, not three. *)
Lemma three_fields_counterexample :
  exists self' sheet,
    MainClass.pruning knn_first no_rank_pruning (sctri obs6 sizes6)
                      "reference" true = Ok (self', sheet)
    /\ map MainClass.fields sheet
       = [ ["reference"; "cell_cluster"; "choice"];
           ["A@x"; "L@2"]; ["A@y"; "L@1"] ]
    /\ ~ Forall (fun line => length (MainClass.fields line) = 3%nat) (tail sheet).
Proof.
  set (run := MainClass.pruning knn_first no_rank_pruning (sctri obs6 sizes6)
                                "reference" true).
  set (d := (sctri [] ∅, @nil string)).
  exists (value_or d run).1, (value_or d run).2.
  split; [by_evaluation |]. split; [by_evaluation |].
  apply (proj1 (bool_decide_eq_false _)). by_evaluation.
Qed.

(** C10 as amended, on an object with the default registry. *)
Lemma shapley_data_without_doublet_witness :
  count_of "doublet" (total_metrics scored) = 1%nat
  /\ MainClass.score_colname scored = Ok ["reassign"; "tfidf10"; "SCCAF"; "tfidf5"]
  /\ exists tensors, MainClass.run_shapley_inputs 2 true scored = Ok tensors.
Proof.
  assert (count_of "doublet" (total_metrics scored) = 1%nat) as Hone
    by by_evaluation.
  assert (MainClass.run_shapley_inputs 2 true scored
          = Ok (value_or [] (MainClass.run_shapley_inputs 2 true scored))) as E
    by by_evaluation.
  split; [exact Hone |].
  split; [exact (proj1 (shapley_data_without_doublet _ _ _ _ Hone E)) | eauto].
Defined.

(** C10 as stated fails when a metric is registered under the name
    ['doublet']: [total_metrics] then holds the name twice, [remove] drops
    its first occurrence only, and the tensor of either branch keeps the
    column [doublet@A], here the value 4 of the only cell. *)
Lemma doublet_column_counterexample :
  total_metrics doublet_twice
    = ["reassign"; "tfidf10"; "SCCAF"; "doublet"; "doublet"]
  /\ MainClass.score_colname doublet_twice
     = Ok ["reassign"; "tfidf10"; "SCCAF"; "doublet"]
  /\ MainClass.run_shapley_inputs 1 false doublet_twice = Ok [[[[1; 2; 3; 4]]]]%Q
  /\ MainClass.run_shapley_inputs 1 true doublet_twice = Ok [[[[1; 2; 3; 4]]]]%Q
  /\ ~ (forall tensors tensor,
          MainClass.run_shapley_inputs 1 false doublet_twice = Ok tensors ->
          tensor ∈ tensors ->
          Forall2 (fun key layer =>
                     forall row, row ∈ layer ->
                       exists r, r ∈ adata_obs doublet_twice
                         /\ Forall2 (fun metric v =>
                                       nums r !! (metric +:+ "@" +:+ key) = Some v)
                                    (filter (fun m => m ≠ "doublet")
                                            (total_metrics doublet_twice))
                                    row)
                  (query doublet_twice) tensor).
Proof.
  repeat (split; [by_evaluation |]).
  intros Hclaim.
  specialize (Hclaim [[[[1; 2; 3; 4]]]]%Q [[[1; 2; 3; 4]]]%Q).
  assert (MainClass.run_shapley_inputs 1 false doublet_twice
          = Ok [[[[1; 2; 3; 4]]]]%Q) as E by by_evaluation.
  specialize (Hclaim E (list_elem_of_here _ _)).
  apply Forall2_cons_1 in Hclaim as [Hlayer _].
  destruct (Hlayer [1; 2; 3; 4]%Q (list_elem_of_here _ _)) as (r & _ & Hrow).
  apply Forall2_length in Hrow. vm_compute in Hrow. discriminate.
Qed.

(** ** The further properties at the example data *)

(** X2 on the six cells: the reference cluster [x] and the cluster [2] of
    [L]. *)
Lemma inclusiveness_range_witness :
  exists fr fc,
    Prune.inclusiveness obs6 ("A", "x") ("L", "2") = Ok (fr, fc)
    /\ (0 <= fr /\ fr <= 1 /\ 0 <= fc /\ fc <= 1)%Q.
Proof.
  set (run := Prune.inclusiveness obs6 ("A", "x") ("L", "2")).
  assert (run = Ok ((value_or (0, 0)%Q run).1, (value_or (0, 0)%Q run).2)) as E
    by by_evaluation.
  destruct (inclusiveness_range _ _ _ _ _ E) as (H1 & H2 & H3 & H4 & _).
  eexists _, _. split; [exact E|]. auto.
Defined.

(** X3 on the six cells: no cell carries a cluster [9] of [L]. *)
Lemma inclusiveness_zero_division_witness :
  column "A" obs6 = Ok ["x"; "y"; "x"; "x"; "y"; "x"]
  /\ column "L" obs6 = Ok ["1"; "1"; "2"; "2"; "1"; "2"]
  /\ Prune.inclusiveness obs6 ("A", "x") ("L", "9") = Raise ZeroDivisionError
  /\ exists fr fc, Prune.inclusiveness obs6 ("A", "x") ("L", "2") = Ok (fr, fc).
Proof.
  assert (column "A" obs6 = Ok ["x"; "y"; "x"; "x"; "y"; "x"]) as HA by by_evaluation.
  assert (column "L" obs6 = Ok ["1"; "1"; "2"; "2"; "1"; "2"]) as HL by by_evaluation.
  split; [exact HA|]. split; [exact HL|]. split.
  - apply (proj1 (inclusiveness_zero_division obs6 ("A", "x") ("L", "9") _ _ HA HL)).
    right. concrete_elem.
  - apply (proj2 (inclusiveness_zero_division obs6 ("A", "x") ("L", "2") _ _ HA HL)).
    split; concrete_elem.
Defined.

(** X4 on the group of five cells: the lone [c] is gone and [a] is carried
    by three cells. *)
Lemma singleton_cleanup_no_singleton_witness :
  exists out pruned',
    Prune.singleton_cleanup group5 = Ok out
    /\ (2 <= length group5)%nat
    /\ column "pruned" out = Ok pruned'
    /\ (2 <= count_of "a" pruned')%nat.
Proof.
  set (run := Prune.singleton_cleanup group5).
  assert (run = Ok (value_or [] run)) as E by by_evaluation.
  assert (2 <= length group5)%nat as Hlen by (vm_compute; lia).
  destruct (singleton_cleanup_no_singleton _ _ E Hlen) as (pruned' & Hcol & Hcount).
  exists (value_or [] run), pruned'.
  split; [exact E|]. split; [exact Hlen|]. split; [exact Hcol|].
  apply Hcount.
  assert (column "pruned" (value_or [] run) = Ok ["a"; "b"; "b"; "a"; "a"]) as Hc
    by by_evaluation.
  rewrite Hc in Hcol. injection Hcol as <-. concrete_elem.
Defined.

(** X5 on the group of five cells. *)
Lemma singleton_cleanup_idempotent_witness :
  exists out,
    Prune.singleton_cleanup group5 = Ok out
    /\ Prune.singleton_cleanup out = Ok out.
Proof.
  set (run := Prune.singleton_cleanup group5).
  assert (run = Ok (value_or [] run)) as E by by_evaluation.
  exists (value_or [] run). split; [exact E|].
  exact (singleton_cleanup_idempotent _ _ E).
Defined.

(** X6 on the six cells. *)
Lemma reference_pruning_labels_witness :
  exists obs',
    Prune.reference_pruning obs6 "A" sizes6 = Ok obs'
    /\ Forall2 (fun r r' =>
                  exists g p,
                    cols r !! "A" = Some g
                    /\ cols r' !! "pruned" = Some p
                    /\ (p = "A" +:+ "@" +:+ g \/ p ∈ group_labels "raw" "A" g obs6))
               obs6 obs'.
Proof.
  set (run := Prune.reference_pruning obs6 "A" sizes6).
  assert (run = Ok (value_or [] run)) as E by by_evaluation.
  exists (value_or [] run). split; [exact E|].
  exact (reference_pruning_labels _ _ _ _ E).
Defined.

(** X9 on an object whose registry holds [tfidf5]: registering [mine] lists
    [tfidf5] a second time. *)
Lemma add_new_metrics_counts_witness :
  NoDup (add_metrics (sctri obs6 sizes6))
  /\ count_of "tfidf5" (total_metrics (sctri obs6 sizes6)) = 1%nat
  /\ count_of "tfidf5"
       (total_metrics (MainClass.add_new_metrics (sctri obs6 sizes6) ["mine"]))
     = 2%nat.
Proof.
  assert (NoDup (add_metrics (sctri obs6 sizes6))) as Hnd by apply NoDup_singleton.
  split; [exact Hnd|]. split; [by_evaluation|].
  rewrite (proj1 (add_new_metrics_counts (sctri obs6 sizes6) ["mine"] "tfidf5" Hnd)).
  by_evaluation.
Defined.

(** X10 on the five cells, which come with their pruned labels. *)
Lemma pruning_without_strategy_witness :
  exists self' sheet,
    MainClass.pruning knn_first no_rank_pruning (sctri group5 sizes6)
                      "reference" false = Ok (self', sheet)
    /\ invalid self' = Some []
    /\ column "pruned" (adata_obs self') = Ok ["a"; "b"; "b"; "c"; "a"]
    /\ length (adata_obs self') = 5%nat.
Proof.
  set (run := MainClass.pruning knn_first no_rank_pruning (sctri group5 sizes6)
                                "reference" false).
  set (d := (sctri [] ∅, @nil string)).
  assert (run = Ok ((value_or d run).1, (value_or d run).2)) as E by by_evaluation.
  destruct (pruning_without_strategy knn_first no_rank_pruning (sctri group5 sizes6)
              "reference" false _ _ (or_introl eq_refl) E) as (Hinv & Hrows).
  eexists _, _. split; [exact E|]. split; [exact Hinv|]. split; [by_evaluation|].
  symmetry. exact (Forall2_length _ _ _ Hrows).
Defined.

(** X11 on two scored cells and two cores. *)
Lemma shapley_slices_recombine_witness :
  (0 < 2)%nat
  /\ exists tensors data,
       MainClass.run_shapley_inputs 2 true scored = Ok tensors
       /\ MainClass.run_shapley_inputs 2 false scored = Ok [data]
       /\ length tensors = 2%nat
       /\ forall i layer, data !! i = Some layer ->
            concat (omap (fun tensor => tensor !! i) tensors) = layer.
Proof.
  assert (0 < 2)%nat as Hc by lia. split; [exact Hc|].
  set (run := MainClass.run_shapley_inputs 2 true scored).
  assert (run = Ok (value_or [] run)) as E by by_evaluation.
  destruct (shapley_slices_recombine 2 scored _ Hc E) as (data & Hs & Hl & _ & Hcat).
  exists (value_or [] run), data. auto.
Defined.

Lemma knn_first_labels (valid test : list obs_row) (out : list string) :
  knn_first valid test = Ok out ->
  forall x, x ∈ out -> exists r, r ∈ valid /\ cols r !! "raw" = Some x.
Proof.
  destruct valid as [|r valid]; [discriminate|]. cbn [knn_first].
  intros H. bind_inv H as x0 Hx0. injection H as <-.
  intros x Hx. apply list_elem_of_fmap in Hx as (_ & -> & _).
  exists r. split; [apply list_elem_of_here|].
  unfold cell in Hx0. by apply of_option_Ok in Hx0.
Qed.

(** X12 on the thirty-one cells with [L@1] supplied as invalid. *)
Lemma reassign_pruning_removes_invalid_witness :
  exists obs' inv,
    Prune.reassign_pruning knn_first (<["adata" := PyAnnData obs31]> prune_globals)
                           sctri_invalid = Ok (obs', inv)
    /\ "L@1" ∈ inv
    /\ length obs' = 31%nat
    /\ Forall (fun r' => exists p, cols r' !! "pruned" = Some p /\ p ∉ inv) obs'.
Proof.
  set (run := Prune.reassign_pruning knn_first
                (<["adata" := PyAnnData obs31]> prune_globals) sctri_invalid).
  assert (run = Ok ((value_or ([], []) run).1, (value_or ([], []) run).2)) as E
    by by_evaluation.
  eexists _, _. split; [exact E|]. split; [concrete_elem|]. split; [by_evaluation|].
  exact (reassign_pruning_removes_invalid knn_first _ sctri_invalid _ _
           knn_first_labels E).
Defined.

(** X13 on two cells, one adopting [A] and one adopting [L]. *)
Lemma run_assign_labels_witness :
  exists obs',
    MainClass.run_assign assigned = Ok obs'
    /\ column "raw" obs' = Ok ["A@x"; "L@1"]
    /\ Prune.size_of sizes6 "A@x" = Ok 4%Z
    /\ length obs' = 2%nat.
Proof.
  set (run := MainClass.run_assign assigned).
  assert (run = Ok (value_or [] run)) as E by by_evaluation.
  pose proof (run_assign_labels assigned _ sizes6 E) as H.
  exists (value_or [] run). split; [exact E|]. split; [by_evaluation|].
  split; [|symmetry; exact (Forall2_length _ _ _ H)].
  destruct (Forall2_lookup_l _ _ _ 0%nat _ H eq_refl)
    as (r' & _ & name & cluster & Hn & Hc & _ & Hsize).
  vm_compute in Hn. injection Hn as <-. vm_compute in Hc. injection Hc as <-.
  etransitivity; [exact (Hsize eq_refl eq_refl)|by_evaluation].
Defined.

(** X14 on one cell: [T cell/CD4] becomes [T_cell_CD4], [1@a] becomes [1_a],
    and the column [note], which is no annotation, keeps its blank. *)
Lemma check_adata_cluster_names_witness :
  exists r',
    MainClass._check_adata_obs unchecked = Ok [r']
    /\ cols r' !! "A" = Some "T_cell_CD4"
    /\ cols r' !! "L" = Some "1_a"
    /\ cols r' !! "note" = Some "a b".
Proof.
  set (run := MainClass._check_adata_obs unchecked).
  set (d := mk_row "" ∅ ∅ 0).
  assert (run = Ok [default d (head (value_or [] run))]) as E by by_evaluation.
  pose proof (check_adata_cluster_names unchecked _ E) as H.
  apply Forall2_cons_1 in H as [(_ & _ & _ & Hk) _].
  eexists. split; [exact E|]. split; [|split].
  - destruct (proj1 (Hk "A")) as (v & Hv & Hr' & _); [concrete_elem|].
    vm_compute in Hv. injection Hv as <-. rewrite Hr'. by_evaluation.
  - destruct (proj1 (Hk "L")) as (v & Hv & Hr' & _); [concrete_elem|].
    vm_compute in Hv. injection Hv as <-. rewrite Hr'. by_evaluation.
  - rewrite (proj2 (Hk "note")); [by_evaluation|concrete_elem].
Defined.

(** X15 on the key [a b/c]: the slash is replaced, the blank stays, and no
    column is named [a b/c] any more. *)
Lemma rename_key_first_only_witness :
  MainClass.rename_key ["a b/c"; "x"] "a b/c" = ["a b_c"; "x"]
  /\ ("a b/c" ∉ MainClass.rename_key ["a b/c"; "x"] "a b/c")
  /\ has_char " " (Py.str_replace "/" "_" "a b/c") = true.
Proof.
  assert (MainClass.invalid_chars = [] ++ "/"%char :: ["@"; "$"; " "]%char) as E
    by reflexivity.
  assert (Forall (fun c => has_char c "a b/c" = false) []) as Hpre by constructor.
  assert (has_char "/" "a b/c" = true) as Hc by reflexivity.
  destruct (rename_key_first_only ["a b/c"; "x"] "a b/c" [] "/" _ E Hpre Hc)
    as (Hr & Hgone & Hkeep).
  split; [rewrite Hr; by_evaluation|]. split; [exact Hgone|].
  apply Hkeep; [concrete_elem|reflexivity].
Defined.

(** X17 on the six cells. *)
Lemma pruning_reference_witness :
  exists self' sheet,
    MainClass.pruning knn_first no_rank_pruning (sctri obs6 sizes6)
                      "reference" true = Ok (self', sheet)
    /\ invalid self' = Some []
    /\ map ori (adata_obs self') = [0; 1; 2; 3; 4; 5]%nat
    /\ column "prefixed" (adata_obs self')
       = Ok ["A@x|L@2"; "A@y|L@1"; "A@x|L@2"; "A@x|L@2"; "A@y|L@1"; "A@x|L@2"]
    /\ length (adata_obs self') = 6%nat.
Proof.
  set (run := MainClass.pruning knn_first no_rank_pruning (sctri obs6 sizes6)
                                "reference" true).
  set (d := (sctri [] ∅, @nil string)).
  assert (run = Ok ((value_or d run).1, (value_or d run).2)) as E by by_evaluation.
  assert (reference (sctri obs6 sizes6) ≠ "pruned") as Href by discriminate.
  assert (reference (sctri obs6 sizes6) ≠ "ori") as Hori by discriminate.
  assert (Forall (fun r => forall x, cols r !! "raw" = Some x ->
                             Py.split "@" x !! 0%nat ≠ Some "ori")
                 (adata_obs (sctri obs6 sizes6))) as Hraw.
  { repeat constructor; intros x Hx; vm_compute in Hx; injection Hx as <-;
      vm_compute; discriminate. }
  destruct (pruning_reference knn_first no_rank_pruning (sctri obs6 sizes6) _ _
              Href Hori Hraw E) as (Hinv & _ & Hnum & Hrows).
  eexists _, _. split; [exact E|]. split; [exact Hinv|]. split; [exact Hnum|].
  split; [by_evaluation|].
  symmetry. exact (Forall2_length _ _ _ Hrows).
Defined.

(** X18 on the five cells of one reference cluster with the pruned labels
    [a], [b] and [c]: three lines after the header. *)
Lemma celltype_sheet_pairs_witness :
  exists sheet pairs,
    MainClass.celltype_sheet (sctri group5 sizes6) = Ok sheet
    /\ NoDup pairs
    /\ length sheet = 4%nat
    /\ ("x", "c") ∈ pairs.
Proof.
  set (run := MainClass.celltype_sheet (sctri group5 sizes6)).
  assert (run = Ok (value_or [] run)) as E by by_evaluation.
  destruct (celltype_sheet_pairs _ _ E) as (pairs & Hnd & _ & Hiff).
  exists (value_or [] run), pairs. split; [exact E|]. split; [exact Hnd|].
  split; [by_evaluation|].
  apply Hiff. exists (default (mk_row "" ∅ ∅ 0) (group5 !! 3%nat)).
  split; [apply (list_elem_of_lookup_2 _ 3%nat); by_evaluation|].
  split; by_evaluation.
Defined.

(** X20 on the annotations [cell type] and [L]: the column becomes
    [cell_type], and no column is named [cell type] any more. *)
Lemma check_adata_key_lost_witness :
  MainClass.all_keys spaced = ["cell type"; "L"]
  /\ MainClass._check_adata_columns spaced ["cell type"; "L"; "n"]
     = ["cell_type"; "L"; "n"]
  /\ "cell type" ∈ MainClass.all_keys spaced
  /\ ("cell type" ∉ MainClass._check_adata_columns spaced ["cell type"; "L"; "n"]).
Proof.
  assert (MainClass.all_keys spaced = [] ++ "cell type" :: ["L"]) as E by by_evaluation.
  assert (exists c, c ∈ MainClass.invalid_chars /\ has_char c "cell type" = true)
    as Hkey.
  { exists " "%char. split; [concrete_elem|reflexivity]. }
  assert (forall other c, other ∈ ["L"] -> c ∈ MainClass.invalid_chars ->
            Py.str_replace c "_" other ≠ "cell type") as Hafter.
  { intros other c Ho Hc. apply list_elem_of_singleton in Ho as ->.
    unfold MainClass.invalid_chars in Hc.
    repeat (apply elem_of_cons in Hc as [->|Hc]; [discriminate|]). inversion Hc. }
  split; [exact E|]. split; [by_evaluation|].
  exact (check_adata_key_lost spaced ["cell type"; "L"; "n"] [] "cell type" ["L"]
           E Hkey Hafter).
Defined.

(** X21 on a sheet of four lines: the cell of [A@x|L@2] gets the merged
    name [A@x|L@2+A@x], and the cell of [A@y|A@y], whose line has no choice,
    gets none. *)
Lemma get_cluster_choices_witness :
  NoDup (map original_name chosen_sheet)
  /\ exists self',
       MainClass.get_cluster prefixed_cells chosen_sheet = Ok self'
       /\ map (fun r => cols r !! "user_choice") (adata_obs self')
          = [Some "A@x|L@2+A@x"; None]
       /\ length (adata_obs self') = 2%nat.
Proof.
  assert (NoDup (map original_name chosen_sheet)) as Hnd by concrete_elem.
  split; [exact Hnd|].
  set (run := MainClass.get_cluster prefixed_cells chosen_sheet).
  assert (run = Ok (value_or prefixed_cells run)) as E by by_evaluation.
  destruct (get_cluster_choices prefixed_cells _ chosen_sheet Hnd E) as (_ & Hrows).
  eexists. split; [exact E|]. split; [by_evaluation|].
  symmetry. exact (Forall2_length _ _ _ Hrows).
Defined.
